(** * blog-source: a static site generator (main.go)

    The build pipeline of [main.go] as a shallow embedding: Go slices as lists
    indexed with stdpp's lookup and insert, the file system as a finite map
    from paths to nodes, the third-party libraries (front-matter parser,
    Markdown renderer, HTML templates) as operations of a section, and
    [sort.Slice] of Go's standard library as the pattern-defeating quicksort
    it runs. The front-matter parser is also given as the line reader it
    is, with its decoders as operations, for the split of a post into
    metadata and body. *)

From stdpp Require Import base option list strings gmap sorting.
From Stdlib Require Import ZArith NArith Lia ZifyNat Ascii.

Open Scope nat_scope.

(** ** Loops

    [for i := lo; i < lo + n; i++ { body }] and
    [for i := n - 1; i >= 0; i-- { body }] over a state [St]; the body may
    panic ([None]). *)

Fixpoint for_up {St : Type} (n i : nat) (body : nat → St → option St) (s : St)
  : option St :=
  match n with
  | 0 => Some s
  | S n' => s' ← body i s; for_up n' (S i) body s'
  end.

Fixpoint for_down {St : Type} (n : nat) (body : nat → St → option St) (s : St)
  : option St :=
  match n with
  | 0 => Some s
  | S i => s' ← body i s; for_down i body s'
  end.

(** [for i <= j && p(i) { i++ }]; the result is the final [i]. *)
Fixpoint skip_up (fuel : nat) (p : nat → option bool) (i j : nat) : option nat :=
  match fuel with
  | 0 => None
  | S f =>
      if decide (i ≤ j) then
        c ← p i; if c : bool then skip_up f p (S i) j else Some i
      else Some i
  end.

(** [for i <= j && p(j) { j-- }]; the result is the final [j]. *)
Fixpoint skip_down (fuel : nat) (p : nat → option bool) (i j : nat) : option nat :=
  match fuel with
  | 0 => None
  | S f =>
      if decide (i ≤ j) then
        c ← p j; if c : bool then skip_down f p i (j - 1) else Some j
      else Some j
  end.

(** ** Go's [sort.Slice]

    [sort.Slice(x, less)] is, in the standard library of Go 1.19 and
    later (sort/slice.go, sort/zsortfunc.go),
    [pdqsort_func(lessSwap{less, swap}, 0, length, bits.Len(uint(length)))]
    where [swap] exchanges two elements of [x]. The closure that main.go
    passes reads the slice being sorted, so [data.Less(i, j)] compares the
    elements now at [i] and [j]. An index out of range panics: [None]. *)

Module GoSort.

Inductive sortedHint := unknownHint | increasingHint | decreasingHint.

Definition maxInsertion : nat := 12.
Definition shortestNinther : nat := 50.
Definition maxSwaps : nat := 4 * 3.
Definition maxSteps : nat := 5.
Definition shortestShifting : nat := 50.

(** [bits.Len(x)]: the number of bits needed to write [x]; 0 for 0. *)
Definition bits_Len (x : nat) : nat := N.to_nat (N.size (N.of_nat x)).

Definition nextPowerOfTwo (length : nat) : N :=
  N.shiftl 1 (N.of_nat (bits_Len length)).

Section Sort.
Context {A : Type}.
(** The comparison on elements. *)
Variable less : A → A → bool.
(** [xorshift.Next]: the 64-bit generator state after one step (which is
    also the value returned). Only [breakPatterns_func] draws from it. *)
Variable xorshift_Next : N → N.

Definition Less (data : list A) (i j : nat) : option bool :=
  x ← data !! i; y ← data !! j; Some (less x y).

Definition Swap (data : list A) (i j : nat) : option (list A) :=
  x ← data !! i; y ← data !! j; Some (<[i:=y]> (<[j:=x]> data)).

(** [for j := i; j > a && data.Less(j, j-1); j-- { data.Swap(j, j-1) }] *)
Fixpoint insertion_shift (a j : nat) (data : list A) : option (list A) :=
  match j with
  | 0 => Some data
  | S j' =>
      if decide (a < j) then
        lt ← Less data j j';
        if lt : bool then data' ← Swap data j j'; insertion_shift a j' data'
        else Some data
      else Some data
  end.

Definition insertionSort_func (data : list A) (a b : nat) : option (list A) :=
  for_up (b - (a + 1)) (a + 1) (insertion_shift a) data.

Fixpoint siftDown_loop (fuel : nat) (hi first root : nat) (data : list A)
  : option (list A) :=
  match fuel with
  | 0 => None
  | S f =>
      let child := 2 * root + 1 in
      if decide (hi ≤ child) then Some data
      else
        child ← (if decide (child + 1 < hi) then
                   lt ← Less data (first + child) (first + child + 1);
                   Some (if lt : bool then child + 1 else child)
                 else Some child);
        lt ← Less data (first + root) (first + child);
        if lt : bool then
          data' ← Swap data (first + root) (first + child);
          siftDown_loop f hi first child data'
        else Some data
  end.

Definition siftDown_func (data : list A) (lo hi first : nat) : option (list A) :=
  siftDown_loop (S hi) hi first lo data.

Definition heapSort_func (data : list A) (a b : nat) : option (list A) :=
  let first := a in
  let lo := 0 in
  let hi := b - a in
  data ← for_down ((hi - 1) / 2 + 1) (λ i d, siftDown_func d i hi first) data;
  for_down hi
    (λ i d, d' ← Swap d first (first + i); siftDown_func d' lo i first) data.

(** The loop of [partition_func]; returns the slice and the final [i], [j]. *)
Fixpoint partition_loop (fuel : nat) (data : list A) (a i j : nat)
  : option (list A * nat * nat) :=
  match fuel with
  | 0 => None
  | S f =>
      i ← skip_up (S (length data)) (λ k, Less data k a) i j;
      j ← skip_down (S (length data)) (λ k, negb <$> Less data k a) i j;
      if decide (j < i) then Some (data, i, j)
      else
        data' ← Swap data i j;
        partition_loop f data' a (i + 1) (j - 1)
  end.

Definition partition_func (data : list A) (a b pivot : nat)
  : option (list A * nat * bool) :=
  data ← Swap data a pivot;
  let i := a + 1 in
  let j := b - 1 in
  i ← skip_up (S (length data)) (λ k, Less data k a) i j;
  j ← skip_down (S (length data)) (λ k, negb <$> Less data k a) i j;
  if decide (j < i) then
    data ← Swap data j a; Some (data, j, true)
  else
    data ← Swap data i j;
    '(data, i, j) ← partition_loop (S (length data)) data a (i + 1) (j - 1);
    data ← Swap data j a; Some (data, j, false).

Fixpoint partitionEqual_loop (fuel : nat) (data : list A) (a i j : nat)
  : option (list A * nat) :=
  match fuel with
  | 0 => None
  | S f =>
      i ← skip_up (S (length data)) (λ k, negb <$> Less data a k) i j;
      j ← skip_down (S (length data)) (λ k, Less data a k) i j;
      if decide (j < i) then Some (data, i)
      else
        data' ← Swap data i j;
        partitionEqual_loop f data' a (i + 1) (j - 1)
  end.

Definition partitionEqual_func (data : list A) (a b pivot : nat)
  : option (list A * nat) :=
  data ← Swap data a pivot;
  partitionEqual_loop (S (length data)) data a (a + 1) (b - 1).

(** [for j := i - 1; j >= 1; j-- { if !data.Less(j, j-1) { break };
    data.Swap(j, j-1) }] *)
Fixpoint shift_smaller (j : nat) (data : list A) : option (list A) :=
  match j with
  | 0 => Some data
  | S j' =>
      lt ← Less data j j';
      if lt : bool then data' ← Swap data j j'; shift_smaller j' data'
      else Some data
  end.

(** [for j := i + 1; j < b; j++ { if !data.Less(j, j-1) { break };
    data.Swap(j, j-1) }] *)
Fixpoint shift_greater (fuel : nat) (j b : nat) (data : list A)
  : option (list A) :=
  match fuel with
  | 0 => None
  | S f =>
      if decide (j < b) then
        lt ← Less data j (j - 1);
        if lt : bool then
          data' ← Swap data j (j - 1); shift_greater f (S j) b data'
        else Some data
      else Some data
  end.

(** The body of [partialInsertionSort_func]; [steps] counts the remaining
    iterations of [for j := 0; j < maxSteps; j++]. *)
Fixpoint partialInsertionSort_loop (steps : nat) (data : list A) (a b i : nat)
  : option (list A * bool) :=
  match steps with
  | 0 => Some (data, false)
  | S st =>
      i ← skip_up (S (length data))
            (λ k, negb <$> Less data k (k - 1)) i (b - 1);
      if decide (i = b) then Some (data, true)
      else if decide (b - a < shortestShifting) then Some (data, false)
      else
        data ← Swap data i (i - 1);
        data ← (if decide (2 ≤ i - a) then shift_smaller (i - 1) data
                else Some data);
        data ← (if decide (2 ≤ b - i)
                then shift_greater (S (length data)) (i + 1) b data
                else Some data);
        partialInsertionSort_loop st data a b i
  end.

Definition partialInsertionSort_func (data : list A) (a b : nat)
  : option (list A * bool) :=
  partialInsertionSort_loop maxSteps data a b (a + 1).

Definition breakPatterns_func (data : list A) (a b : nat) : option (list A) :=
  let length := b - a in
  if decide (8 ≤ length) then
    let random := N.of_nat length in
    let modulus := nextPowerOfTwo length in
    let idx := a + (length / 4) * 2 - 1 in
    fst <$> for_up 3 0
      (λ i '(data, random),
         let random := xorshift_Next random in
         let other := N.to_nat (N.land random (modulus - 1)) in
         let other := if decide (length ≤ other) then other - length else other in
         data ← Swap data (idx - 1 + i) (a + other);
         Some (data, random))
      (data, random)
  else Some data.

(** [order2_func]; the last component is the updated [*swaps]. *)
Definition order2_func (data : list A) (a b swaps : nat)
  : option (nat * nat * nat) :=
  lt ← Less data b a;
  Some (if lt : bool then (b, a, S swaps) else (a, b, swaps)).

Definition median_func (data : list A) (a b c swaps : nat)
  : option (nat * nat) :=
  '(a, b, swaps) ← order2_func data a b swaps;
  '(b, c, swaps) ← order2_func data b c swaps;
  '(a, b, swaps) ← order2_func data a b swaps;
  Some (b, swaps).

Definition medianAdjacent_func (data : list A) (a swaps : nat)
  : option (nat * nat) :=
  median_func data (a - 1) a (a + 1) swaps.

Definition choosePivot_func (data : list A) (a b : nat)
  : option (nat * sortedHint) :=
  let l := b - a in
  let swaps := 0 in
  let i := a + l / 4 * 1 in
  let j := a + l / 4 * 2 in
  let k := a + l / 4 * 3 in
  '(j, swaps) ←
    (if decide (8 ≤ l) then
       '(i, j, k, swaps) ←
         (if decide (shortestNinther ≤ l) then
            '(i, swaps) ← medianAdjacent_func data i swaps;
            '(j, swaps) ← medianAdjacent_func data j swaps;
            '(k, swaps) ← medianAdjacent_func data k swaps;
            Some (i, j, k, swaps)
          else Some (i, j, k, swaps));
       median_func data i j k swaps
     else Some (j, swaps));
  Some (j, if decide (swaps = 0) then increasingHint
           else if decide (swaps = maxSwaps) then decreasingHint
           else unknownHint).

(** [for i < j { data.Swap(i, j); i++; j-- }] with [i = a], [j = b - 1]. *)
Fixpoint reverseRange_loop (fuel : nat) (data : list A) (i j : nat)
  : option (list A) :=
  match fuel with
  | 0 => None
  | S f =>
      if decide (i < j) then
        data' ← Swap data i j; reverseRange_loop f data' (i + 1) (j - 1)
      else Some data
  end.

Definition reverseRange_func (data : list A) (a b : nat) : option (list A) :=
  reverseRange_loop (S (length data)) data a (b - 1).

(** The [for] loop of [pdqsort_func] with its two local flags; a recursive
    call enters the loop with both flags [true]. Every iteration that does
    not return shrinks [b - a], so [fuel > b - a] is enough. *)
Fixpoint pdqsort_loop (fuel : nat) (data : list A) (a b limit : nat)
    (wasBalanced wasPartitioned : bool) : option (list A) :=
  match fuel with
  | 0 => None
  | S f =>
      let length := b - a in
      if decide (length ≤ maxInsertion) then insertionSort_func data a b
      else if decide (limit = 0) then heapSort_func data a b
      else
        '(data, limit) ←
           (if wasBalanced then Some (data, limit)
            else d ← breakPatterns_func data a b; Some (d, limit - 1));
        '(pivot, hint) ← choosePivot_func data a b;
        '(data, pivot, hint) ←
           (match hint with
            | decreasingHint =>
                d ← reverseRange_func data a b;
                Some (d, (b - 1) - (pivot - a), increasingHint)
            | _ => Some (data, pivot, hint)
            end);
        '(data, sorted) ←
           (match wasBalanced && wasPartitioned, hint with
            | true, increasingHint => partialInsertionSort_func data a b
            | _, _ => Some (data, false)
            end);
        if sorted : bool then Some data
        else
          eq ← (if decide (0 < a) then negb <$> Less data (a - 1) pivot
                else Some false);
          if eq : bool then
            '(data, mid) ← partitionEqual_func data a b pivot;
            pdqsort_loop f data mid b limit wasBalanced wasPartitioned
          else
            '(data, mid, alreadyPartitioned) ← partition_func data a b pivot;
            let leftLen := mid - a in
            let rightLen := b - mid in
            let balanceThreshold := length / 8 in
            if decide (leftLen < rightLen) then
              data ← pdqsort_loop f data a mid limit true true;
              pdqsort_loop f data (mid + 1) b limit
                (bool_decide (balanceThreshold ≤ leftLen)) alreadyPartitioned
            else
              data ← pdqsort_loop f data (mid + 1) b limit true true;
              pdqsort_loop f data a mid limit
                (bool_decide (balanceThreshold ≤ rightLen)) alreadyPartitioned
  end.

Definition pdqsort_func (data : list A) (a b limit : nat) : option (list A) :=
  pdqsort_loop (S (b - a)) data a b limit true true.

Definition Slice (x : list A) : option (list A) :=
  let length := length x in
  let limit := bits_Len length in
  pdqsort_func x 0 length limit.

End Sort.
End GoSort.

(** ** Strings and paths *)

Definition error := string.

(** [strings.HasPrefix], [strings.TrimPrefix], [strings.HasSuffix],
    [strings.TrimSuffix]. *)
Definition HasPrefix (s prefix : string) : bool := String.prefix prefix s.

Definition TrimPrefix (s prefix : string) : string :=
  if HasPrefix s prefix
  then String.substring (String.length prefix)
         (String.length s - String.length prefix) s
  else s.

Definition HasSuffix (s suffix : string) : bool :=
  bool_decide (String.length suffix ≤ String.length s)
  && String.eqb
       (String.substring (String.length s - String.length suffix)
          (String.length suffix) s)
       suffix.

Definition TrimSuffix (s suffix : string) : string :=
  if HasSuffix s suffix
  then String.substring 0 (String.length s - String.length suffix) s
  else s.

(** The components of a slash-separated path, and the directory holding
    the last one ([""] is the working directory). *)
Fixpoint components (s : string) : list string :=
  match s with
  | EmptyString => [EmptyString]
  | String c s' =>
      if Ascii.eqb c "/"%char then EmptyString :: components s'
      else match components s' with
           | [] => [String c EmptyString]
           | x :: xs => String c x :: xs
           end
  end.

Definition dirname (path : string) : string :=
  String.concat "/" (removelast (components path)).

(** [path] is [dir] or lies below it. *)
Definition under (dir path : string) : bool :=
  String.eqb path dir || String.prefix (dir +:+ "/") path.

(** ** The data of main.go *)

(** [time.Time] as read from front matter: the instant (seconds and
    nanoseconds since the epoch) and the zone offset it is written in; no
    monotonic clock reading. *)
Record Time := mkTime { sec : Z; nsec : Z; zone : Z }.

Definition zero_Time : Time := mkTime 0 0 0.

(** [t.After(u)]. *)
Definition After (t u : Time) : bool :=
  (sec u <? sec t)%Z || ((sec t =? sec u)%Z && (nsec u <? nsec t)%Z).

(** [t.Equal(u)]: the same instant, whatever the zones. *)
Definition Equal (t u : Time) : bool :=
  (sec t =? sec u)%Z && (nsec t =? nsec u)%Z.

Record PostMetadata := mkPostMetadata {
  Slug : string;
  Title : string;
  Description : string;
  Date : Time;
  Language : string;
  Tags : list string
}.

Record PostData := mkPostData {
  Metadata : PostMetadata;
  Content : string;
  Page : string
}.

Record IndexData := mkIndexData {
  Posts : list PostData;
  IndexPage : string
}.

(** The values handed to [tpl.Execute]; the last is the anonymous struct
    of [ParseAboutPage] with its fields [Page] and [Title]. *)
Inductive TemplateData :=
  | DataPost (post : PostData)
  | DataIndex (index : IndexData)
  | DataAbout (page title : string).

Definition zero_PostMetadata : PostMetadata :=
  mkPostMetadata "" "" "" zero_Time "" [].

Definition zero_PostData : PostData := mkPostData zero_PostMetadata "" "".

Definition set_Content (p : PostData) (c : string) : PostData :=
  mkPostData (Metadata p) c (Page p).

Definition set_Slug (p : PostData) (slug : string) : PostData :=
  let m := Metadata p in
  mkPostData
    (mkPostMetadata slug (Title m) (Description m) (Date m) (Language m)
       (Tags m))
    (Content p) (Page p).

(** ** The file system and the process *)

Inductive node := File (content : string) | Dir.

(** What the process does, in order: its calls to the operating system,
    the template executions with the data they are given, and the lines
    written to standard error. *)
Inductive event :=
  | EvRemoveAll (path : string)
  | EvMkdirAll (path : string)
  | EvMkdir (path : string)
  | EvOpen (path : string)
  | EvCreate (path : string)
  | EvWrite (path : string)
  | EvGlob (pattern : string)
  | EvExecute (file : string) (data : TemplateData)
  | EvLog (msg : string).

Record World := mkWorld { fs : gmap string node; trace : list event }.

(** How a computation ends: it returns, it panics, or the process exits
    ([log.Fatal] prints and calls [os.Exit(1)]). *)
Inductive outcome (A : Type) :=
  | Done (a : A)
  | Panic (v : string)
  | Exit (code : Z).
Arguments Done {A} a.
Arguments Panic {A} v.
Arguments Exit {A} code.

Definition M (A : Type) : Type := World → outcome A * World.

Definition ret {A} (a : A) : M A := λ w, (Done a, w).

Definition bind {A B} (m : M A) (k : A → M B) : M B :=
  λ w, match m w with
       | (Done a, w') => k a w'
       | (Panic v, w') => (Panic v, w')
       | (Exit c, w') => (Exit c, w')
       end.

Global Instance M_ret : MRet M := @ret.
Global Instance M_bind : MBind M := λ A B k m, bind m k.

Definition emit (e : event) : M unit :=
  λ w, (Done tt, mkWorld (fs w) (trace w ++ [e])).

Definition get_fs : M (gmap string node) := λ w, (Done (fs w), w).

Definition put_fs (m : gmap string node) : M unit :=
  λ w, (Done tt, mkWorld m (trace w)).

Definition panic {A} (v : string) : M A := λ w, (Panic v, w).

(** [log.Fatal(v...)]: the message goes to standard error, then [os.Exit(1)]. *)
Definition log_Fatal {A} (msg : string) : M A :=
  λ w, (Exit 1, mkWorld (fs w) (trace w ++ [EvLog msg])).

(** [os.RemoveAll]: removes [path] and what lies below it; no error when
    [path] does not exist. *)
Definition os_RemoveAll (path : string) : M (option error) :=
  emit (EvRemoveAll path);;
  m ← get_fs;
  put_fs (filter (λ kv, under path kv.1 = false) m);;
  mret None.

Definition parent_status (m : gmap string node) (path : string)
  : option error :=
  let d := dirname path in
  if String.eqb d "" then None
  else match m !! d with
       | Some Dir => None
       | Some (File _) => Some "not a directory"
       | None => Some "no such file or directory"
       end.

(** [os.Mkdir]. *)
Definition os_Mkdir (path : string) : M (option error) :=
  emit (EvMkdir path);;
  m ← get_fs;
  match m !! path with
  | Some _ => mret (Some ("mkdir " +:+ path +:+ ": file exists"))
  | None =>
      match parent_status m path with
      | Some e => mret (Some ("mkdir " +:+ path +:+ ": " +:+ e))
      | None => put_fs (<[path:=Dir]> m);; mret None
      end
  end.

(** [os.MkdirAll] on the ancestors [path :: parent :: ...]: an existing
    directory ends the search; otherwise the parent is made first, then
    [path] itself. *)
Fixpoint mkdirAll (ancestors : list string) (m : gmap string node)
  : gmap string node + error :=
  match ancestors with
  | [] => inl m
  | path :: parents =>
      match m !! path with
      | Some Dir => inl m
      | Some (File _) => inr ("mkdir " +:+ path +:+ ": not a directory")
      | None =>
          match mkdirAll parents m with
          | inr e => inr e
          | inl m' => inl (<[path:=Dir]> m')
          end
      end
  end.

Fixpoint ancestors_of (comps : list string) (acc : string) : list string :=
  match comps with
  | [] => []
  | c :: cs =>
      let p := if String.eqb acc "" then c else acc +:+ "/" +:+ c in
      ancestors_of cs p ++ [p]
  end.

Definition os_MkdirAll (path : string) : M (option error) :=
  emit (EvMkdirAll path);;
  m ← get_fs;
  match mkdirAll (ancestors_of (components path) "") m with
  | inr e => mret (Some e)
  | inl m' => put_fs m';; mret None
  end.

(** [os.Open]: the handle is the path; opening a directory succeeds. *)
Definition os_Open (path : string) : M (string * option error) :=
  emit (EvOpen path);;
  m ← get_fs;
  match m !! path with
  | Some _ => mret (path, None)
  | None => mret ("", Some ("open " +:+ path +:+ ": no such file or directory"))
  end.

(** [os.Create]: an existing file is truncated. *)
Definition os_Create (path : string) : M (string * option error) :=
  emit (EvCreate path);;
  m ← get_fs;
  match parent_status m path with
  | Some e => mret ("", Some ("open " +:+ path +:+ ": " +:+ e))
  | None =>
      match m !! path with
      | Some Dir => mret ("", Some ("open " +:+ path +:+ ": is a directory"))
      | _ => put_fs (<[path:=File ""]> m);; mret (path, None)
      end
  end.

(** [io.ReadAll] of an open file. *)
Definition io_ReadAll (f : string) : M (string * option error) :=
  m ← get_fs;
  match m !! f with
  | Some (File c) => mret (c, None)
  | Some Dir => mret ("", Some ("read " +:+ f +:+ ": is a directory"))
  | None => mret ("", Some ("read " +:+ f +:+ ": file already closed"))
  end.

(** Writing to an open file appends at its end. *)
Definition file_Write (f : string) (data : string) : M (option error) :=
  emit (EvWrite f);;
  m ← get_fs;
  match m !! f with
  | Some (File c) => put_fs (<[f:=File (c +:+ data)]> m);; mret None
  | _ => mret (Some ("write " +:+ f +:+ ": bad file descriptor"))
  end.

(** [io.Copy(dst, src)]. *)
Definition io_Copy (dst src : string) : M (option error) :=
  '(data, err) ← io_ReadAll src;
  match err with
  | Some e => mret (Some e)
  | None => file_Write dst data
  end.

Fixpoint no_separator (s : string) : bool :=
  match s with
  | EmptyString => true
  | String c s' => negb (Ascii.eqb c "/"%char) && no_separator s'
  end.

Definition string_le (s t : string) : Prop := String.leb s t = true.

Global Instance string_le_dec s t : Decision (string_le s t).
Proof. unfold string_le. apply _. Defined.

(** [filepath.Glob("posts/*.md")]: the entries of the directory [posts]
    whose name ends in [.md], as [posts/<name>], in sorted order. The
    pattern is well formed, so there is no error. *)
Definition glob_match (path : string) : bool :=
  let name := TrimPrefix path "posts/" in
  HasPrefix path "posts/" && negb (String.eqb name "")
  && no_separator name && HasSuffix name ".md".

Definition filepath_Glob_posts : M (list string * option error) :=
  emit (EvGlob "posts/*.md");;
  m ← get_fs;
  match m !! "posts" with
  | Some Dir =>
      mret (merge_sort string_le (filter (λ p, glob_match p = true)
                                   (map_to_list m).*1), None)
  | _ => mret ([], None)
  end.

(** ** The front-matter library

    [frontmatter.Parse(r, &meta)] of github.com/adrg/frontmatter
    (format.go, parser.go), called as main.go calls it: without formats,
    so with the default ones, on the [bytes.Reader] that [Read] returns,
    which does not fail, and with [meta] holding the zero value. The
    parser reads line by line and keeps what it has read in [output];
    [read] counts the bytes read and [start] is where the front matter
    begins in [output]. The decoders of the three syntaxes
    ([yaml.Unmarshal], [toml.Unmarshal], [json.Unmarshal]) and
    [strings.TrimSpace] are operations of the section. *)

Module frontmatter.

Inductive syntax := YAML | TOML | JSON.

Record Format := mkFormat {
  Start : string;
  End : string;
  Unmarshal : syntax;
  UnmarshalDelims : bool;
  RequiresNewLine : bool
}.

Definition newFormat (start end_ : string) (unmarshal : syntax) : Format :=
  mkFormat start end_ unmarshal false false.

Definition defaultFormats : list Format :=
  [newFormat "---" "---" YAML; newFormat "---yaml" "---" YAML;
   newFormat "+++" "+++" TOML; newFormat "---toml" "---" TOML;
   newFormat ";;;" ";;;" JSON; newFormat "---json" "---" JSON;
   mkFormat "{" "}" JSON true true].

Record parser := mkParser {
  reader : string;
  output : string;
  read : nat;
  start : nat
}.

Definition newline : ascii := "010"%char.

(** [bufio.Reader.ReadBytes('\n')]: the bytes up to the first newline and
    that newline, and what is left to read; at the end of the input, what
    was left of it, and [io.EOF]. *)
Fixpoint ReadBytes (s : string) : string * string * bool :=
  match s with
  | EmptyString => (EmptyString, EmptyString, true)
  | String c s' =>
      if Ascii.eqb c newline then (String c EmptyString, s', false)
      else let '(line, rest, eof) := ReadBytes s' in (String c line, rest, eof)
  end.

(** How [extract] ends: no front matter after all, the front matter
    decoded, or the error of the decoder. *)
Inductive extracted :=
  | NotFound (p : parser)
  | Found (meta : PostMetadata) (p : parser)
  | Failed (err : error).

Section Parse.
Variable TrimSpace : string → string.
Variable decode : syntax → string → PostMetadata + error.

Definition readLine (p : parser) : string * bool * parser :=
  let '(line, rest, atEOF) := ReadBytes (reader p) in
  (TrimSpace line, atEOF,
   mkParser rest (output p +:+ line) (read p + String.length line) (start p)).

(** The loop of [detect]: empty lines are skipped; the first other line
    is the start of a format or there is no front matter. *)
Fixpoint detect (fuel : nat) (formats : list Format) (p : parser)
  : option (option Format * parser) :=
  match fuel with
  | 0 => None
  | S fuel' =>
      let read0 := read p in
      let '(line, atEOF, p) := readLine p in
      if atEOF : bool then Some (None, p)
      else if String.eqb line "" then detect fuel' formats p
      else
        match List.find (λ f, String.eqb (Start f) line) formats with
        | Some f =>
            let read0 := if UnmarshalDelims f then read0 else read p in
            Some (Some f,
                  mkParser (reader p) (output p) (read p) read0)
        | None => Some (None, p)
        end
  end.

(** The end of [extract], once the end of the front matter is found:
    [f.Unmarshal(p.output.Bytes()[p.start:read], v)] and
    [p.output.Reset()]. *)
Definition unmarshal (f : Format) (read0 : nat) (p : parser) : extracted :=
  let read0 := if UnmarshalDelims f then read p else read0 in
  match decode (Unmarshal f)
          (String.substring (start p) (read0 - start p) (output p)) with
  | inr err => Failed err
  | inl meta => Found meta (mkParser (reader p) "" (read p) (start p))
  end.

(** The loop of [extract]. [pending] is [None] at the top of the loop and
    holds [read], [line] and [atEOF] at the label [CheckLine]. *)
Fixpoint extract (fuel : nat) (f : Format)
    (pending : option (nat * string * bool)) (p : parser)
  : option extracted :=
  match fuel with
  | 0 => None
  | S fuel' =>
      match pending with
      | None =>
          let read0 := read p in
          let '(line, atEOF, p) := readLine p in
          extract fuel' f (Some (read0, line, atEOF)) p
      | Some (read0, line, atEOF) =>
          if negb (String.eqb line (End f)) then
            if atEOF : bool then Some (NotFound p)
            else extract fuel' f None p
          else if RequiresNewLine f then
            let '(line, atEOF, p) := readLine p in
            if negb (String.eqb line "") then
              extract fuel' f (Some (read0, line, atEOF)) p
            else Some (unmarshal f read0 p)
          else Some (unmarshal f read0 p)
      end
  end.

(** [frontmatter.Parse]: the rest of the input and the metadata, or an
    error. The loops get more fuel than they have lines to read. *)
Definition Parse (input : string) : (string * PostMetadata) + error :=
  let fuel := 3 * String.length input + 4 in
  match detect fuel defaultFormats (mkParser input "" 0 0) with
  | None => inr "frontmatter: no end of input"
  | Some (None, p) => inl (output p +:+ reader p, zero_PostMetadata)
  | Some (Some f, p) =>
      match extract fuel f None p with
      | None => inr "frontmatter: no end of input"
      | Some (Failed err) => inr err
      | Some (NotFound p) => inl (output p +:+ reader p, zero_PostMetadata)
      | Some (Found meta p) => inl (output p +:+ reader p, meta)
      end
  end.
End Parse.
End frontmatter.

(** ** main.go *)

(** [filepath.Base] of a path without trailing slash. *)
Definition Base (path : string) : string := List.last (components path) "".

Section Build.
(** The libraries main.go calls, as the pure functions they are here.
    [frontmatter.Parse(r, &meta)] gives the rest of the input and the
    decoded metadata, or an error. *)
Variable frontmatter_Parse : string → (string * PostMetadata) + error.
(** goldmark's [Convert(source, &buf)] with the highlighting extension:
    the contents of [buf], or an error. *)
Variable md_Convert : string → string + error.
(** html/template: a set of parsed templates; [t.New(name).Parse(text)]
    adds one to the set [t] ([None] before the first file); [Execute]
    gives what is written and the error that stopped it, if any. *)
Variable Template : Type.
Variable template_Parse : option Template → string → string → Template + error.
Variable template_Execute : Template → TemplateData → string * option error.
(** The generator of [sort]'s pattern breaking. *)
Variable xorshift_Next : N → N.

(** [os.ReadFile]. *)
Definition os_ReadFile (name : string) : M (string * option error) :=
  '(f, err) ← os_Open name;
  if err is Some e then mret ("", Some e)
  else io_ReadAll f.

Fixpoint template_parseFiles (t : option Template) (filenames : list string)
  : M (option Template * option error) :=
  match filenames with
  | [] => mret (t, None)
  | filename :: rest =>
      '(b, err) ← os_ReadFile filename;
      if err is Some e then mret (None, Some e)
      else match template_Parse t (Base filename) b with
           | inr e => mret (None, Some e)
           | inl t' => template_parseFiles (Some t') rest
           end
  end.

Definition template_ParseFiles (filenames : list string)
  : M (option Template * option error) :=
  if filenames is [] then
    mret (None, Some "html/template: no files named in call to ParseFiles")
  else template_parseFiles None filenames.

(** [template.Must] panics on an error. *)
Definition template_Must (r : option Template * option error) : M Template :=
  match r with
  | (_, Some e) => panic e
  | (Some t, None) => mret t
  | (None, None) => panic "invalid memory address or nil pointer dereference"
  end.

(** [tpl.Execute(file, data)]. *)
Definition Execute (tpl : Template) (file : string) (data : TemplateData)
  : M (option error) :=
  emit (EvExecute file data);;
  let '(out, err) := template_Execute tpl data in
  werr ← file_Write file out;
  mret (if werr is Some e then Some e else err).

Definition Read (slug : string) : M (string * option error) :=
  '(f, err) ← os_Open ("posts/" +:+ slug +:+ ".md");
  if err is Some e then mret ("", Some e)
  else
    '(b, err) ← io_ReadAll f;
    if err is Some e then mret ("", Some e)
    else mret (b, None).

Definition copyFile (srcPath dstPath : string) : M (option error) :=
  '(sourceFile, err) ← os_Open srcPath;
  if err is Some e then mret (Some e)
  else
    '(destFile, err) ← os_Create dstPath;
    if err is Some e then mret (Some e)
    else
      err ← io_Copy destFile sourceFile;
      if err is Some e then mret (Some e)
      else mret None.

Definition getpostData (postMarkdown : string)
  : string * PostData * option error :=
  match frontmatter_Parse postMarkdown with
  | inr err => ("", zero_PostData, Some ("post parse error: " +:+ err))
  | inl (rest, meta) => (rest, mkPostData meta "" "", None)
  end.

(** The [for _, filename := range filenames] loop of [getAllpostData]. *)
Fixpoint getAllpostData_loop (filenames : list string) (posts : list PostData)
  : M (list PostData * option error) :=
  match filenames with
  | [] => mret (posts, None)
  | filename :: filenames' =>
      let slug := TrimPrefix filename "posts/" in
      let slug := TrimSuffix slug ".md" in
      '(postMarkdown, err) ← Read slug;
      if err is Some e then mret (posts, Some ("post Read error: " +:+ e))
      else
        let '(rest, postData, err) := getpostData postMarkdown in
        if err is Some e then mret (posts, Some e)
        else
          match md_Convert rest with
          | inr e =>
              mret (posts, Some ("Markdown to html convert error: " +:+ e))
          | inl buf =>
              let postData := set_Content postData buf in
              let postData := set_Slug postData slug in
              getAllpostData_loop filenames' (posts ++ [postData])
          end
  end.

Definition getAllpostData : M (list PostData * option error) :=
  '(filenames, err) ← filepath_Glob_posts;
  (if err is Some e then log_Fatal e else mret tt);;
  getAllpostData_loop filenames [].

Fixpoint ParsepostsMDToHTML_loop (tpl : Template) (postsData : list PostData)
  : M (option error) :=
  match postsData with
  | [] => mret None
  | post :: rest =>
      '(file, err) ←
        os_Create ("public/posts/" +:+ Slug (Metadata post) +:+ ".html");
      if err is Some e then mret (Some ("HTML File creation error: " +:+ e))
      else
        err ← Execute tpl file (DataPost post);
        if err is Some e then
          mret (Some ("Tempalate Execute error: " +:+ e))
        else ParsepostsMDToHTML_loop tpl rest
  end.

Definition ParsepostsMDToHTML (postsData : list PostData) : M (option error) :=
  r ← template_ParseFiles
        ["template/post.html"; "template/header.html"; "template/footer.html"];
  tpl ← template_Must r;
  ParsepostsMDToHTML_loop tpl postsData.

Definition ParseIndexTemplateToHTML (postsData : list PostData)
  : M (option error) :=
  r ← template_ParseFiles
        ["template/index.html"; "template/header.html"; "template/footer.html"];
  tpl ← template_Must r;
  '(file, err) ← os_Create "public/index.html";
  if err is Some e then mret (Some ("HTML File creation error: " +:+ e))
  else
    let indexData := mkIndexData postsData "index" in
    err ← Execute tpl file (DataIndex indexData);
    if err is Some e then mret (Some ("Tempalate Execute error: " +:+ e))
    else mret None.

Definition ParseAboutPage : M (option error) :=
  r ← template_ParseFiles
        ["template/about.html"; "template/header.html"; "template/footer.html"];
  tpl ← template_Must r;
  '(file, err) ← os_Create "public/about.html";
  if err is Some e then mret (Some e)
  else
    let data := DataAbout "about" "About me" in
    Execute tpl file data.

(** The comparison handed to [sort.Slice]:
    [postsData[i].Metadata.Date.After(postsData[j].Metadata.Date)]. *)
Definition post_less (pi pj : PostData) : bool :=
  After (Date (Metadata pi)) (Date (Metadata pj)).

(** [sort.Slice(postsData, ...)] sorts in place; the sorted slice is what
    the rest of [main] sees. *)
Definition sort_posts (postsData : list PostData) : M (list PostData) :=
  match GoSort.Slice post_less xorshift_Next postsData with
  | Some sorted => mret sorted
  | None => panic "runtime error: index out of range"
  end.

(** [if err != nil { log.Fatal(prefix, err) }]. *)
Definition fatal_on (prefix : string) (err : option error) : M unit :=
  if err is Some e then log_Fatal (prefix +:+ e) else mret tt.

Definition main : M unit :=
  err ← os_RemoveAll "public";
  fatal_on "" err;;
  err ← os_MkdirAll "public";
  fatal_on "" err;;
  err ← os_Mkdir "public/posts";
  fatal_on "" err;;
  err ← copyFile "static/style.css" "public/style.css";
  fatal_on "Error copying styles: " err;;
  '(postsData, err) ← getAllpostData;
  fatal_on "" err;;
  postsData ← sort_posts postsData;
  err ← ParsepostsMDToHTML postsData;
  fatal_on "" err;;
  err ← ParseIndexTemplateToHTML postsData;
  fatal_on "" err;;
  err ← ParseAboutPage;
  fatal_on "" err.
End Build.

(** ** Specification vocabulary for the sort *)

Section SortSpec.
Context {A : Type}.
Variable less : A → A → bool.

(** [l'] is [l] with the elements at the indices [a <= k < b] rearranged:
    nothing outside moves, and whatever is inside came from inside. *)
Definition seg_perm (a b : nat) (l l' : list A) : Prop :=
  length l' = length l
  ∧ (∀ k, k < a ∨ b ≤ k → l' !! k = l !! k)
  ∧ (∀ k y, a ≤ k < b → l' !! k = Some y →
       ∃ k', a ≤ k' < b ∧ l !! k' = Some y)
  ∧ l ≡ₚ l'.

(** No inversion between two positions of [a <= i < j < b]. *)
Definition sorted_seg (l : list A) (a b : nat) : Prop :=
  ∀ i j x y, a ≤ i → i < j → j < b →
    l !! i = Some x → l !! j = Some y → less y x = false.

(** The neighbours at [i], [i + 1] are in order. *)
Definition adj_ok (l : list A) (i : nat) : Prop :=
  ∀ x y, l !! i = Some x → l !! S i = Some y → less y x = false.

(** [x] is not above any element at [a <= k < b]. *)
Definition lower_bound (l : list A) (a b : nat) (x : A) : Prop :=
  ∀ k y, a ≤ k < b → l !! k = Some y → less y x = false.

(** What [pdqsort_func] expects of the element before its range. *)
Definition left_bounded (l : list A) (a b : nat) : Prop :=
  ∀ x, 0 < a → l !! (a - 1) = Some x → lower_bound l a b x.

(** In the heap laid out from index [first] with [hi] nodes, node [i] is
    not below its children [2i + 1] and [2i + 2]. *)
Definition heap_at (l : list A) (first hi i : nat) : Prop :=
  ∀ c x y, c = 2 * i + 1 ∨ c = 2 * i + 2 → c < hi →
    l !! (first + i) = Some x → l !! (first + c) = Some y → less x y = false.

(** [less] is a strict weak order. *)
Record strict_weak : Prop := {
  sw_irrefl : ∀ x, less x x = false;
  sw_trans : ∀ x y z, less x y = true → less y z = true → less x z = true;
  sw_negtrans : ∀ x y z,
    less x y = false → less y z = false → less x z = false
}.
End SortSpec.

(** ** Specification vocabulary for the posts *)

(** The instant of a [time.Time], which is what [After] and [Equal] compare. *)
Definition instant (t : Time) : Z * Z := (sec t, nsec t).

Definition post_instant (p : PostData) : Z * Z := instant (Date (Metadata p)).

(** Newest first, with no two posts of the same instant next to each other
    or anywhere else: every post is dated after all the posts behind it. *)
Definition strictly_descending (posts : list PostData) : Prop :=
  ∀ i j pi pj, i < j → posts !! i = Some pi → posts !! j = Some pj →
    After (Date (Metadata pi)) (Date (Metadata pj)) = true.

(** The posts published at the instant of [t], in the order of the list. *)
Definition published_at (t : Time) (posts : list PostData) : list PostData :=
  filter (λ p, Equal (Date (Metadata p)) t = true) posts.

(** ** Sample inputs *)

(** A 64-bit xorshift step (shifts 13, 7, 17), for running the sort; no
    statement below depends on which generator is used. *)
Definition xorshift64 (r : N) : N :=
  let m := (2 ^ 64)%N in
  let r := N.lxor r (N.shiftl r 13 mod m) in
  let r := N.lxor r (N.shiftr r 7) in
  N.lxor r (N.shiftl r 17 mod m).

Definition jan1 : Time := mkTime 1704067200 0 0.
Definition feb1 : Time := mkTime 1706745600 0 0.
Definition mar1 : Time := mkTime 1709251200 0 0.

Definition sample_post (slug : string) (date : Time) : PostData :=
  mkPostData (mkPostMetadata slug slug "" date "en" []) "" "".

(** Thirteen posts in discovery order: all of January 1st but the eighth. *)
Definition posts13 : list PostData :=
  [sample_post "a" jan1; sample_post "b" jan1; sample_post "c" jan1;
   sample_post "d" jan1; sample_post "e" jan1; sample_post "f" jan1;
   sample_post "g" jan1; sample_post "h" feb1; sample_post "i" jan1;
   sample_post "j" jan1; sample_post "k" jan1; sample_post "l" jan1;
   sample_post "m" jan1].

Definition posts3 : list PostData :=
  [sample_post "a" jan1; sample_post "b" mar1; sample_post "c" feb1].

Definition posts4_ties : list PostData :=
  [sample_post "a" jan1; sample_post "b" feb1; sample_post "c" jan1;
   sample_post "d" feb1].

Definition empty_world : World := mkWorld ∅ [].

(** ** Specification vocabulary for the build *)

(** The slug [getAllpostData] derives from a file name, and the file
    [Read] then opens for it. *)
Definition slug_of (filename : string) : string :=
  TrimSuffix (TrimPrefix filename "posts/") ".md".

Definition post_source (filename : string) : string :=
  "posts/" +:+ slug_of filename +:+ ".md".

(** The page [ParsepostsMDToHTML] writes for a post. *)
Definition post_page (slug : string) : string :=
  "public/posts/" +:+ slug +:+ ".html".

(** [filename] is a post source that [filepath.Glob("posts/*.md")] finds
    in the file system [m]. *)
Definition discovered (m : gmap string node) (filename : string) : Prop :=
  m !! "posts" = Some Dir ∧ glob_match filename = true
  ∧ is_Some (m !! filename).

(** The file names [filepath.Glob("posts/*.md")] returns in [m]. *)
Definition glob_posts (m : gmap string node) : list string :=
  match (filepath_Glob_posts (mkWorld m [])).1 with
  | Done (filenames, _) => filenames
  | _ => []
  end.

(** The file system without the output directory, and with the output
    directory as the first steps of [main] recreate it. *)
Definition clear_public (m : gmap string node) : gmap string node :=
  filter (λ kv, under "public" kv.1 = false) m.

Definition setup_fs (m : gmap string node) : gmap string node :=
  <["public/posts":=Dir]> (<["public":=Dir]> (clear_public m)).

Definition setup_events : list event :=
  [EvRemoveAll "public"; EvMkdirAll "public"; EvMkdir "public/posts"].

(** [path] holds a regular file. *)
Definition is_file (m : gmap string node) (path : string) : Prop :=
  ∃ c, m !! path = Some (File c).

(** A template execution for the about page is given the constant record. *)
Definition about_data_constant (e : event) : Prop :=
  match e with
  | EvExecute file data =>
      file = "public/about.html" → data = DataAbout "about" "About me"
  | _ => True
  end.

(** A template execution for a post writes to the page named after the
    post's slug. *)
Definition post_at_its_page (e : event) : Prop :=
  match e with
  | EvExecute file (DataPost post) =>
      file = "public/posts/" +:+ Slug (Metadata post) +:+ ".html"
  | _ => True
  end.

(** An event that reads a post or renders a page. *)
Definition reads_or_renders (e : event) : Prop :=
  match e with
  | EvGlob _ | EvExecute _ _ => True
  | EvOpen path => HasPrefix path "posts/" = true
  | EvCreate path | EvWrite path => path ≠ "public/style.css"
  | _ => False
  end.

(** An event that renders a page: creating or writing a file other than
    the stylesheet, or executing a template. *)
Definition renders (e : event) : Prop :=
  match e with
  | EvExecute _ _ => True
  | EvCreate path | EvWrite path => path ≠ "public/style.css"
  | _ => False
  end.

(** The changes a computation may make: [w'] differs from [w] at most
    below the output directory. *)
Definition writes_public_only (w w' : World) : Prop :=
  ∀ k, under "public" k = false → fs w' !! k = fs w !! k.

(** The events a computation adds all satisfy [P]. *)
Definition emits_only (P : event → Prop) (w w' : World) : Prop :=
  ∃ evs, trace w' = trace w ++ evs ∧ Forall P evs.

(** What rendering leaves alone: the events so far stay in the trace and
    the regular files stay regular files. *)
Definition keeps (w w' : World) : Prop :=
  (∀ e, e ∈ trace w → e ∈ trace w') ∧ (∀ p, is_file (fs w) p → is_file (fs w') p).

(** Both bounds at once. *)
Definition bounded (P : event → Prop) (w w' : World) : Prop :=
  writes_public_only w w' ∧ emits_only P w w'.

(** Whatever world [m] starts in, the world it ends in is related to it by
    [F], and a value it returns satisfies [Q]. *)
Definition effects {A} (F : World → World → Prop) (Q : A → Prop) (m : M A)
  : Prop :=
  ∀ w, F w (m w).2 ∧ ∀ a, (m w).1 = Done a → Q a.

Section BuildSpec.
Variable frontmatter_Parse : string → (string * PostMetadata) + error.
Variable md_Convert : string → string + error.
Variable Template : Type.
Variable template_Parse : option Template → string → string → Template + error.
Variable template_Execute : Template → TemplateData → string * option error.
Variable xorshift_Next : N → N.

(** One of the load steps of [getAllpostData] fails for [filename]:
    reading it, splitting off the front matter, or converting the body. *)
Definition post_fails (m : gmap string node) (filename : string) : Prop :=
  match m !! post_source filename with
  | Some (File c) =>
      match frontmatter_Parse c with
      | inl (rest, _) =>
          match md_Convert rest with inl _ => False | inr _ => True end
      | inr _ => True
      end
  | _ => True
  end.

(** Loading the template files [files] into the set [t] fails: going
    through them in order, one is not a readable file or does not parse. *)
Inductive template_broken (m : gmap string node)
  : option Template → list string → Prop :=
  | broken_missing t f files :
      ¬ is_file m f → template_broken m t (f :: files)
  | broken_syntax t f files c e :
      m !! f = Some (File c) → template_Parse t (Base f) c = inr e →
      template_broken m t (f :: files)
  | broken_later t f files c t' :
      m !! f = Some (File c) → template_Parse t (Base f) c = inl t' →
      template_broken m (Some t') files →
      template_broken m t (f :: files).

(** The three places where templates are loaded and a page is rendered. *)
Inductive layout := PostLayout | IndexLayout | AboutLayout.

Definition layout_files (l : layout) : list string :=
  [match l with
   | PostLayout => "template/post.html"
   | IndexLayout => "template/index.html"
   | AboutLayout => "template/about.html"
   end; "template/header.html"; "template/footer.html"].

Definition render (l : layout) (postsData : list PostData)
  : M (option error) :=
  match l with
  | PostLayout =>
      ParsepostsMDToHTML Template template_Parse template_Execute postsData
  | IndexLayout =>
      ParseIndexTemplateToHTML Template template_Parse template_Execute
        postsData
  | AboutLayout => ParseAboutPage Template template_Parse template_Execute
  end.

(** [main] from the rendering of the pages on, from the loading of the
    posts on, and from the copy of the stylesheet on. *)
Definition main_render (postsData : list PostData) : M unit :=
  err ← ParsepostsMDToHTML Template template_Parse template_Execute postsData;
  fatal_on "" err;;
  err ← ParseIndexTemplateToHTML Template template_Parse template_Execute
          postsData;
  fatal_on "" err;;
  err ← ParseAboutPage Template template_Parse template_Execute;
  fatal_on "" err.

Definition main_load : M unit :=
  '(postsData, err) ← getAllpostData frontmatter_Parse md_Convert;
  fatal_on "" err;;
  postsData ← sort_posts xorshift_Next postsData;
  main_render postsData.

Definition main_copy : M unit :=
  err ← copyFile "static/style.css" "public/style.css";
  fatal_on "Error copying styles: " err;;
  main_load.
End BuildSpec.

(** ** Sample libraries and file systems *)

(** A front-matter reader that rejects input starting with [!] and puts
    the whole input into the title, its length into the date, and the
    slug [from-front-matter] into the slug. *)
Definition toy_frontmatter (s : string) : (string * PostMetadata) + error :=
  if String.prefix "!" s then inr "front matter: bad block"
  else inl (s, mkPostMetadata "from-front-matter" s ""
                 (mkTime (Z.of_nat (String.length s)) 0 0) "" []).

Definition toy_markdown (s : string) : string + error :=
  if String.prefix "?" s then inr "cannot convert"
  else inl ("<p>" +:+ s +:+ "</p>").

(** Templates as the list of their texts; a text starting with [{{] does
    not parse. *)
Definition toy_parse (t : option (list string)) (name text : string)
  : list string + error :=
  if String.prefix "{{" text then inr ("template: " +:+ name +:+ ": bad syntax")
  else inl (List.app (default [] t) [text]).

Definition toy_execute (t : list string) (d : TemplateData)
  : string * option error :=
  (String.concat "|" t +:+
     match d with
     | DataPost p => Content p
     | DataIndex i => String.concat "," (Slug ∘ Metadata <$> Posts i)
     | DataAbout page title => page +:+ ":" +:+ title
     end, None).

Definition toy_main : M unit :=
  main toy_frontmatter toy_markdown (list string) toy_parse toy_execute
    xorshift64.

Definition sample_inputs : list (string * node) :=
  [("posts", Dir); ("posts/hello.md", File "# Hi");
   ("posts/second.md", File "## More");
   ("static", Dir); ("static/style.css", File "body{}");
   ("template", Dir); ("template/post.html", File "P");
   ("template/index.html", File "I"); ("template/about.html", File "A");
   ("template/header.html", File "H"); ("template/footer.html", File "F")].

(** A complete site source, with a stale output directory. *)
Definition sample_fs : gmap string node :=
  list_to_map (("public", Dir) :: ("public/old.html", File "old")
               :: sample_inputs).

Definition sample_world : World := mkWorld sample_fs [].

(** The same with a directory where the stylesheet should be, with a
    post that does not convert, and without the footer template. *)
Definition stylesheet_dir_world : World :=
  mkWorld (<["static/style.css":=Dir]> sample_fs) [].

Definition stylesheet_missing_world : World :=
  mkWorld (delete "static/style.css" sample_fs) [].

Definition bad_post_world : World :=
  mkWorld (<["posts/second.md":=File "?"]> sample_fs) [].

Definition no_footer_world : World :=
  mkWorld (delete "template/footer.html" sample_fs) [].

(** ** Vocabulary for what a build loads and leaves *)

(** Newest first, posts of one instant allowed: no post is dated before a
    post that comes behind it. *)
Definition descending (posts : list PostData) : Prop :=
  ∀ i j pi pj, i < j → posts !! i = Some pi → posts !! j = Some pj →
    (sec (Date (Metadata pj)) < sec (Date (Metadata pi))
     ∨ (sec (Date (Metadata pj)) = sec (Date (Metadata pi))
        ∧ nsec (Date (Metadata pj)) ≤ nsec (Date (Metadata pi))))%Z.

Section LoadSpec.
Variable frontmatter_Parse : string → (string * PostMetadata) + error.
Variable md_Convert : string → string + error.
Variable Template : Type.
Variable template_Parse : option Template → string → string → Template + error.
Variable template_Execute : Template → TemplateData → string * option error.

(** What one round of the loop of [getAllpostData] makes of the file it is
    at: the record it appends, or the error it returns. *)
Definition load_post (m : gmap string node) (filename : string)
  : PostData + error :=
  match m !! post_source filename with
  | Some (File c) =>
      match frontmatter_Parse c with
      | inl (rest, meta) =>
          match md_Convert rest with
          | inl buf =>
              inl (mkPostData
                     (mkPostMetadata (slug_of filename) (Title meta)
                        (Description meta) (Date meta) (Language meta)
                        (Tags meta))
                     buf "")
          | inr e => inr ("Markdown to html convert error: " +:+ e)
          end
      | inr e => inr ("post parse error: " +:+ e)
      end
  | Some Dir =>
      inr ("post Read error: "
           +:+ ("read " +:+ post_source filename +:+ ": is a directory"))
  | None =>
      inr ("post Read error: "
           +:+ ("open " +:+ post_source filename
                +:+ ": no such file or directory"))
  end.

(** What [template.ParseFiles] returns for the files of a layout in the
    file system [m]. *)
Definition loaded_templates (m : gmap string node) (l : layout)
  : outcome (option Template * option error) :=
  (template_ParseFiles Template template_Parse (layout_files l)
     (mkWorld m [])).1.

(** What executing [tpl] on [data] writes. *)
Definition rendered (tpl : Template) (data : TemplateData) : string :=
  (template_Execute tpl data).1.

(** The file system [m] with the page of every post of [postsData]
    written, in that order. *)
Definition with_post_pages (tpl : Template) (postsData : list PostData)
    (m : gmap string node) : gmap string node :=
  foldl (λ m post,
           <[post_page (Slug (Metadata post)):=
               File (rendered tpl (DataPost post))]> m)
    m postsData.

(** The file system a build that succeeds leaves, from the file system
    [m] it starts in: the output directory recreated, the stylesheet with
    the bytes [c], the page of every post, the index page and the about
    page. *)
Definition built_site (c : string) (tplP tplI tplA : Template)
    (sorted : list PostData) (m : gmap string node) : gmap string node :=
  <["public/about.html":=
      File (rendered tplA (DataAbout "about" "About me"))]>
    (<["public/index.html":=
         File (rendered tplI (DataIndex (mkIndexData sorted "index")))]>
       (with_post_pages tplP sorted
          (<["public/style.css":=File c]> (setup_fs m)))).
End LoadSpec.

(** What rendering the pages of [postsData] does, post by post: the page
    is created, the template executed on the post, the output written. *)
Definition page_events (postsData : list PostData) : list event :=
  post ← postsData;
  [EvCreate (post_page (Slug (Metadata post)));
   EvExecute (post_page (Slug (Metadata post))) (DataPost post);
   EvWrite (post_page (Slug (Metadata post)))].

(** The entries of the output directory after a build that found the
    post sources [filenames]. *)
Definition output_entries (filenames : list string) : list string :=
  ["public"; "public/posts"; "public/style.css"; "public/index.html";
   "public/about.html"] ++ (post_page ∘ slug_of <$> filenames).

(** What a computation adds to the file system: every entry of [w'] was
    there in [w] or is one of the paths [A]. *)
Definition adds (A : string → Prop) (w w' : World) : Prop :=
  ∀ k, is_Some (fs w' !! k) → is_Some (fs w !! k) ∨ A k.

(** An event other than a line on standard error. *)
Definition silent (e : event) : Prop :=
  match e with EvLog _ => False | _ => True end.

(** How a run that started with the trace [t] ended: a run that returns or
    panics has logged nothing; a run that exits has status 1 and its one
    log line is the last thing it did. *)
Definition ends_properly {A} (t : list event) (r : outcome A * World) : Prop :=
  match r.1 with
  | Exit c =>
      c = 1%Z ∧ ∃ evs msg, trace r.2 = t ++ evs ++ [EvLog msg]
                           ∧ Forall silent evs
  | _ => ∃ evs, trace r.2 = t ++ evs ∧ Forall silent evs
  end.

(** A site source without posts, and a file system to copy files in. *)
Definition no_posts_world : World :=
  mkWorld (list_to_map
             [("static", Dir); ("static/style.css", File "body{}");
              ("template", Dir); ("template/post.html", File "P");
              ("template/index.html", File "I");
              ("template/about.html", File "A");
              ("template/header.html", File "H");
              ("template/footer.html", File "F")]) [].

(** Three records, the second with a slug that names a directory that is
    not there, and the sample site with its output directory recreated. *)
Definition posts_bad_slug : list PostData :=
  [sample_post "a" jan1; sample_post "x/y" feb1; sample_post "b" mar1].

Definition recreated_world : World := mkWorld (setup_fs sample_fs) [].

(** A site whose second post has a directory in its place. *)
Definition unreadable_post_world : World :=
  mkWorld (<["posts/second.md":=Dir]> sample_fs) [].

(** ** Specification vocabulary for the front matter *)

(** The lines of [s], each with its newline; the last one has none when
    [s] does not end in one. *)
Fixpoint lines (s : string) : list string :=
  match s with
  | EmptyString => []
  | String c s' =>
      if Ascii.eqb c frontmatter.newline
      then String c EmptyString :: lines s'
      else match lines s' with
           | [] => [String c EmptyString]
           | l :: ls => String c l :: ls
           end
  end.

(** [l] ends in a newline. *)
Fixpoint terminated (l : string) : bool :=
  match l with
  | EmptyString => false
  | String c EmptyString => Ascii.eqb c frontmatter.newline
  | String _ l' => terminated l'
  end.

(** The text of the lines [ls]. *)
Definition unlines (ls : list string) : string := foldr String.append "" ls.

Section FrontMatterSpec.
Variable TrimSpace : string → string.

(** The front matter as the spec has it, a delimited header at the top of
    the file. Its opening: after empty lines only, a line that is the
    start delimiter of a format; the result is the format, the empty
    lines, the opening line and the lines behind it. *)
Fixpoint opening (ls : list string)
  : option (frontmatter.Format * string * string * list string) :=
  match ls with
  | [] => None
  | l :: ls' =>
      if terminated l then
        if String.eqb (TrimSpace l) "" then
          '(f, blanks, o, rest) ← opening ls'; Some (f, l +:+ blanks, o, rest)
        else
          f ← List.find (λ f, String.eqb (frontmatter.Start f) (TrimSpace l))
                 frontmatter.defaultFormats;
          Some (f, "", l, ls')
      else None
  end.

(** Its closing: the first line behind the opening that is the end
    delimiter of the format and, where the format asks for it, has an
    empty line or nothing behind it; the result is the text before that
    line, the line (with the empty line), and the lines behind. *)
Fixpoint closing (f : frontmatter.Format) (ls : list string)
  : option (string * string * list string) :=
  match ls with
  | [] => None
  | l :: ls' =>
      let further :=
        if terminated l then
          '(body, c, rest) ← closing f ls'; Some (l +:+ body, c, rest)
        else None in
      if String.eqb (TrimSpace l) (frontmatter.End f) then
        if frontmatter.RequiresNewLine f then
          match ls' with
          | [] => Some ("", l, [])
          | l2 :: ls'' =>
              if String.eqb (TrimSpace l2) "" then Some ("", l +:+ l2, ls'')
              else further
          end
        else Some ("", l, ls')
      else further
  end.

(** The leading block of an input: its format, the text handed to the
    decoder (between the delimiters, or with them where the format says
    so) and the text behind the block. *)
Definition leading_block (input : string)
  : option (frontmatter.Format * string * string) :=
  '(f, blanks, o, ls) ← opening (lines input);
  '(body, c, rest) ← closing f ls;
  Some (f,
        if frontmatter.UnmarshalDelims f then o +:+ body +:+ c else body,
        unlines rest).

(** What [extract] comes to for the format [f], when [out] has been read,
    the front matter starts at [s0] in it and the lines [ls] are still to
    be read. *)
Definition extraction (decode : frontmatter.syntax → string → PostMetadata + error)
    (f : frontmatter.Format) (s0 : nat) (out : string) (ls : list string)
  : frontmatter.extracted :=
  match closing f ls with
  | None =>
      frontmatter.NotFound
        (frontmatter.mkParser "" (out +:+ unlines ls)
           (String.length (out +:+ unlines ls)) s0)
  | Some (body, c, rest) =>
      let out' := out +:+ body +:+ c in
      let read0 := if frontmatter.UnmarshalDelims f then String.length out'
                   else String.length (out +:+ body) in
      match decode (frontmatter.Unmarshal f)
              (String.substring s0 (read0 - s0) out') with
      | inr err => frontmatter.Failed err
      | inl meta =>
          frontmatter.Found meta
            (frontmatter.mkParser (unlines rest) "" (String.length out') s0)
      end
  end.
End FrontMatterSpec.

(** [strings.TrimSpace] on text without spaces beyond ASCII, and decoders
    for the samples: a block decodes to its text as the title, unless it
    starts with [!]. *)
Definition ascii_space (c : ascii) : bool :=
  let n := nat_of_ascii c in
  bool_decide (n = 9 ∨ n = 10 ∨ n = 11 ∨ n = 12 ∨ n = 13 ∨ n = 32).

Fixpoint trim_left (s : string) : string :=
  match s with
  | String c s' => if ascii_space c then trim_left s' else s
  | EmptyString => EmptyString
  end.

Fixpoint trim_right (s : string) : string :=
  match s with
  | String c s' =>
      match trim_right s' with
      | EmptyString => if ascii_space c then EmptyString else String c EmptyString
      | t => String c t
      end
  | EmptyString => EmptyString
  end.

Definition ascii_TrimSpace (s : string) : string := trim_right (trim_left s).

Definition toy_decode (_ : frontmatter.syntax) (block : string)
  : PostMetadata + error :=
  if String.prefix "!" block then inr "toml: bad key"
  else inl (mkPostMetadata "" block "" zero_Time "" []).

Definition toy_split : string → (string * PostMetadata) + error :=
  frontmatter.Parse ascii_TrimSpace toy_decode.

Definition nl : string := String frontmatter.newline EmptyString.

(** A post with its front matter, one whose block does not decode, and
    one whose block is not closed. *)
Definition post_text : string :=
  "+++" +:+ nl +:+ "title = x" +:+ nl +:+ "+++" +:+ nl +:+ "# Hi" +:+ nl.

Definition post_text_bad_block : string :=
  "+++" +:+ nl +:+ "!title = x" +:+ nl +:+ "+++" +:+ nl +:+ "# Hi" +:+ nl.

Definition post_text_unclosed : string :=
  "+++" +:+ nl +:+ "title = x" +:+ nl +:+ "# Hi" +:+ nl.

(** [lia] with division and remainder by constants. *)
Ltac Zify.zify_post_hook ::= Z.to_euclidean_division_equations.

(** Close a lookup goal with a hypothesis whose index is equal by arithmetic. *)
Ltac lookup_lia :=
  match goal with
  | H : ?l !! ?i = ?v |- ?l !! ?j = ?v => replace j with i by lia; exact H
  end.

(** Unfold the state-and-outcome monad of the process. *)
Ltac run_unfold :=
  unfold mbind, M_bind, bind, mret, M_ret, ret, emit, get_fs, put_fs, panic,
    log_Fatal; cbn [fs trace fst snd].

(** One step of the option monad, leaving arithmetic as it is written. *)
Ltac obind := cbn [mbind option_bind fmap option_fmap option_map fst snd].

Section SortProofs.
Context {A : Type}.
Variable less : A → A → bool.
Variable xorshift_Next : N → N.
Hypothesis SW : strict_weak less.

Abbreviation Less := (GoSort.Less less).
Abbreviation Swap := (@GoSort.Swap A).
Abbreviation seg_perm := (@seg_perm A).
Abbreviation sorted_seg := (sorted_seg less).
Abbreviation adj_ok := (adj_ok less).
Abbreviation lower_bound := (lower_bound less).
Abbreviation left_bounded := (left_bounded less).
Abbreviation heap_at := (heap_at less).

Lemma less_asym x y : less x y = true → less y x = false.
Proof.
  intros Hxy. destruct (less y x) eqn:Hyx; [|done].
  pose proof (sw_trans _ SW _ _ _ Hxy Hyx) as Hxx.
  rewrite (sw_irrefl _ SW) in Hxx. done.
Qed.

Lemma less_trans_r x y z : less x y = true → less z y = false → less x z = true.
Proof.
  intros Hxy Hzy. destruct (less x z) eqn:Hxz; [done|].
  rewrite (sw_negtrans _ SW _ _ _ Hxz Hzy) in Hxy. done.
Qed.

Lemma less_trans_l x y z : less y x = false → less y z = true → less x z = true.
Proof.
  intros Hyx Hyz. destruct (less x z) eqn:Hxz; [done|].
  rewrite (sw_negtrans _ SW _ _ _ Hyx Hxz) in Hyz. done.
Qed.

(** *** Reading and exchanging *)

Lemma Less_Some (l : list A) i j x y :
  l !! i = Some x → l !! j = Some y → Less l i j = Some (less x y).
Proof. intros Hi Hj. unfold GoSort.Less. rewrite Hi, Hj. done. Qed.

Lemma Less_lt (l : list A) i j :
  i < length l → j < length l →
  ∃ x y, l !! i = Some x ∧ l !! j = Some y ∧ Less l i j = Some (less x y).
Proof.
  intros Hi Hj.
  destruct (lookup_lt_is_Some_2 l i Hi) as [x Hx].
  destruct (lookup_lt_is_Some_2 l j Hj) as [y Hy].
  exists x, y. split_and!; [done..|]. by apply Less_Some.
Qed.

Lemma Swap_Some (l : list A) i j x y :
  l !! i = Some x → l !! j = Some y →
  Swap l i j = Some (<[i:=y]> (<[j:=x]> l)).
Proof. intros Hi Hj. unfold GoSort.Swap. rewrite Hi, Hj. done. Qed.

Lemma swap_lookup (l : list A) i j x y k :
  l !! i = Some x → l !! j = Some y →
  <[i:=y]> (<[j:=x]> l) !! k =
    if decide (k = i) then Some y
    else if decide (k = j) then Some x else l !! k.
Proof.
  intros Hi Hj.
  assert (i < length l) by (by eapply lookup_lt_Some).
  assert (j < length l) by (by eapply lookup_lt_Some).
  destruct (decide (k = i)) as [->|].
  - rewrite list_lookup_insert_eq; [done|]. by rewrite length_insert.
  - rewrite list_lookup_insert_ne by done.
    destruct (decide (k = j)) as [->|].
    + by rewrite list_lookup_insert_eq.
    + by rewrite list_lookup_insert_ne.
Qed.

Lemma swap_Permutation (l : list A) i j x y :
  l !! i = Some x → l !! j = Some y →
  l ≡ₚ <[i:=y]> (<[j:=x]> l).
Proof. intros Hi Hj. symmetry. by apply Permutation_insert_swap. Qed.

(** *** Rearrangements of a range *)

Lemma seg_perm_refl a b (l : list A) : seg_perm a b l l.
Proof. split_and!; [done|done| |done]. intros k y ? ?. by exists k. Qed.

Lemma seg_perm_trans a b (l1 l2 l3 : list A) :
  seg_perm a b l1 l2 → seg_perm a b l2 l3 → seg_perm a b l1 l3.
Proof.
  intros (Hl1 & Ho1 & Hi1 & Hp1) (Hl2 & Ho2 & Hi2 & Hp2).
  split_and!.
  - congruence.
  - intros k Hk. rewrite Ho2, Ho1; done.
  - intros k y Hk Hy. destruct (Hi2 k y Hk Hy) as (k' & Hk' & Hy'). eauto.
  - by etrans.
Qed.

Lemma seg_perm_mono a b a' b' (l l' : list A) :
  a' ≤ a → b ≤ b' → seg_perm a b l l' → seg_perm a' b' l l'.
Proof.
  intros Ha Hb (Hl & Ho & Hi & Hp). split_and!; [done| | |done].
  - intros k Hk. apply Ho. lia.
  - intros k y Hk Hy. destruct (decide (a ≤ k < b)) as [Hin|Hout].
    + destruct (Hi k y Hin Hy) as (k' & ? & ?). exists k'. split; [lia|done].
    + exists k. split; [done|]. rewrite <-Ho; [done|lia].
Qed.

Lemma seg_perm_length a b (l l' : list A) :
  seg_perm a b l l' → length l' = length l.
Proof. by intros (? & _). Qed.

Lemma seg_perm_outside a b (l l' : list A) k :
  seg_perm a b l l' → k < a ∨ b ≤ k → l' !! k = l !! k.
Proof. intros (_ & Ho & _) ?. by apply Ho. Qed.

Lemma seg_perm_Permutation a b (l l' : list A) : seg_perm a b l l' → l ≡ₚ l'.
Proof. by intros (_ & _ & _ & ?). Qed.

Lemma seg_perm_origin a b (l l' : list A) k y :
  seg_perm a b l l' → a ≤ k < b → l' !! k = Some y →
  ∃ k', a ≤ k' < b ∧ l !! k' = Some y.
Proof. intros (_ & _ & Hi & _). apply Hi. Qed.

Lemma Swap_spec (l : list A) a b i j :
  a ≤ i < b → a ≤ j < b → b ≤ length l →
  ∃ x y, l !! i = Some x ∧ l !! j = Some y
    ∧ Swap l i j = Some (<[i:=y]> (<[j:=x]> l))
    ∧ seg_perm a b l (<[i:=y]> (<[j:=x]> l)).
Proof.
  intros Hi Hj Hb.
  destruct (lookup_lt_is_Some_2 l i) as [x Hx]; [lia|].
  destruct (lookup_lt_is_Some_2 l j) as [y Hy]; [lia|].
  exists x, y. split_and!; [done|done|by apply Swap_Some|].
  split_and!.
  - by rewrite !length_insert.
  - intros k Hk. rewrite (swap_lookup l i j x y) by done.
    repeat case_decide; [lia..|done].
  - intros k z Hk. rewrite (swap_lookup l i j x y) by done.
    repeat case_decide; intros; simplify_eq; eauto.
  - by apply swap_Permutation.
Qed.

Lemma lower_bound_seg_perm a b (l l' : list A) x :
  seg_perm a b l l' → lower_bound l a b x → lower_bound l' a b x.
Proof.
  intros Hp Hlb k y Hk Hy.
  destruct (seg_perm_origin _ _ _ _ _ _ Hp Hk Hy) as (k' & ? & ?). eauto.
Qed.

Lemma left_bounded_seg_perm a b (l l' : list A) :
  seg_perm a b l l' → left_bounded l a b → left_bounded l' a b.
Proof.
  intros Hp Hlb x Ha Hx. eapply lower_bound_seg_perm; [done|].
  apply Hlb; [done|]. rewrite <-(seg_perm_outside _ _ _ _ _ Hp); [done|lia].
Qed.

Lemma left_bounded_sub a b a' b' (l : list A) :
  a' = a → b' ≤ b → left_bounded l a b → left_bounded l a' b'.
Proof.
  intros -> Hb Hlb x Ha Hx k y Hk Hy. eapply Hlb; [done..| |done]. lia.
Qed.

(** *** Sortedness from neighbours *)

Lemma sorted_seg_adj (l : list A) a b :
  b ≤ length l →
  (∀ i, a ≤ i → S i < b → adj_ok l i) → sorted_seg l a b.
Proof.
  intros Hb Hadj i j x y Hai Hij Hjb Hx Hy.
  revert y Hjb Hy. induction Hij as [|j Hij IH]; intros y Hjb Hy.
  - by eapply (Hadj i); [lia..| |].
  - destruct (lookup_lt_is_Some_2 l j) as [z Hz]; [lia|].
    eapply (sw_negtrans _ SW); [|apply (IH z); [lia|done]].
    eapply (Hadj j); [lia..|done|done].
Qed.

Lemma sorted_seg_adj_ok (l : list A) a b i :
  sorted_seg l a b → a ≤ i → S i < b → adj_ok l i.
Proof. intros Hs ? ? x y Hx Hy. eapply (Hs i (S i)); [lia..|done|done]. Qed.

Lemma sorted_seg_small (l : list A) a b : b ≤ S a → sorted_seg l a b.
Proof. intros ? i j ? ? ? ? ?. lia. Qed.

Lemma sorted_seg_sub (l : list A) a b a' b' :
  a ≤ a' → b' ≤ b → sorted_seg l a b → sorted_seg l a' b'.
Proof. intros ? ? Hs i j x y ? ? ?. apply Hs; lia. Qed.

Lemma sorted_seg_ext (l l' : list A) a b :
  (∀ k, a ≤ k < b → l' !! k = l !! k) → sorted_seg l a b → sorted_seg l' a b.
Proof.
  intros Heq Hs i j x y ? ? ? Hx Hy.
  rewrite Heq in Hx, Hy by lia. by eapply (Hs i j).
Qed.

(** *** Insertion sort *)

Lemma insertion_shift_spec j : ∀ (l : list A) a J,
  a ≤ j → j ≤ J → J < length l →
  (∀ i, a ≤ i → S i ≤ J → S i ≠ j → adj_ok l i) →
  (a < j → j < J → ∀ x y,
     l !! (j - 1) = Some x → l !! S j = Some y → less y x = false) →
  ∃ l', GoSort.insertion_shift less a j l = Some l'
    ∧ seg_perm a (S J) l l'
    ∧ (∀ i, a ≤ i → S i ≤ J → adj_ok l' i).
Proof.
  induction j as [|j IH]; intros l a J Haj HjJ HJ Hadj Hskip.
  - exists l. split_and!; [done|apply seg_perm_refl|].
    intros i ? ?. apply Hadj; lia.
  - simpl in *. rewrite Nat.sub_0_r in Hskip. case_decide as Hlt.
    2:{ exists l. split_and!; [done|apply seg_perm_refl|].
        intros i ? ?. apply Hadj; lia. }
    destruct (Swap_spec l a (S J) (S j) j) as (x & y & Hx & Hy & HS & Hp);
      [lia..|].
    rewrite (Less_Some l (S j) j x y) by done. simpl.
    destruct (less x y) eqn:Hxy.
    + rewrite HS. simpl.
      destruct (IH (<[S j:=y]> (<[j:=x]> l)) a J) as (l' & Hl' & Hp' & Hadj').
      * lia.
      * lia.
      * by rewrite !length_insert.
      * intros i Hai HiJ Hne u v.
        rewrite !(swap_lookup l (S j) j x y) by done.
        repeat case_decide; try lia; intros; simplify_eq;
          first [ by apply less_asym
                | by eapply Hskip; [lia..| |]
                | by eapply (Hadj i); [lia..| |] ].
      * intros Ha' HJ' u v.
        rewrite !(swap_lookup l (S j) j x y) by done.
        repeat case_decide; try lia; intros; simplify_eq.
        eapply (Hadj (j - 1)); [lia..|done|].
        by replace (S (j - 1)) with j by lia.
      * exists l'. split_and!; [done| |done].
        eapply seg_perm_trans; done.
    + exists l. split_and!; [done|apply seg_perm_refl|].
      intros i ? ?. destruct (decide (S i = S j)) as [Heq|Hne].
      * simplify_eq. intros u v ? ?. by simplify_eq.
      * by apply Hadj.
Qed.

Lemma insertion_for_spec n : ∀ (l : list A) a b i,
  a < i → i + n = b → b ≤ length l → sorted_seg l a i →
  ∃ l', for_up n i (GoSort.insertion_shift less a) l = Some l'
    ∧ seg_perm a b l l' ∧ sorted_seg l' a b.
Proof.
  induction n as [|n IH]; intros l a b i Hai Hn Hb Hs.
  - exists l. split_and!; [done|apply seg_perm_refl|].
    by replace b with i by lia.
  - simpl.
    destruct (insertion_shift_spec i l a i) as (l1 & Hl1 & Hp1 & Hadj1);
      [lia..| |lia|].
    { intros k ? ? ?. eapply sorted_seg_adj_ok; [done|lia..]. }
    rewrite Hl1. simpl.
    destruct (IH l1 a b (S i)) as (l2 & Hl2 & Hp2 & Hs2); [lia..| | |].
    { rewrite (seg_perm_length _ _ _ _ Hp1). lia. }
    { apply sorted_seg_adj.
      - rewrite (seg_perm_length _ _ _ _ Hp1). lia.
      - intros k ? ?. apply Hadj1; lia. }
    exists l2. split_and!; [done| |done].
    eapply seg_perm_trans; [|done].
    eapply seg_perm_mono; [| |done]; lia.
Qed.

Lemma insertionSort_spec (l : list A) a b :
  a ≤ b → b ≤ length l →
  ∃ l', GoSort.insertionSort_func less l a b = Some l'
    ∧ seg_perm a b l l' ∧ sorted_seg l' a b.
Proof.
  intros Hab Hb. unfold GoSort.insertionSort_func.
  destruct (decide (b ≤ a + 1)) as [Hsmall|Hbig].
  - replace (b - (a + 1)) with 0 by lia.
    exists l. split_and!; [done|apply seg_perm_refl|].
    apply sorted_seg_small. lia.
  - apply insertion_for_spec; [lia..|]. apply sorted_seg_small. lia.
Qed.

(** *** The scanning loops *)

Lemma skip_up_spec fuel : ∀ (p : nat → option bool) i j,
  (∀ k, i ≤ k ≤ j → is_Some (p k)) → S j - i < fuel →
  ∃ i', skip_up fuel p i j = Some i'
    ∧ i ≤ i' ∧ (i ≤ S j → i' ≤ S j)
    ∧ (∀ k, i ≤ k < i' → p k = Some true)
    ∧ (i' ≤ j → p i' = Some false).
Proof.
  induction fuel as [|fuel IH]; intros p i j Hp Hf; [lia|].
  simpl. case_decide as Hij.
  2:{ exists i. split_and!; [done|lia..]. }
  destruct (Hp i) as [c Hc]; [lia|]. rewrite Hc. simpl.
  destruct c.
  - destruct (IH p (S i) j) as (i' & Hi' & ? & ? & Ht & Hs); [|lia|].
    { intros k ?. apply Hp. lia. }
    exists i'. split_and!; [done|lia|lia| |done].
    intros k ?. destruct (decide (k = i)) as [->|]; [done|]. apply Ht. lia.
  - exists i. split_and!; [done|lia|lia| |done]. intros k ?. lia.
Qed.

Lemma skip_down_spec fuel : ∀ (p : nat → option bool) i j,
  0 < i → (∀ k, i ≤ k ≤ j → is_Some (p k)) → S j - i < fuel →
  ∃ j', skip_down fuel p i j = Some j'
    ∧ j' ≤ j ∧ (i ≤ S j → i ≤ S j')
    ∧ (∀ k, j' < k ≤ j → p k = Some true)
    ∧ (i ≤ j' → p j' = Some false).
Proof.
  induction fuel as [|fuel IH]; intros p i j H0 Hp Hf; [lia|].
  simpl. case_decide as Hij.
  2:{ exists j. split_and!; [done|lia..]. }
  destruct (Hp j) as [c Hc]; [lia|]. rewrite Hc. simpl.
  destruct c.
  - destruct (IH p i (j - 1)) as (j' & Hj' & ? & ? & Ht & Hs); [done| |lia|].
    { intros k ?. apply Hp. lia. }
    exists j'. split_and!; [done|lia|lia| |done].
    intros k ?. destruct (decide (k = j)) as [->|]; [done|]. apply Ht. lia.
  - exists j. split_and!; [done|lia|lia| |done]. intros k ?. lia.
Qed.

Lemma Less_is_Some (l : list A) i j :
  i < length l → j < length l → is_Some (Less l i j).
Proof. intros Hi Hj. destruct (Less_lt l i j) as (x & y & _ & _ & ->); eauto. Qed.

Lemma Less_inv (l : list A) i j c x y :
  Less l i j = Some c → l !! i = Some x → l !! j = Some y → less x y = c.
Proof. intros H Hx Hy. rewrite (Less_Some l i j x y) in H by done. congruence. Qed.

Lemma negb_Less_is_Some (l : list A) i j :
  i < length l → j < length l → is_Some (negb <$> Less l i j).
Proof. intros Hi Hj. destruct (Less_lt l i j) as (x & y & _ & _ & ->); eauto. Qed.

Lemma negb_Less_inv (l : list A) i j c x y :
  negb <$> Less l i j = Some c → l !! i = Some x → l !! j = Some y →
  less x y = negb c.
Proof.
  intros H Hx Hy. rewrite (Less_Some l i j x y) in H by done.
  simpl in H. simplify_eq. by rewrite negb_involutive.
Qed.

(** *** Partition around a pivot *)

Local Arguments skip_up : simpl never.
Local Arguments skip_down : simpl never.

Lemma partition_loop_spec fuel : ∀ (l : list A) a b i j p,
  l !! a = Some p → a < i → i ≤ S j → j < b → b ≤ length l →
  S j - i < fuel →
  (∀ k x, a < k < i → l !! k = Some x → less x p = true) →
  (∀ k x, j < k < b → l !! k = Some x → less x p = false) →
  ∃ l' j', GoSort.partition_loop less fuel l a i j = Some (l', S j', j')
    ∧ seg_perm (S a) b l l' ∧ a ≤ j' < b
    ∧ (∀ k x, a < k ≤ j' → l' !! k = Some x → less x p = true)
    ∧ (∀ k x, j' < k < b → l' !! k = Some x → less x p = false).
Proof.
  induction fuel as [|fuel IH]; intros l a b i j p Hp Hai Hij Hjb Hb Hf Hlo Hhi;
    [lia|].
  simpl.
  destruct (skip_up_spec (S (length l)) (λ k, Less l k a) i j)
    as (i1 & -> & Hi1 & Hi1' & Hi1t & Hi1f); [|lia|].
  { intros k ?. apply Less_is_Some; lia. }
  simpl.
  destruct (skip_down_spec (S (length l)) (λ k, negb <$> Less l k a) i1 j)
    as (j1 & -> & Hj1 & Hj1' & Hj1t & Hj1f); [lia| |lia|].
  { intros k ?. apply negb_Less_is_Some; lia. }
  simpl.
  assert (Hlo1 : ∀ k x, a < k < i1 → l !! k = Some x → less x p = true).
  { intros k x Hk Hx. destruct (decide (k < i)); [apply (Hlo k); [lia|done]|].
    apply (Less_inv l k a true x p); [apply Hi1t; lia|done|done]. }
  assert (Hhi1 : ∀ k x, j1 < k < b → l !! k = Some x → less x p = false).
  { intros k x Hk Hx. destruct (decide (j < k)); [apply (Hhi k); [lia|done]|].
    rewrite (negb_Less_inv l k a true x p); [done|apply Hj1t; lia|done|done]. }
  case_decide as Hji.
  - assert (i1 = S j1) as -> by lia.
    exists l, j1. split_and!; [done|apply seg_perm_refl|lia|lia| |done].
    intros k x ?. apply Hlo1. lia.
  - destruct (Swap_spec l (S a) b i1 j1) as (x & y & Hx & Hy & -> & Hsp);
      [lia..|].
    simpl.
    assert (less x p = false) as Hxp.
    { apply (Less_inv l i1 a false x p); [apply Hi1f; lia|done|done]. }
    assert (less y p = true) as Hyp.
    { rewrite (negb_Less_inv l j1 a false y p); [done|apply Hj1f; lia|done|done]. }
    assert (i1 ≠ j1) as Hne by (intros ->; congruence).
    destruct (IH (<[i1:=y]> (<[j1:=x]> l)) a b (i1 + 1) (j1 - 1) p)
      as (l' & j' & Hl' & Hsp' & Hj' & Hlo' & Hhi').
    + rewrite (swap_lookup l i1 j1 x y) by done.
      repeat case_decide; try lia; done.
    + lia.
    + lia.
    + lia.
    + by rewrite !length_insert.
    + lia.
    + intros k z Hk. rewrite (swap_lookup l i1 j1 x y) by done.
      repeat case_decide; try lia; intros; simplify_eq; [done|].
      apply (Hlo1 k); [lia|done].
    + intros k z Hk. rewrite (swap_lookup l i1 j1 x y) by done.
      repeat case_decide; try lia; intros; simplify_eq; [done|].
      apply (Hhi1 k); [lia|done].
    + exists l', j'. split_and!; [done| |lia|lia|done|done].
      eapply seg_perm_trans; done.
Qed.

Local Arguments GoSort.partition_loop : simpl never.

Lemma partition_finish (l : list A) a b j p :
  l !! a = Some p → a ≤ j < b → b ≤ length l →
  (∀ k x, a < k ≤ j → l !! k = Some x → less x p = true) →
  (∀ k x, j < k < b → l !! k = Some x → less x p = false) →
  ∃ l', Swap l j a = Some l' ∧ seg_perm a b l l' ∧ l' !! j = Some p
    ∧ (∀ k x, a ≤ k < j → l' !! k = Some x → less x p = true)
    ∧ (∀ k x, j < k < b → l' !! k = Some x → less x p = false).
Proof.
  intros Hp Hj Hb Hlo Hhi.
  destruct (Swap_spec l a b j a) as (q & p' & Hq & Hp' & -> & Hsp); [lia..|].
  simplify_eq. eexists. split_and!; [done|done| | |].
  - rewrite (swap_lookup l j a q p) by done. by rewrite decide_True.
  - intros k x Hk. rewrite (swap_lookup l j a q p) by done.
    repeat case_decide; try lia; intros; simplify_eq.
    + apply (Hlo j); [lia|done].
    + apply (Hlo k); [lia|done].
  - intros k x Hk. rewrite (swap_lookup l j a q p) by done.
    repeat case_decide; try lia; intros; simplify_eq.
    apply (Hhi k); [lia|done].
Qed.

Lemma partition_func_spec (l : list A) a b pivot :
  a ≤ pivot < b → b ≤ length l →
  ∃ l' mid ap p,
    GoSort.partition_func less l a b pivot = Some (l', mid, ap)
    ∧ seg_perm a b l l' ∧ a ≤ mid < b ∧ l' !! mid = Some p
    ∧ (∀ k x, a ≤ k < mid → l' !! k = Some x → less x p = true)
    ∧ (∀ k x, mid < k < b → l' !! k = Some x → less x p = false).
Proof.
  intros Hpiv Hb. unfold GoSort.partition_func.
  destruct (Swap_spec l a b a pivot) as (x & p & Hx & Hp & -> & Hsp0); [lia..|].
  simpl. set (l1 := <[a:=p]> (<[pivot:=x]> l)) in *.
  assert (Hl1 : length l1 = length l) by (by apply seg_perm_length in Hsp0).
  assert (Hp1 : l1 !! a = Some p).
  { unfold l1. rewrite (swap_lookup l a pivot x p) by done.
    by rewrite decide_True. }
  destruct (skip_up_spec (S (length l1)) (λ k, Less l1 k a) (a + 1) (b - 1))
    as (i1 & -> & Hi1 & Hi1' & Hi1t & Hi1f); [|lia|].
  { intros k ?. apply Less_is_Some; lia. }
  simpl.
  destruct (skip_down_spec (S (length l1)) (λ k, negb <$> Less l1 k a) i1 (b - 1))
    as (j1 & -> & Hj1 & Hj1' & Hj1t & Hj1f); [lia| |lia|].
  { intros k ?. apply negb_Less_is_Some; lia. }
  simpl.
  assert (Hlo1 : ∀ k x, a < k < i1 → l1 !! k = Some x → less x p = true).
  { intros k z Hk Hz.
    apply (Less_inv l1 k a true z p); [apply Hi1t; lia|done|done]. }
  assert (Hhi1 : ∀ k x, j1 < k < b → l1 !! k = Some x → less x p = false).
  { intros k z Hk Hz.
    rewrite (negb_Less_inv l1 k a true z p); [done|apply Hj1t; lia|done|done]. }
  case_decide as Hji.
  - assert (i1 = S j1) as -> by lia.
    destruct (partition_finish l1 a b j1 p) as (l' & -> & Hsp & Hmid & Hlo & Hhi);
      [done|lia|lia| |done|].
    { intros k z ?. apply Hlo1. lia. }
    simpl. exists l', j1, true, p.
    split_and!; [done| |lia|lia|done..]. by eapply seg_perm_trans.
  - destruct (Swap_spec l1 (S a) b i1 j1) as (u & v & Hu & Hv & -> & Hsp1);
      [lia..|].
    simpl. rewrite !length_insert.
    assert (less u p = false) as Hup.
    { apply (Less_inv l1 i1 a false u p); [apply Hi1f; lia|done|done]. }
    assert (less v p = true) as Hvp.
    { rewrite (negb_Less_inv l1 j1 a false v p);
        [done|apply Hj1f; lia|done|done]. }
    assert (i1 ≠ j1) as Hne by (intros ->; congruence).
    destruct (partition_loop_spec (S (length l1)) (<[i1:=v]> (<[j1:=u]> l1))
                a b (i1 + 1) (j1 - 1) p)
      as (l2 & j2 & -> & Hsp2 & Hj2 & Hlo2 & Hhi2).
    + rewrite (swap_lookup l1 i1 j1 u v) by done.
      repeat case_decide; try lia; done.
    + lia.
    + lia.
    + lia.
    + by rewrite !length_insert, Hl1.
    + lia.
    + intros k z Hk. rewrite (swap_lookup l1 i1 j1 u v) by done.
      repeat case_decide; try lia; intros; simplify_eq; [done|].
      apply (Hlo1 k); [lia|done].
    + intros k z Hk. rewrite (swap_lookup l1 i1 j1 u v) by done.
      repeat case_decide; try lia; intros; simplify_eq; [done|].
      apply (Hhi1 k); [lia|done].
    + simpl.
      assert (Hsp12 : seg_perm a b l l2).
      { eapply seg_perm_trans; [done|].
        eapply seg_perm_mono; [| |eapply seg_perm_trans; done]; lia. }
      destruct (partition_finish l2 a b j2 p)
        as (l' & -> & Hsp & Hmid & Hlo & Hhi); [|lia| |done|done|].
      { rewrite (seg_perm_outside (S a) b (<[i1:=v]> (<[j1:=u]> l1)) l2)
          by (done || lia).
        rewrite (swap_lookup l1 i1 j1 u v) by done.
        repeat case_decide; try lia; done. }
      { rewrite (seg_perm_length _ _ _ _ Hsp12). lia. }
      simpl. exists l', j2, false, p.
      split_and!; [done| |lia|lia|done..]. by eapply seg_perm_trans.
Qed.

(** *** Partition into elements equal to and above the pivot *)

Lemma partitionEqual_loop_spec fuel : ∀ (l : list A) a b i j p,
  l !! a = Some p → a < i → i ≤ S j → j < b → b ≤ length l →
  S j - i < fuel →
  (∀ k x, a < k < i → l !! k = Some x → less p x = false) →
  (∀ k x, j < k < b → l !! k = Some x → less p x = true) →
  ∃ l' i', GoSort.partitionEqual_loop less fuel l a i j = Some (l', i')
    ∧ seg_perm (S a) b l l' ∧ a < i' ≤ b
    ∧ (∀ k x, a < k < i' → l' !! k = Some x → less p x = false)
    ∧ (∀ k x, i' ≤ k < b → l' !! k = Some x → less p x = true).
Proof.
  induction fuel as [|fuel IH]; intros l a b i j p Hp Hai Hij Hjb Hb Hf Hlo Hhi;
    [lia|].
  simpl.
  destruct (skip_up_spec (S (length l)) (λ k, negb <$> Less l a k) i j)
    as (i1 & -> & Hi1 & Hi1' & Hi1t & Hi1f); [|lia|].
  { intros k ?. apply negb_Less_is_Some; lia. }
  simpl.
  destruct (skip_down_spec (S (length l)) (λ k, Less l a k) i1 j)
    as (j1 & -> & Hj1 & Hj1' & Hj1t & Hj1f); [lia| |lia|].
  { intros k ?. apply Less_is_Some; lia. }
  simpl.
  assert (Hlo1 : ∀ k x, a < k < i1 → l !! k = Some x → less p x = false).
  { intros k x Hk Hx. destruct (decide (k < i)); [apply (Hlo k); [lia|done]|].
    rewrite (negb_Less_inv l a k true p x); [done|apply Hi1t; lia|done|done]. }
  assert (Hhi1 : ∀ k x, j1 < k < b → l !! k = Some x → less p x = true).
  { intros k x Hk Hx. destruct (decide (j < k)); [apply (Hhi k); [lia|done]|].
    apply (Less_inv l a k true p x); [apply Hj1t; lia|done|done]. }
  case_decide as Hji.
  - assert (i1 = S j1) as -> by lia.
    exists l, (S j1). split_and!; [done|apply seg_perm_refl|lia|lia|done|].
    intros k x ?. apply Hhi1. lia.
  - destruct (Swap_spec l (S a) b i1 j1) as (x & y & Hx & Hy & -> & Hsp);
      [lia..|].
    simpl.
    assert (less p x = true) as Hxp.
    { rewrite (negb_Less_inv l a i1 false p x);
        [done|apply Hi1f; lia|done|done]. }
    assert (less p y = false) as Hyp.
    { apply (Less_inv l a j1 false p y); [apply Hj1f; lia|done|done]. }
    assert (i1 ≠ j1) as Hne by (intros ->; congruence).
    destruct (IH (<[i1:=y]> (<[j1:=x]> l)) a b (i1 + 1) (j1 - 1) p)
      as (l' & i' & Hl' & Hsp' & Hi' & Hlo' & Hhi').
    + rewrite (swap_lookup l i1 j1 x y) by done.
      repeat case_decide; try lia; done.
    + lia.
    + lia.
    + lia.
    + by rewrite !length_insert.
    + lia.
    + intros k z Hk. rewrite (swap_lookup l i1 j1 x y) by done.
      repeat case_decide; try lia; intros; simplify_eq; [done|].
      apply (Hlo1 k); [lia|done].
    + intros k z Hk. rewrite (swap_lookup l i1 j1 x y) by done.
      repeat case_decide; try lia; intros; simplify_eq; [done|].
      apply (Hhi1 k); [lia|done].
    + exists l', i'. split_and!; [done| |lia|lia|done|done].
      eapply seg_perm_trans; done.
Qed.

Local Arguments GoSort.partitionEqual_loop : simpl never.

Lemma partitionEqual_func_spec (l : list A) a b pivot :
  a ≤ pivot < b → b ≤ length l →
  ∃ l' mid p,
    GoSort.partitionEqual_func less l a b pivot = Some (l', mid)
    ∧ seg_perm a b l l' ∧ a < mid ≤ b ∧ l !! pivot = Some p
    ∧ (∀ k x, a ≤ k < mid → l' !! k = Some x → less p x = false)
    ∧ (∀ k x, mid ≤ k < b → l' !! k = Some x → less p x = true).
Proof.
  intros Hpiv Hb. unfold GoSort.partitionEqual_func.
  destruct (Swap_spec l a b a pivot) as (x & p & Hx & Hp & -> & Hsp0); [lia..|].
  simpl. rewrite !length_insert.
  set (l1 := <[a:=p]> (<[pivot:=x]> l)) in *.
  assert (Hl1 : length l1 = length l) by (by apply seg_perm_length in Hsp0).
  assert (Hp1 : l1 !! a = Some p).
  { unfold l1. rewrite (swap_lookup l a pivot x p) by done.
    by rewrite decide_True. }
  destruct (partitionEqual_loop_spec (S (length l)) l1 a b (a + 1) (b - 1) p)
    as (l' & mid & -> & Hsp & Hmid & Hlo & Hhi); [done|lia..| | |].
  { intros k z ?. lia. }
  { intros k z ?. lia. }
  exists l', mid, p. split_and!; [done| |lia|lia|done| |done].
  - eapply seg_perm_trans; [done|]. eapply seg_perm_mono; [| |done]; lia.
  - intros k z Hk Hz. destruct (decide (k = a)) as [->|].
    + rewrite (seg_perm_outside (S a) b l1 l') in Hz by (done || lia).
      simplify_eq. apply (sw_irrefl _ SW).
    + apply (Hlo k); [lia|done].
Qed.

(** *** Pivot choice, reversal, pattern breaking *)

Lemma order2_func_spec (l : list A) a b swaps :
  a < length l → b < length l →
  ∃ x y s, GoSort.order2_func less l a b swaps = Some (x, y, s)
    ∧ ((x = a ∧ y = b) ∨ (x = b ∧ y = a)).
Proof.
  intros Ha Hb. unfold GoSort.order2_func.
  destruct (Less_is_Some l b a) as [c ->]; [done..|]. simpl.
  destruct c; eauto 10.
Qed.

Lemma median_func_spec (l : list A) a b c swaps :
  a < length l → b < length l → c < length l →
  ∃ m s, GoSort.median_func less l a b c swaps = Some (m, s)
    ∧ (m = a ∨ m = b ∨ m = c).
Proof.
  intros Ha Hb Hc. unfold GoSort.median_func.
  destruct (order2_func_spec l a b swaps) as (a1 & b1 & s1 & -> & H1); [done..|].
  simpl.
  destruct (order2_func_spec l b1 c s1) as (b2 & c2 & s2 & -> & H2);
    [lia..|].
  simpl.
  destruct (order2_func_spec l a1 b2 s2) as (a3 & b3 & s3 & -> & H3);
    [lia..|].
  simpl. exists b3, s3. split; [done|]. lia.
Qed.

Lemma choosePivot_func_spec (l : list A) a b :
  GoSort.maxInsertion < b - a → b ≤ length l →
  ∃ pivot hint, GoSort.choosePivot_func less l a b = Some (pivot, hint)
    ∧ a ≤ pivot < b.
Proof.
  unfold GoSort.maxInsertion, GoSort.choosePivot_func,
    GoSort.medianAdjacent_func, GoSort.shortestNinther.
  intros Hlen Hb.
  rewrite decide_True by lia.
  case_decide as Hn.
  - destruct (median_func_spec l (a + (b - a) / 4 * 1 - 1)
                (a + (b - a) / 4 * 1) (a + (b - a) / 4 * 1 + 1) 0)
      as (i & s1 & -> & Hi); [lia..|].
    obind.
    destruct (median_func_spec l (a + (b - a) / 4 * 2 - 1)
                (a + (b - a) / 4 * 2) (a + (b - a) / 4 * 2 + 1) s1)
      as (j & s2 & -> & Hj); [lia..|].
    obind.
    destruct (median_func_spec l (a + (b - a) / 4 * 3 - 1)
                (a + (b - a) / 4 * 3) (a + (b - a) / 4 * 3 + 1) s2)
      as (k & s3 & -> & Hk); [lia..|].
    obind.
    destruct (median_func_spec l i j k s3) as (m & s4 & -> & Hm); [lia..|].
    obind. eexists _, _. split; [done|]. lia.
  - obind.
    destruct (median_func_spec l (a + (b - a) / 4 * 1)
                (a + (b - a) / 4 * 2) (a + (b - a) / 4 * 3) 0)
      as (m & s4 & -> & Hm); [lia..|].
    obind. eexists _, _. split; [done|]. lia.
Qed.

Lemma reverseRange_loop_spec fuel : ∀ (l : list A) a b i j,
  a ≤ i → j < b → b ≤ length l → j - i < fuel →
  ∃ l', GoSort.reverseRange_loop fuel l i j = Some l' ∧ seg_perm a b l l'.
Proof.
  induction fuel as [|fuel IH]; intros l a b i j Hi Hj Hb Hf; [lia|].
  simpl. case_decide as Hij.
  2:{ exists l. split; [done|apply seg_perm_refl]. }
  destruct (Swap_spec l a b i j) as (x & y & Hx & Hy & -> & Hsp); [lia..|].
  simpl.
  destruct (IH (<[i:=y]> (<[j:=x]> l)) a b (i + 1) (j - 1)) as (l' & -> & Hsp');
    [lia|lia| |lia|].
  { by rewrite !length_insert. }
  exists l'. split; [done|]. by eapply seg_perm_trans.
Qed.

Lemma reverseRange_func_spec (l : list A) a b :
  a < b → b ≤ length l →
  ∃ l', GoSort.reverseRange_func l a b = Some l' ∧ seg_perm a b l l'.
Proof.
  intros Hab Hb. unfold GoSort.reverseRange_func.
  apply reverseRange_loop_spec; lia.
Qed.

Lemma nextPowerOfTwo_le n :
  0 < n → (GoSort.nextPowerOfTwo n ≤ 2 * N.of_nat n)%N.
Proof.
  intros Hn. unfold GoSort.nextPowerOfTwo, GoSort.bits_Len.
  rewrite N2Nat.id, N.shiftl_1_l.
  rewrite N.size_log2 by lia. rewrite N.pow_succ_r'.
  pose proof (N.log2_spec (N.of_nat n)). lia.
Qed.

Lemma breakPatterns_other n r :
  0 < n →
  let other := N.to_nat (N.land r (GoSort.nextPowerOfTwo n - 1)) in
  (if decide (n ≤ other) then other - n else other) < n.
Proof.
  intros Hn other.
  assert (other < 2 * n) as Hlt.
  { unfold other. pose proof (nextPowerOfTwo_le n Hn) as Hle.
    unfold GoSort.nextPowerOfTwo in *.
    rewrite N.shiftl_1_l in *. rewrite N.sub_1_r, <-N.ones_equiv, N.land_ones.
    pose proof (N.mod_lt r (2 ^ N.of_nat (GoSort.bits_Len n))%N) as Hm.
    assert (2 ^ N.of_nat (GoSort.bits_Len n) ≠ 0)%N
      by (apply N.pow_nonzero; lia).
    lia. }
  case_decide; lia.
Qed.

Lemma breakPatterns_func_spec (l : list A) a b :
  a ≤ b → b ≤ length l →
  ∃ l', GoSort.breakPatterns_func xorshift_Next l a b = Some l'
    ∧ seg_perm a b l l'.
Proof.
  intros Hab Hb. unfold GoSort.breakPatterns_func.
  case_decide as Hlen; [|exists l; split; [done|apply seg_perm_refl]].
  cbv zeta. cbn [for_up]. obind.
  assert (Hstep : ∀ i (d : list A) o, i < 3 → length d = length l →
    o < b - a →
    ∃ d', Swap d (a + (b - a) / 4 * 2 - 1 - 1 + i) (a + o) = Some d'
      ∧ seg_perm a b d d').
  { intros i d o Hi Hd Ho.
    destruct (Swap_spec d a b (a + (b - a) / 4 * 2 - 1 - 1 + i) (a + o))
      as (x & y & Hx & Hy & -> & Hsp); [lia..|].
    eauto. }
  assert (Hother : ∀ r,
    (if decide (b - a ≤ N.to_nat (N.land r (GoSort.nextPowerOfTwo (b - a) - 1)))
     then N.to_nat (N.land r (GoSort.nextPowerOfTwo (b - a) - 1)) - (b - a)
     else N.to_nat (N.land r (GoSort.nextPowerOfTwo (b - a) - 1))) < b - a).
  { intros r. apply (breakPatterns_other (b - a) r). lia. }
  edestruct (Hstep 0 l) as (d1 & -> & Hp1); [lia|done|apply Hother|].
  obind.
  edestruct (Hstep 1 d1) as (d2 & -> & Hp2);
    [lia|by apply seg_perm_length in Hp1|apply Hother|].
  obind.
  edestruct (Hstep 2 d2) as (d3 & -> & Hp3); [lia| |apply Hother|].
  { apply seg_perm_length in Hp1, Hp2. congruence. }
  obind. exists d3. split; [done|].
  eapply seg_perm_trans; [|done]. by eapply seg_perm_trans.
Qed.

(** *** Partial insertion sort *)

Lemma shift_smaller_bounded j : ∀ (l : list A) a,
  a ≤ j → j < length l →
  (∀ x, 0 < a → l !! (a - 1) = Some x → lower_bound l a (S j) x) →
  GoSort.shift_smaller less j l = GoSort.insertion_shift less a j l.
Proof.
  induction j as [|j IH]; intros l a Haj Hj Hlb; [done|].
  simpl. case_decide as Hlt.
  - destruct (Swap_spec l a (S (S j)) (S j) j) as (x & y & Hx & Hy & HS & Hsp);
      [lia..|].
    rewrite (Less_Some l (S j) j x y) by done. obind.
    destruct (less x y); [|done].
    rewrite HS. obind. apply IH; [lia|by rewrite !length_insert; lia|].
    intros z Ha Hz k w Hk Hw.
    rewrite (seg_perm_outside _ _ _ _ _ Hsp) in Hz by lia.
    eapply (lower_bound_seg_perm _ _ _ _ _ Hsp (Hlb z Ha Hz) k); [lia|done].
  - assert (a = S j) as -> by lia.
    destruct (lookup_lt_is_Some_2 l (S j)) as [x Hx]; [lia|].
    destruct (lookup_lt_is_Some_2 l j) as [y Hy]; [lia|].
    rewrite (Less_Some l (S j) j x y) by done. obind.
    rewrite (Hlb y ltac:(lia) ltac:(by rewrite Nat.sub_succ, Nat.sub_0_r)
               (S j) x); [done|lia|done].
Qed.

Lemma shift_greater_spec fuel : ∀ (l : list A) j b,
  0 < j → b ≤ length l → b - j < fuel →
  ∃ l', GoSort.shift_greater less fuel j b l = Some l'
    ∧ seg_perm (j - 1) b l l'.
Proof.
  induction fuel as [|fuel IH]; intros l j b Hj Hb Hf; [lia|].
  simpl. case_decide as Hjb; [|exists l; split; [done|apply seg_perm_refl]].
  destruct (Swap_spec l (j - 1) b j (j - 1)) as (x & y & Hx & Hy & HS & Hsp);
    [lia..|].
  rewrite (Less_Some l j (j - 1) x y) by done. obind.
  destruct (less x y); [|exists l; split; [done|apply seg_perm_refl]].
  rewrite HS. obind.
  destruct (IH (<[j:=y]> (<[j - 1:=x]> l)) (S j) b) as (l' & -> & Hsp');
    [lia|by rewrite !length_insert|lia|].
  exists l'. split; [done|]. eapply seg_perm_trans; [done|].
  eapply seg_perm_mono; [| |done]; lia.
Qed.

Local Arguments GoSort.shift_greater : simpl never.
Local Arguments GoSort.shift_smaller : simpl never.
Local Arguments GoSort.insertion_shift : simpl never.

Lemma partialInsertionSort_loop_spec steps : ∀ (l : list A) a b i,
  a < i → i ≤ b → b ≤ length l → left_bounded l a b → sorted_seg l a i →
  ∃ l' r, GoSort.partialInsertionSort_loop less steps l a b i = Some (l', r)
    ∧ seg_perm a b l l' ∧ (r = true → sorted_seg l' a b).
Proof.
  induction steps as [|steps IH]; intros l a b i Hai Hib Hb Hlb Hs.
  { exists l, false. split_and!; [done|apply seg_perm_refl|done]. }
  simpl.
  destruct (skip_up_spec (S (length l)) (λ k, negb <$> Less l k (k - 1)) i (b - 1))
    as (i1 & -> & Hi1 & Hi1' & Hi1t & Hi1f); [|lia|].
  { intros k ?. apply negb_Less_is_Some; lia. }
  obind.
  assert (Hs1 : sorted_seg l a i1).
  { apply sorted_seg_adj; [lia|]. intros k Hak Hk.
    destruct (decide (S k < i)); [by eapply sorted_seg_adj_ok|].
    intros x y Hx Hy.
    rewrite (negb_Less_inv l (S k) (S k - 1) true y x); [done|apply Hi1t; lia|done|].
    by rewrite Nat.sub_succ, Nat.sub_0_r. }
  case_decide as Hi1b.
  { subst i1. exists l, true. split_and!; [done|apply seg_perm_refl|done]. }
  case_decide as Hshort.
  { exists l, false. split_and!; [done|apply seg_perm_refl|done]. }
  destruct (Swap_spec l a b i1 (i1 - 1)) as (x & y & Hx & Hy & -> & Hsp1);
    [lia..|].
  obind. set (l1 := <[i1:=y]> (<[i1 - 1:=x]> l)) in *.
  assert (Hl1 : length l1 = length l) by (by apply seg_perm_length in Hsp1).
  assert (Hlb1 : left_bounded l1 a b) by (by eapply left_bounded_seg_perm).
  assert (Hs1' : sorted_seg l1 a (i1 - 1)).
  { eapply sorted_seg_ext; [|eapply sorted_seg_sub; [| |exact Hs1]; lia].
    intros k Hk. unfold l1. rewrite (swap_lookup l i1 (i1 - 1) x y) by done.
    repeat case_decide; try lia; done. }
  assert (∃ l2, (if decide (2 ≤ i1 - a)
                 then GoSort.shift_smaller less (i1 - 1) l1 else Some l1)
                = Some l2
              ∧ seg_perm a b l1 l2 ∧ sorted_seg l2 a i1)
    as (l2 & -> & Hsp2 & Hs2).
  { case_decide as H2.
    - rewrite (shift_smaller_bounded (i1 - 1) l1 a); [|lia|lia|].
      2:{ intros z Ha Hz. eapply lower_bound_seg_perm; [apply seg_perm_refl|].
          intros k w Hk Hw. eapply (Hlb1 z Ha Hz k); [lia|done]. }
      destruct (insertion_shift_spec (i1 - 1) l1 a (i1 - 1))
        as (l2 & -> & Hsp2 & Hadj2); [lia..| |lia|].
      { intros k ? ? ?. eapply sorted_seg_adj_ok; [done|lia..]. }
      exists l2. split_and!; [done| |].
      + eapply seg_perm_mono; [| |done]; lia.
      + apply sorted_seg_adj.
        * rewrite (seg_perm_length _ _ _ _ Hsp2). lia.
        * intros k ? ?. apply Hadj2; lia.
    - exists l1. split_and!; [done|apply seg_perm_refl|].
      apply sorted_seg_small. lia. }
  obind.
  assert (Hl2 : length l2 = length l)
    by (apply seg_perm_length in Hsp2; congruence).
  assert (∃ l3, (if decide (2 ≤ b - i1)
                 then GoSort.shift_greater less (S (length l2)) (i1 + 1) b l2
                 else Some l2) = Some l3
              ∧ seg_perm i1 b l2 l3)
    as (l3 & -> & Hsp3).
  { case_decide as H2; [|exists l2; split; [done|apply seg_perm_refl]].
    destruct (shift_greater_spec (S (length l2)) l2 (i1 + 1) b)
      as (l3 & -> & Hsp3); [lia..|].
    exists l3. split; [done|]. by replace (i1 + 1 - 1) with i1 in Hsp3 by lia. }
  obind.
  assert (Hsp13 : seg_perm a b l l3).
  { eapply seg_perm_trans; [done|]. eapply seg_perm_trans; [done|].
    eapply seg_perm_mono; [| |done]; lia. }
  destruct (IH l3 a b i1) as (l' & r & -> & Hsp' & Hr); [lia|lia| | | |].
  - rewrite (seg_perm_length _ _ _ _ Hsp13). lia.
  - by eapply left_bounded_seg_perm.
  - eapply sorted_seg_ext; [|done].
    intros k Hk. apply (seg_perm_outside _ _ _ _ _ Hsp3). lia.
  - exists l', r. split_and!; [done| |done]. by eapply seg_perm_trans.
Qed.

Lemma partialInsertionSort_func_spec (l : list A) a b :
  a < b → b ≤ length l → left_bounded l a b →
  ∃ l' r, GoSort.partialInsertionSort_func less l a b = Some (l', r)
    ∧ seg_perm a b l l' ∧ (r = true → sorted_seg l' a b).
Proof.
  intros Hab Hb Hlb. unfold GoSort.partialInsertionSort_func.
  apply partialInsertionSort_loop_spec; [lia..|done|].
  apply sorted_seg_small. lia.
Qed.

(** *** Heapsort *)

Lemma siftDown_loop_spec fuel : ∀ (l : list A) hi first lo root,
  lo ≤ root → first + hi ≤ length l → hi - root < fuel →
  (∀ i, lo ≤ i → i ≠ root → heap_at l first hi i) →
  (∀ p c x y, lo ≤ p → root = 2 * p + 1 ∨ root = 2 * p + 2 →
     c = 2 * root + 1 ∨ c = 2 * root + 2 → c < hi →
     l !! (first + p) = Some x → l !! (first + c) = Some y →
     less x y = false) →
  ∃ l', GoSort.siftDown_loop less fuel hi first root l = Some l'
    ∧ seg_perm (first + lo) (first + hi) l l'
    ∧ (∀ i, lo ≤ i → heap_at l' first hi i).
Proof.
  induction fuel as [|fuel IH]; intros l hi first lo root Hlo Hlen Hf Hheap Hpar;
    [lia|].
  cbn [GoSort.siftDown_loop]. cbv zeta. case_decide as Hchild.
  { exists l. split_and!; [done|apply seg_perm_refl|].
    intros i Hi. destruct (decide (i = root)) as [->|]; [|by apply Hheap].
    intros c x y Hc ?. lia. }
  (* the larger child *)
  assert (∃ c1, (if decide (2 * root + 1 + 1 < hi) then
                   lt ← Less l (first + (2 * root + 1))
                          (first + (2 * root + 1) + 1);
                   Some (if lt : bool then 2 * root + 1 + 1 else 2 * root + 1)
                 else Some (2 * root + 1)) = Some c1
              ∧ (c1 = 2 * root + 1 ∨ c1 = 2 * root + 2) ∧ c1 < hi
              ∧ ∀ c x y, c = 2 * root + 1 ∨ c = 2 * root + 2 → c < hi →
                  l !! (first + c1) = Some x → l !! (first + c) = Some y →
                  less x y = false)
    as (c1 & -> & Hc1 & Hc1hi & Hc1max).
  { case_decide as H2.
    - destruct (Less_lt l (first + (2 * root + 1)) (first + (2 * root + 1) + 1))
        as (u & v & Hu & Hv & ->); [lia..|].
      obind. destruct (less u v) eqn:Huv.
      + exists (2 * root + 1 + 1). split_and!; [done|lia|lia|].
        intros c x y [->| ->] ? Hx Hy.
        * replace (first + (2 * root + 1 + 1))
            with (first + (2 * root + 1) + 1) in Hx by lia.
          simplify_eq. by apply less_asym.
        * replace (first + (2 * root + 1 + 1))
            with (first + (2 * root + 2)) in Hx by lia.
          simplify_eq. apply (sw_irrefl _ SW).
      + exists (2 * root + 1). split_and!; [done|lia|lia|].
        intros c x y [->| ->] ? Hx Hy.
        * simplify_eq. apply (sw_irrefl _ SW).
        * replace (first + (2 * root + 2))
            with (first + (2 * root + 1) + 1) in Hy by lia.
          by simplify_eq.
    - exists (2 * root + 1). split_and!; [done|lia|lia|].
      intros c x y [->| ->] ? Hx Hy; [|lia].
      simplify_eq. apply (sw_irrefl _ SW). }
  obind.
  destruct (Swap_spec l (first + lo) (first + hi) (first + root) (first + c1))
    as (u & v & Hu & Hv & HS & Hsp); [lia..|].
  rewrite (Less_Some l _ _ u v) by done. obind.
  destruct (less u v) eqn:Huv.
  - rewrite HS. obind.
    destruct (IH (<[first + root:=v]> (<[first + c1:=u]> l)) hi first lo c1)
      as (l' & -> & Hsp' & Hheap'); [lia|by rewrite !length_insert|lia| | |].
    + intros i Hi Hne c x y Hc Hchi.
      rewrite !(swap_lookup l (first + root) (first + c1) u v) by done.
      repeat case_decide; try lia; intros; simplify_eq.
      * by apply less_asym.
      * eapply (Hc1max c); [lia|done|done|done].
      * eapply (Hpar i (first + c1 - first) x y); try done; try lia.
        by replace (first + (first + c1 - first)) with (first + c1) by lia.
      * eapply (Hheap i); [lia|lia| |done|done|done]. lia.
    + intros q c x y Hq Hroot Hc Hchi.
      rewrite !(swap_lookup l (first + root) (first + c1) u v) by done.
      repeat case_decide; try lia; intros; simplify_eq.
      eapply (Hheap c1); [lia|lia| |done|done|done]. lia.
    + exists l'. split_and!; [done| |done]. by eapply seg_perm_trans.
  - exists l. split_and!; [done|apply seg_perm_refl|].
    intros i Hi. destruct (decide (i = root)) as [->|]; [|by apply Hheap].
    intros c x y Hc Hchi Hx Hy. simplify_eq.
    eapply (sw_negtrans _ SW); [exact Huv|]. by eapply (Hc1max c).
Qed.

Local Arguments GoSort.siftDown_loop : simpl never.

Lemma siftDown_func_spec (l : list A) lo hi first :
  first + hi ≤ length l →
  (∀ i, lo < i → heap_at l first hi i) →
  ∃ l', GoSort.siftDown_func less l lo hi first = Some l'
    ∧ seg_perm (first + lo) (first + hi) l l'
    ∧ (∀ i, lo ≤ i → heap_at l' first hi i).
Proof.
  intros Hlen Hheap. unfold GoSort.siftDown_func.
  apply siftDown_loop_spec; [lia..| |].
  - intros i ? ?. apply Hheap. lia.
  - intros q c x y ? ?. lia.
Qed.

Lemma heap_root_max (l : list A) first n :
  first + n ≤ length l → (∀ k, heap_at l first n k) →
  ∀ j x y, j < n → l !! first = Some x → l !! (first + j) = Some y →
    less x y = false.
Proof.
  intros Hlen Hheap j. induction (lt_wf j) as [j _ IH].
  intros x y Hj Hx Hy. destruct (decide (j = 0)) as [->|Hj0].
  - rewrite Nat.add_0_r in Hy. simplify_eq. apply (sw_irrefl _ SW).
  - destruct (lookup_lt_is_Some_2 l (first + (j - 1) / 2)) as [z Hz]; [lia|].
    eapply (sw_negtrans _ SW).
    + eapply (IH ((j - 1) / 2)); [lia|lia|done|done].
    + eapply (Hheap ((j - 1) / 2) j); [lia|done|done|done].
Qed.

Lemma heapify_spec n : ∀ (l : list A) first hi,
  first + hi ≤ length l → (∀ k, n ≤ k → heap_at l first hi k) →
  ∃ l', for_down n (λ i d, GoSort.siftDown_func less d i hi first) l = Some l'
    ∧ seg_perm first (first + hi) l l' ∧ (∀ k, heap_at l' first hi k).
Proof.
  induction n as [|n IH]; intros l first hi Hlen Hheap.
  { exists l. split_and!; [done|apply seg_perm_refl|].
    intros k. apply Hheap. lia. }
  cbn [for_down].
  destruct (siftDown_func_spec l n hi first)
    as (l1 & -> & Hsp1 & Hheap1); [lia|..].
  { intros i ?. apply Hheap. lia. }
  obind.
  destruct (IH l1 first hi) as (l' & -> & Hsp' & Hheap'); [|done|].
  { rewrite (seg_perm_length _ _ _ _ Hsp1). lia. }
  exists l'. split_and!; [done| |done].
  eapply seg_perm_trans; [|done]. eapply seg_perm_mono; [| |done]; lia.
Qed.

Lemma heap_extract_spec n : ∀ (l : list A) first hi,
  n ≤ hi → first + hi ≤ length l →
  (∀ k, heap_at l first n k) →
  sorted_seg l (first + n) (first + hi) →
  (∀ j k x y, j < n → n ≤ k < hi →
     l !! (first + j) = Some x → l !! (first + k) = Some y →
     less y x = false) →
  ∃ l', for_down n
          (λ i d, d' ← Swap d first (first + i);
                  GoSort.siftDown_func less d' 0 i first) l = Some l'
    ∧ seg_perm first (first + hi) l l'
    ∧ sorted_seg l' first (first + hi).
Proof.
  induction n as [|n IH]; intros l first hi Hn Hlen Hheap Hsort Htail.
  { exists l. split_and!; [done|apply seg_perm_refl|].
    by rewrite Nat.add_0_r in Hsort. }
  cbn [for_down].
  destruct (Swap_spec l first (first + S n) first (first + n))
    as (r & z & Hr & Hz & -> & Hsp1); [lia..|].
  obind.
  set (l1 := <[first:=z]> (<[first + n:=r]> l)) in *.
  assert (Hl1 : length l1 = length l) by (by apply seg_perm_length in Hsp1).
  assert (Hlook1 : ∀ k, l1 !! k =
    if decide (k = first) then Some z
    else if decide (k = first + n) then Some r else l !! k).
  { intros k. unfold l1. by apply swap_lookup. }
  destruct (siftDown_func_spec l1 0 n first)
    as (l2 & -> & Hsp2 & Hheap2); [lia|..].
  { intros i Hi c x y Hc Hcn. rewrite !Hlook1.
    repeat case_decide; try lia. intros. eapply (Hheap i c); [done|lia|done|done]. }
  obind. rewrite Nat.add_0_r in Hsp2.
  assert (Hl2 : length l2 = length l)
    by (apply seg_perm_length in Hsp2; congruence).
  assert (Hout2 : ∀ k, n ≤ k → l2 !! (first + k) = l1 !! (first + k)).
  { intros k Hk. apply (seg_perm_outside _ _ _ _ _ Hsp2). lia. }
  assert (Horig : ∀ j y, j < n → l2 !! (first + j) = Some y →
            ∃ j', j' < S n ∧ l !! (first + j') = Some y).
  { intros j y Hj Hy.
    destruct (seg_perm_origin _ _ _ _ (first + j) y Hsp2) as (k' & Hk' & Hy');
      [lia|done|].
    rewrite Hlook1 in Hy'. repeat case_decide; try lia; simplify_eq.
    - exists n. split; [lia|done].
    - exists (k' - first). split; [lia|].
      by replace (first + (k' - first)) with k' by lia. }
  destruct (IH l2 first hi) as (l' & -> & Hsp' & Hsort');
    [lia|lia|intros k; apply Hheap2; lia| | |].
  - intros i j x y Hi Hij Hj.
    replace i with (first + (i - first)) by lia.
    replace j with (first + (j - first)) by lia.
    rewrite !Hout2, !Hlook1 by lia.
    repeat case_decide; try lia; intros; simplify_eq;
      first [ eapply (Htail 0 (j - first)); [lia|lia|lookup_lia|lookup_lia]
            | eapply (Hsort (first + (i - first)) (first + (j - first)));
                [lia|lia|lia|lookup_lia|lookup_lia] ].
  - intros j k x y Hj Hk Hx. rewrite Hout2, Hlook1 by lia.
    destruct (Horig j x Hj Hx) as (j' & Hj' & Hx').
    repeat case_decide; try lia; intros; simplify_eq;
      first [ eapply (heap_root_max l first (S n) ltac:(lia) Hheap j');
                [lia|lookup_lia|lookup_lia]
            | eapply (Htail j' k); [lia|lia|lookup_lia|lookup_lia] ].
  - exists l'. split_and!; [done| |done].
    eapply seg_perm_trans; [eapply seg_perm_mono; [| |exact Hsp1]; lia|].
    eapply seg_perm_trans; [eapply seg_perm_mono; [| |exact Hsp2]; lia|done].
Qed.

Lemma heapSort_func_spec (l : list A) a b :
  a ≤ b → b ≤ length l →
  ∃ l', GoSort.heapSort_func less l a b = Some l'
    ∧ seg_perm a b l l' ∧ sorted_seg l' a b.
Proof.
  intros Hab Hb. unfold GoSort.heapSort_func. cbv zeta.
  destruct (heapify_spec ((b - a - 1) / 2 + 1) l a (b - a))
    as (l1 & -> & Hsp1 & Hheap1); [lia| |].
  { intros k Hk c x y Hc Hchi. lia. }
  obind.
  destruct (heap_extract_spec (b - a) l1 a (b - a))
    as (l2 & -> & Hsp2 & Hsort2); [lia| |done| | |].
  - rewrite (seg_perm_length _ _ _ _ Hsp1). lia.
  - apply sorted_seg_small. lia.
  - intros j k x y ? ?. lia.
  - replace (a + (b - a)) with b in * by lia.
    exists l2. split_and!; [done| |done]. by eapply seg_perm_trans.
Qed.

(** *** Pattern-defeating quicksort *)

Lemma seg_forall_perm (P : A → Prop) a b a' b' (l l' : list A) :
  seg_perm a' b' l l' → a ≤ a' → b' ≤ b →
  (∀ k x, a ≤ k < b → l !! k = Some x → P x) →
  (∀ k x, a ≤ k < b → l' !! k = Some x → P x).
Proof.
  intros Hsp Ha Hb HP k x Hk Hx.
  destruct (seg_perm_origin a b l l' k x) as (k' & Hk' & Hx'); [|done|done|].
  - eapply seg_perm_mono; [| |done]; lia.
  - by eapply HP.
Qed.

Lemma sorted_combine (l : list A) a mid b p :
  l !! mid = Some p → a ≤ mid < b →
  sorted_seg l a mid → sorted_seg l (mid + 1) b →
  (∀ k x, a ≤ k < mid → l !! k = Some x → less x p = true) →
  (∀ k x, mid + 1 ≤ k < b → l !! k = Some x → less x p = false) →
  sorted_seg l a b.
Proof.
  intros Hp Hmid Hs1 Hs2 Hlo Hhi i j x y Hi Hij Hj Hx Hy.
  destruct (decide (j < mid)); [by eapply (Hs1 i j); [lia..| |]|].
  destruct (decide (mid < i)); [by eapply (Hs2 i j); [lia..| |]|].
  destruct (decide (i = mid)) as [->|].
  { simplify_eq. eapply (Hhi j); [lia|done]. }
  assert (less x p = true) as Hxp by (eapply (Hlo i); [lia|done]).
  destruct (decide (j = mid)) as [->|].
  { simplify_eq. by apply less_asym. }
  assert (less y p = false) as Hyp by (eapply (Hhi j); [lia|done]).
  destruct (less y x) eqn:Hyx; [|done].
  rewrite (sw_trans _ SW _ _ _ Hyx Hxp) in Hyp. done.
Qed.

Lemma equal_cross (l : list A) a mid b p :
  (∀ k x, a ≤ k < mid → l !! k = Some x → less p x = false) →
  (∀ k x, mid ≤ k < b → l !! k = Some x → less p x = true) →
  ∀ i j x y, a ≤ i < mid → mid ≤ j < b →
    l !! i = Some x → l !! j = Some y → less y x = false.
Proof.
  intros Heq Hhi i j x y Hi Hj Hx Hy.
  pose proof (Heq i x Hi Hx) as Hpx. pose proof (Hhi j y Hj Hy) as Hpy.
  destruct (less y x) eqn:Hyx; [|done].
  rewrite (sw_trans _ SW _ _ _ Hpy Hyx) in Hpx. done.
Qed.

Lemma left_bounded_equal (l : list A) a mid b p :
  a < mid →
  (∀ k x, a ≤ k < mid → l !! k = Some x → less p x = false) →
  (∀ k x, mid ≤ k < b → l !! k = Some x → less p x = true) →
  left_bounded l mid b.
Proof.
  intros Hmid Heq Hhi x Ha Hx k y Hk Hy.
  eapply (equal_cross l a mid b p Heq Hhi (mid - 1) k); [lia|lia|done|done].
Qed.

Lemma sorted_combine_equal (l : list A) a mid b p :
  sorted_seg l mid b →
  (∀ k x, a ≤ k < mid → l !! k = Some x → less p x = false) →
  (∀ k x, a ≤ k < mid → l !! k = Some x → less x p = false) →
  (∀ k x, mid ≤ k < b → l !! k = Some x → less p x = true) →
  sorted_seg l a b.
Proof.
  intros Hs Heq Heq' Hhi i j x y Hi Hij Hj Hx Hy.
  destruct (decide (mid ≤ i)); [by eapply (Hs i j); [lia..| |]|].
  destruct (decide (mid ≤ j)).
  { eapply (equal_cross l a mid b p Heq Hhi i j); [lia|lia|done|done]. }
  eapply (sw_negtrans _ SW); [eapply (Heq' j)|eapply (Heq i)]; done || lia.
Qed.

Lemma pdqsort_loop_spec fuel : ∀ (l : list A) a b limit wb wp,
  a ≤ b → b ≤ length l → b - a < fuel → left_bounded l a b →
  ∃ l', GoSort.pdqsort_loop less xorshift_Next fuel l a b limit wb wp = Some l'
    ∧ seg_perm a b l l' ∧ sorted_seg l' a b.
Proof.
  induction fuel as [|fuel IH]; intros l a b limit wb wp Hab Hb Hf Hlb; [lia|].
  cbn [GoSort.pdqsort_loop]. cbv zeta.
  case_decide as Hlen. { by apply insertionSort_spec. }
  case_decide as Hlim. { by apply heapSort_func_spec. }
  unfold GoSort.maxInsertion in Hlen.
  (* breaking patterns after an unbalanced partition *)
  lazymatch goal with |- ∃ _, mbind _ ?X = _ ∧ _ =>
    assert (∃ l1 limit1, X = Some (l1, limit1) ∧ seg_perm a b l l1)
      as (l1 & limit1 & -> & Hsp1) end.
  { destruct wb; [eauto using seg_perm_refl|].
    destruct (breakPatterns_func_spec l a b) as (d & -> & ?); [lia..|].
    obind. eauto. }
  obind.
  assert (Hl1 : length l1 = length l) by (by apply seg_perm_length in Hsp1).
  (* the pivot *)
  destruct (choosePivot_func_spec l1 a b) as (pivot & hint & -> & Hpiv);
    [unfold GoSort.maxInsertion; lia|lia|].
  obind.
  lazymatch goal with |- ∃ _, mbind _ ?X = _ ∧ _ =>
    assert (∃ l2 pivot2 hint2, X = Some (l2, pivot2, hint2)
              ∧ seg_perm a b l1 l2 ∧ a ≤ pivot2 < b)
      as (l2 & pivot2 & hint2 & -> & Hsp2 & Hpiv2) end.
  { destruct hint; [eauto 10 using seg_perm_refl..|].
    destruct (reverseRange_func_spec l1 a b) as (d & -> & ?); [lia..|].
    obind. eexists _, _, _. split_and!; [done|done|lia..]. }
  obind.
  assert (Hl2 : length l2 = length l)
    by (apply seg_perm_length in Hsp2; congruence).
  assert (Hsp02 : seg_perm a b l l2) by (by eapply seg_perm_trans).
  (* the slice may be sorted already *)
  lazymatch goal with |- ∃ _, mbind _ ?X = _ ∧ _ =>
    assert (∃ l3 sorted, X = Some (l3, sorted)
              ∧ seg_perm a b l2 l3 ∧ (sorted = true → sorted_seg l3 a b))
      as (l3 & sorted & -> & Hsp3 & Hsorted) end.
  { destruct (wb && wp), hint2;
      try (exists l2, false; split_and!; [done|apply seg_perm_refl|done]).
    apply partialInsertionSort_func_spec; [lia..|].
    by eapply left_bounded_seg_perm. }
  obind.
  assert (Hl3 : length l3 = length l)
    by (apply seg_perm_length in Hsp3; congruence).
  assert (Hsp03 : seg_perm a b l l3) by (by eapply seg_perm_trans).
  assert (Hlb3 : left_bounded l3 a b) by (by eapply left_bounded_seg_perm).
  destruct sorted. { exists l3. split_and!; [done|done|by apply Hsorted]. }
  (* many duplicates of the element before the range *)
  lazymatch goal with |- ∃ _, mbind _ ?X = _ ∧ _ =>
    assert (∃ eq, X = Some eq
              ∧ (eq = true → ∃ d p, 0 < a ∧ l3 !! (a - 1) = Some d
                   ∧ l3 !! pivot2 = Some p ∧ less d p = false))
      as (eq & -> & Heq) end.
  { case_decide as Ha; [|by exists false].
    destruct (Less_lt l3 (a - 1) pivot2) as (d & p & Hd & Hp & ->); [lia..|].
    cbn [fmap option_fmap option_map]. eexists. split; [done|].
    intros Hn. apply negb_true_iff in Hn. eauto 10. }
  obind. destruct eq.
  - destruct Heq as (d & p & Ha & Hd & Hp & Hdp); [done|].
    destruct (partitionEqual_func_spec l3 a b pivot2)
      as (l4 & mid & p' & -> & Hsp4 & Hmid & Hp' & Hlo4 & Hhi4); [lia..|].
    simplify_eq. obind.
    assert (Hl4 : length l4 = length l)
      by (apply seg_perm_length in Hsp4; congruence).
    destruct (IH l4 mid b limit1 wb wp) as (l5 & -> & Hsp5 & Hs5); [lia..| |].
    { by eapply (left_bounded_equal l4 a mid b p); [lia| |]. }
    exists l5. split_and!; [done| |].
    + eapply seg_perm_trans; [done|]. eapply seg_perm_trans; [done|].
      eapply seg_perm_mono; [| |done]; lia.
    + assert (Hlo5 : ∀ k x, a ≤ k < mid → l5 !! k = Some x →
                less p x = false ∧ less x p = false).
      { intros k x Hk Hx.
        rewrite (seg_perm_outside _ _ _ _ _ Hsp5) in Hx by lia.
        split; [by eapply Hlo4|].
        eapply (sw_negtrans _ SW); [|exact Hdp].
        eapply (lower_bound_seg_perm a b l3 l4 d Hsp4 (Hlb3 d Ha Hd) k);
          [lia|done]. }
      eapply (sorted_combine_equal l5 a mid b p); [done|..].
      * intros k x Hk Hx. by eapply Hlo5.
      * intros k x Hk Hx. by eapply Hlo5.
      * eapply (seg_forall_perm (λ x, less p x = true)); [done|lia..|done].
  - clear Heq.
    destruct (partition_func_spec l3 a b pivot2)
      as (l4 & mid & ap & p & -> & Hsp4 & Hmid & Hp & Hlo4 & Hhi4); [lia..|].
    obind.
    assert (Hl4 : length l4 = length l)
      by (apply seg_perm_length in Hsp4; congruence).
    assert (Hsp04 : seg_perm a b l l4) by (by eapply seg_perm_trans).
    assert (Hlb4 : left_bounded l4 a b) by (by eapply left_bounded_seg_perm).
    assert (Hrb4 : left_bounded l4 (mid + 1) b).
    { intros x _ Hx k y Hk Hy.
      replace (mid + 1 - 1) with mid in Hx by lia. simplify_eq.
      eapply (Hhi4 k); [lia|done]. }
    assert (Hfinish : ∀ l6, seg_perm a b l4 l6 → l6 !! mid = Some p →
              sorted_seg l6 a mid → sorted_seg l6 (mid + 1) b →
              (∀ k x, a ≤ k < mid → l6 !! k = Some x → less x p = true) →
              (∀ k x, mid + 1 ≤ k < b → l6 !! k = Some x → less x p = false) →
              ∃ l', Some l6 = Some l' ∧ seg_perm a b l l' ∧ sorted_seg l' a b).
    { intros l6 Hsp6 Hp6 Hs1 Hs2 Hlo6 Hhi6. exists l6.
      split_and!; [done|by eapply seg_perm_trans|].
      by eapply (sorted_combine l6 a mid b p). }
    case_decide as Hside.
    + destruct (IH l4 a mid limit1 true true) as (l5 & -> & Hsp5 & Hs5);
        [lia..|by eapply left_bounded_sub; [| |exact Hlb4]; lia|].
      obind.
      destruct (IH l5 (mid + 1) b limit1
                  (bool_decide ((b - a) / 8 ≤ mid - a)) ap)
        as (l6 & -> & Hsp6 & Hs6).
      { lia. }
      { rewrite (seg_perm_length _ _ _ _ Hsp5). lia. }
      { lia. }
      { intros x Hpos Hx k y Hk Hy.
        rewrite (seg_perm_outside _ _ _ _ _ Hsp5) in Hx by lia.
        rewrite (seg_perm_outside _ _ _ _ _ Hsp5) in Hy by lia.
        by apply (Hrb4 x Hpos Hx k y Hk). }
      apply Hfinish.
      * eapply seg_perm_trans; eapply seg_perm_mono; [| |exact Hsp5| | |exact Hsp6]; lia.
      * rewrite (seg_perm_outside _ _ _ _ _ Hsp6) by lia.
        by rewrite (seg_perm_outside _ _ _ _ _ Hsp5) by lia.
      * eapply sorted_seg_ext; [|done]. intros k Hk.
        apply (seg_perm_outside _ _ _ _ _ Hsp6). lia.
      * done.
      * intros k x Hk. rewrite (seg_perm_outside _ _ _ _ _ Hsp6) by lia.
        revert k x Hk.
        eapply (seg_forall_perm (λ x, less x p = true)); [done|lia..|done].
      * eapply (seg_forall_perm (λ x, less x p = false)); [done|lia..|].
        intros k x Hk. rewrite (seg_perm_outside _ _ _ _ _ Hsp5) by lia.
        apply Hhi4. lia.
    + destruct (IH l4 (mid + 1) b limit1 true true) as (l5 & -> & Hsp5 & Hs5);
        [lia..|done|].
      obind.
      destruct (IH l5 a mid limit1
                  (bool_decide ((b - a) / 8 ≤ b - mid)) ap)
        as (l6 & -> & Hsp6 & Hs6).
      { lia. }
      { rewrite (seg_perm_length _ _ _ _ Hsp5). lia. }
      { lia. }
      { intros x Hpos Hx k y Hk Hy.
        rewrite (seg_perm_outside _ _ _ _ _ Hsp5) in Hx by lia.
        rewrite (seg_perm_outside _ _ _ _ _ Hsp5) in Hy by lia.
        apply (Hlb4 x Hpos Hx k y); [lia|done]. }
      apply Hfinish.
      * eapply seg_perm_trans; eapply seg_perm_mono; [| |exact Hsp5| | |exact Hsp6]; lia.
      * rewrite (seg_perm_outside _ _ _ _ _ Hsp6) by lia.
        by rewrite (seg_perm_outside _ _ _ _ _ Hsp5) by lia.
      * done.
      * eapply sorted_seg_ext; [|done]. intros k Hk.
        apply (seg_perm_outside _ _ _ _ _ Hsp6). lia.
      * eapply (seg_forall_perm (λ x, less x p = true)); [done|lia..|].
        intros k x Hk. rewrite (seg_perm_outside _ _ _ _ _ Hsp5) by lia.
        apply Hlo4. lia.
      * intros k x Hk. rewrite (seg_perm_outside _ _ _ _ _ Hsp6) by lia.
        revert k x Hk.
        eapply (seg_forall_perm (λ x, less x p = false)); [done|lia..|].
        intros k x Hk. apply Hhi4. lia.
Qed.

(** [sort.Slice] returns, and what it returns is the input rearranged
    with no two elements out of order. *)
Lemma Slice_spec (l : list A) :
  ∃ l', GoSort.Slice less xorshift_Next l = Some l'
    ∧ l ≡ₚ l' ∧ sorted_seg l' 0 (length l').
Proof.
  unfold GoSort.Slice, GoSort.pdqsort_func. cbv zeta.
  destruct (pdqsort_loop_spec (S (length l - 0)) l 0 (length l)
              (GoSort.bits_Len (length l)) true true)
    as (l' & -> & Hsp & Hs); [lia..| |].
  { intros x ?. lia. }
  exists l'. split_and!; [done|by eapply seg_perm_Permutation|].
  by rewrite (seg_perm_length _ _ _ _ Hsp).
Qed.
End SortProofs.

(** ** Insertion sort keeps equal elements in order *)

Section SortStable.
Context {A : Type}.
Variable less : A → A → bool.
Variable xorshift_Next : N → N.
Variable P : A → Prop.
Context `{Pdec : !∀ x, Decision (P x)}.
(** [P] picks elements none of which is below another. *)
Hypothesis P_class : ∀ x y, P x → P y → less x y = false.

Lemma swap_adjacent_filter j : ∀ (l : list A) x y,
  l !! S j = Some x → l !! j = Some y → less x y = true →
  filter P (<[S j:=y]> (<[j:=x]> l)) = filter P l.
Proof.
  induction j as [|j IH]; intros l x y Hx Hy Hxy.
  - destruct l as [|y' [|x' l]]; simplify_eq/=.
    rewrite !filter_cons. repeat case_decide; try done.
    by rewrite (P_class x y) in Hxy.
  - destruct l as [|z l]; simplify_eq/=.
    rewrite !filter_cons. by rewrite (IH l x y).
Qed.

Lemma Less_Some_inv (l : list A) i j c :
  GoSort.Less less l i j = Some c →
  ∃ x y, l !! i = Some x ∧ l !! j = Some y ∧ c = less x y.
Proof.
  unfold GoSort.Less. intros Hrun.
  destruct (l !! i) as [x|]; [|done]. destruct (l !! j) as [y|]; [|done].
  simplify_eq/=. eauto.
Qed.

Lemma insertion_shift_filter j : ∀ (l l' : list A) a,
  GoSort.insertion_shift less a j l = Some l' → filter P l' = filter P l.
Proof.
  induction j as [|j IH]; intros l l' a Hrun; simpl in Hrun; [by simplify_eq|].
  case_decide; [|by simplify_eq].
  destruct (GoSort.Less less l (S j) j) as [c|] eqn:Hc; [|done].
  apply Less_Some_inv in Hc as (x & y & Hx & Hy & ->). simpl in Hrun.
  destruct (less x y) eqn:Hxy; [|by simplify_eq].
  unfold GoSort.Swap in Hrun. rewrite Hx, Hy in Hrun. simpl in Hrun.
  rewrite (IH _ _ _ Hrun). by apply swap_adjacent_filter.
Qed.

Lemma insertion_for_filter n : ∀ (l l' : list A) a i,
  for_up n i (GoSort.insertion_shift less a) l = Some l' →
  filter P l' = filter P l.
Proof.
  induction n as [|n IH]; intros l l' a i Hrun; simpl in Hrun; [by simplify_eq|].
  destruct (GoSort.insertion_shift less a i l) as [l1|] eqn:H1; [|done].
  simpl in Hrun. rewrite (IH _ _ _ _ Hrun). by eapply insertion_shift_filter.
Qed.

(** Up to [maxInsertion] elements [sort.Slice] is an insertion sort. *)
Lemma Slice_small_filter (l l' : list A) :
  length l ≤ GoSort.maxInsertion →
  GoSort.Slice less xorshift_Next l = Some l' → filter P l' = filter P l.
Proof.
  unfold GoSort.Slice, GoSort.pdqsort_func. cbn [GoSort.pdqsort_loop].
  intros Hlen. rewrite decide_True by lia.
  apply insertion_for_filter.
Qed.
End SortStable.

(** ** The order of the posts *)

Lemma After_irrefl t : After t t = false.
Proof. unfold After. by rewrite !Z.ltb_irrefl, Z.eqb_refl. Qed.

Lemma After_spec t u :
  After t u = true ↔ (sec u < sec t ∨ (sec t = sec u ∧ nsec u < nsec t))%Z.
Proof.
  unfold After. rewrite orb_true_iff, andb_true_iff, !Z.ltb_lt, Z.eqb_eq. done.
Qed.

Lemma After_false t u :
  After t u = false ↔ (sec t < sec u ∨ (sec t = sec u ∧ nsec t ≤ nsec u))%Z.
Proof.
  rewrite <-not_true_iff_false, After_spec. lia.
Qed.

Lemma Equal_spec t u : Equal t u = true ↔ instant t = instant u.
Proof.
  unfold Equal, instant. rewrite andb_true_iff, !Z.eqb_eq.
  split; [by intros [-> ->]|]. by intros [= -> ->].
Qed.

Lemma post_less_strict_weak : strict_weak post_less.
Proof.
  split; unfold post_less.
  - intros x. apply After_irrefl.
  - intros x y z. rewrite !After_spec. lia.
  - intros x y z. rewrite !After_false. lia.
Qed.

Lemma sort_posts_spec xorshift_Next (posts : list PostData) (w : World) :
  ∃ sorted, sort_posts xorshift_Next posts w = (Done sorted, w)
    ∧ posts ≡ₚ sorted
    ∧ sorted_seg post_less sorted 0 (length sorted).
Proof.
  unfold sort_posts.
  destruct (Slice_spec post_less xorshift_Next post_less_strict_weak posts)
    as (sorted & -> & Hp & Hs).
  by exists sorted.
Qed.

(** C1. For every list of loaded posts whose publication dates are pairwise
    distinct, the sort step of [main] returns the same posts in strictly
    descending date order, newest first; this list is the one handed on to
    the index page. *)
Theorem C1_sorted_newest_first xorshift_Next (posts : list PostData) (w : World) :
  NoDup (post_instant <$> posts) →
  ∃ sorted, sort_posts xorshift_Next posts w = (Done sorted, w)
    ∧ posts ≡ₚ sorted
    ∧ strictly_descending sorted
    ∧ strictly_descending (Posts (mkIndexData sorted "index")).
Proof.
  intros Hnd.
  destruct (sort_posts_spec xorshift_Next posts w) as (sorted & Hrun & Hp & Hs).
  assert (strictly_descending sorted) as Hdesc.
  { intros i j pi pj Hij Hi Hj.
    assert (NoDup (post_instant <$> sorted)) as Hnd' by (by rewrite <-Hp).
    pose proof (Hs i j pi pj ltac:(lia) Hij
                  ltac:(by eapply lookup_lt_Some) Hi Hj) as Hno.
    unfold post_less in Hno. apply After_false in Hno.
    apply After_spec.
    assert (post_instant pi ≠ post_instant pj) as Hne.
    { intros Heq.
      assert (i = j); [|lia].
      eapply (NoDup_lookup _ i j (post_instant pi) Hnd').
      - by rewrite list_lookup_fmap, Hi.
      - by rewrite list_lookup_fmap, Hj, Heq. }
    unfold post_instant, instant in Hne.
    destruct (decide (sec (Date (Metadata pi)) = sec (Date (Metadata pj))))
      as [Hsec|]; [|lia].
    destruct (decide (nsec (Date (Metadata pi)) = nsec (Date (Metadata pj))))
      as [Hnsec|]; [|lia].
    by rewrite Hsec, Hnsec in Hne. }
  exists sorted. by split_and!.
Qed.

Lemma C1_witness :
  ∃ sorted, sort_posts xorshift64 posts3 empty_world = (Done sorted, empty_world)
    ∧ posts3 ≡ₚ sorted
    ∧ strictly_descending sorted
    ∧ strictly_descending (Posts (mkIndexData sorted "index")).
Proof.
  apply (C1_sorted_newest_first xorshift64 posts3 empty_world).
  apply (bool_decide_unpack _). vm_compute. exact I.
Defined.

Lemma Equal_not_After (t u v : Time) :
  Equal t v = true → Equal u v = true → After t u = false.
Proof.
  rewrite !Equal_spec, After_false. unfold instant. intros [= -> ->] [= -> ->].
  lia.
Qed.

(** C4, as the code has it. For every list of at most twelve loaded posts
    the sort step keeps the posts of equal publication date in their
    discovery order: the posts published at any one instant are the same
    sequence before and after sorting. (Longer lists go through the
    quicksort of [sort.Slice], which moves equal elements past each other.) *)
Theorem C4_stable_up_to_twelve xorshift_Next (posts : list PostData) (w : World) :
  length posts ≤ 12 →
  ∃ sorted, sort_posts xorshift_Next posts w = (Done sorted, w)
    ∧ ∀ t, published_at t sorted = published_at t posts.
Proof.
  intros Hlen.
  destruct (sort_posts_spec xorshift_Next posts w) as (sorted & Hrun & _ & _).
  exists sorted. split; [done|]. intros t.
  unfold sort_posts in Hrun.
  destruct (GoSort.Slice post_less xorshift_Next posts) as [l|] eqn:Hs;
    [|done].
  injection Hrun as ->. unfold published_at.
  eapply (Slice_small_filter post_less xorshift_Next); [|done|done].
  intros x y Hx Hy. by eapply Equal_not_After.
Qed.

Lemma C4_witness :
  ∃ sorted,
    sort_posts xorshift64 posts4_ties empty_world = (Done sorted, empty_world)
    ∧ ∀ t, published_at t sorted = published_at t posts4_ties.
Proof.
  apply (C4_stable_up_to_twelve xorshift64 posts4_ties empty_world).
  vm_compute. lia.
Defined.

(** C4, as stated, fails: of thirteen posts, twelve published on January
    1st, the first one ends up behind five others of the same date. *)
Lemma C4_thirteen_posts_reordered :
  ∃ sorted,
    sort_posts xorshift64 posts13 empty_world = (Done sorted, empty_world)
    ∧ Slug ∘ Metadata <$> published_at jan1 posts13
      = ["a"; "b"; "c"; "d"; "e"; "f"; "g"; "i"; "j"; "k"; "l"; "m"]
    ∧ Slug ∘ Metadata <$> published_at jan1 sorted
      = ["g"; "c"; "d"; "e"; "f"; "a"; "b"; "i"; "j"; "k"; "l"; "m"]
    ∧ published_at jan1 sorted ≠ published_at jan1 posts13.
Proof.
  eexists. split_and!.
  - vm_compute. reflexivity.
  - vm_compute. reflexivity.
  - vm_compute. reflexivity.
  - vm_compute. discriminate.
Qed.

(** ** Strings *)

Lemma string_length_app (s t : string) :
  String.length (s +:+ t) = String.length s + String.length t.
Proof. induction s as [|c s IH]; simpl; [done|]. by rewrite IH. Qed.

Lemma substring_0_length (s : string) :
  String.substring 0 (String.length s) s = s.
Proof. induction s as [|c s IH]; simpl; [done|]. by rewrite IH. Qed.

Lemma substring_app_l (s t : string) :
  String.substring 0 (String.length s) (s +:+ t) = s.
Proof.
  induction s as [|c s IH]; simpl; [by destruct t|]. by rewrite IH.
Qed.

Lemma substring_app_r (s t : string) :
  String.substring (String.length s) (String.length t) (s +:+ t) = t.
Proof. induction s as [|c s IH]; simpl; [apply substring_0_length|done]. Qed.

Lemma substring_split (k : nat) : ∀ s : string,
  k ≤ String.length s →
  s = String.substring 0 k s +:+ String.substring k (String.length s - k) s.
Proof.
  induction k as [|k IH]; intros s Hk.
  - rewrite Nat.sub_0_r, substring_0_length. by destruct s.
  - destruct s as [|c s]; simpl in *; [lia|].
    change (String c s = String c (String.substring 0 k s
              +:+ String.substring k (String.length s - k) s)).
    f_equal. apply IH. lia.
Qed.

Lemma prefix_app (s t : string) : String.prefix s (s +:+ t) = true.
Proof.
  induction s as [|c s IH]; simpl; [by destruct t|].
  destruct (Ascii.ascii_dec c c); done.
Qed.

Lemma TrimPrefix_app (p s : string) : TrimPrefix (p +:+ s) p = s.
Proof.
  unfold TrimPrefix, HasPrefix. rewrite prefix_app, string_length_app.
  replace (String.length p + String.length s - String.length p)
    with (String.length s) by lia.
  apply substring_app_r.
Qed.

Lemma HasPrefix_split (s p : string) :
  HasPrefix s p = true → s = p +:+ TrimPrefix s p.
Proof.
  intros Hp. unfold TrimPrefix. rewrite Hp. unfold HasPrefix in Hp.
  pose proof (proj1 (String.prefix_correct p s) Hp) as Hsub.
  assert (String.length p ≤ String.length s) as Hlen.
  { clear Hsub. revert s Hp. induction p as [|c p IH]; intros [|d s] Hp;
      simpl in *; try done; try lia.
    destruct (Ascii.ascii_dec c d); [|done]. apply IH in Hp. lia. }
  transitivity (String.substring 0 (String.length p) s
                +:+ String.substring (String.length p)
                      (String.length s - String.length p) s);
    [by apply substring_split|by rewrite Hsub].
Qed.

Lemma HasSuffix_app (s t : string) : HasSuffix (s +:+ t) t = true.
Proof.
  unfold HasSuffix. rewrite string_length_app, bool_decide_eq_true_2 by lia.
  replace (String.length s + String.length t - String.length t)
    with (String.length s) by lia.
  rewrite substring_app_r. simpl. apply String.eqb_refl.
Qed.

Lemma TrimSuffix_app (s t : string) : TrimSuffix (s +:+ t) t = s.
Proof.
  unfold TrimSuffix. rewrite HasSuffix_app, string_length_app.
  replace (String.length s + String.length t - String.length t)
    with (String.length s) by lia.
  apply substring_app_l.
Qed.

Lemma HasSuffix_split (s t : string) :
  HasSuffix s t = true → s = TrimSuffix s t +:+ t.
Proof.
  intros Ht. unfold TrimSuffix. rewrite Ht. unfold HasSuffix in Ht.
  apply andb_true_iff in Ht as [Hlen Heq].
  apply bool_decide_eq_true in Hlen. apply String.eqb_eq in Heq.
  transitivity (String.substring 0 (String.length s - String.length t) s
                +:+ String.substring (String.length s - String.length t)
                      (String.length s
                       - (String.length s - String.length t)) s);
    [apply substring_split; lia|].
  replace (String.length s - (String.length s - String.length t))
    with (String.length t) by lia.
  by rewrite Heq.
Qed.

(** The slug of [posts/<name>.md] is [<name>]. *)
Lemma slug_of_filename (name : string) :
  slug_of ("posts/" +:+ name +:+ ".md") = name.
Proof.
  unfold slug_of. by rewrite (TrimPrefix_app "posts/"), TrimSuffix_app.
Qed.

(** What [filepath.Glob] matches is [posts/<slug>.md] for its slug. *)
Lemma glob_match_filename (filename : string) :
  glob_match filename = true →
  filename = "posts/" +:+ slug_of filename +:+ ".md".
Proof.
  unfold glob_match. rewrite !andb_true_iff. intros [[[Hp _] _] Hs].
  rewrite (HasPrefix_split _ _ Hp) at 1. unfold slug_of.
  by rewrite <-(HasSuffix_split _ _ Hs).
Qed.

(** ** Running a computation *)

Lemma bind_run {A B} (m : M A) (k : A → M B) (w : World) :
  (m ≫= k) w = match m w with
               | (Done a, w') => k a w'
               | (Panic v, w') => (Panic v, w')
               | (Exit c, w') => (Exit c, w')
               end.
Proof. reflexivity. Qed.

Lemma step_Done {A B} (m : M A) (k : A → M B) (w w1 : World) (a : A) :
  m w = (Done a, w1) → (m ≫= k) w = k a w1.
Proof. intros H. by rewrite bind_run, H. Qed.

Lemma step_Panic {A B} (m : M A) (k : A → M B) (w w1 : World) v :
  m w = (Panic v, w1) → (m ≫= k) w = (Panic v, w1).
Proof. intros H. by rewrite bind_run, H. Qed.

Lemma step_Exit {A B} (m : M A) (k : A → M B) (w w1 : World) c :
  m w = (Exit c, w1) → (m ≫= k) w = (Exit c, w1).
Proof. intros H. by rewrite bind_run, H. Qed.

Lemma bind_Done_inv {A B} (m : M A) (k : A → M B) (w w' : World) (b : B) :
  (m ≫= k) w = (Done b, w') →
  ∃ a w1, m w = (Done a, w1) ∧ k a w1 = (Done b, w').
Proof.
  rewrite bind_run. destruct (m w) as [[a|v|c] w1]; [eauto|done..].
Qed.

Lemma run_ret {A} (a : A) (w : World) : (mret a : M A) w = (Done a, w).
Proof. reflexivity. Qed.

Lemma run_log_Fatal {A} msg (w : World) :
  @log_Fatal A msg w = (Exit 1, mkWorld (fs w) (trace w ++ [EvLog msg])).
Proof. reflexivity. Qed.

Lemma run_fatal_on_None prefix (w : World) : fatal_on prefix None w = (Done tt, w).
Proof. reflexivity. Qed.

Lemma run_fatal_on_Some prefix e (w : World) :
  fatal_on prefix (Some e) w
  = (Exit 1, mkWorld (fs w) (trace w ++ [EvLog (prefix +:+ e)])).
Proof. reflexivity. Qed.

Lemma fatal_on_Done_inv prefix err (w w' : World) u :
  fatal_on prefix err w = (Done u, w') → err = None ∧ w' = w.
Proof. destruct err; [done|]. by intros [= _ ->]. Qed.

(** *** The operating system calls *)

Lemma run_RemoveAll path (w : World) :
  os_RemoveAll path w
  = (Done None, mkWorld (filter (λ kv, under path kv.1 = false) (fs w))
                  (trace w ++ [EvRemoveAll path])).
Proof. reflexivity. Qed.

Lemma run_MkdirAll path (w : World) :
  os_MkdirAll path w
  = match mkdirAll (ancestors_of (components path) "") (fs w) with
    | inr e => (Done (Some e), mkWorld (fs w) (trace w ++ [EvMkdirAll path]))
    | inl m' => (Done None, mkWorld m' (trace w ++ [EvMkdirAll path]))
    end.
Proof. unfold os_MkdirAll. run_unfold. by destruct (mkdirAll _ _). Qed.

Lemma run_Mkdir path (w : World) :
  os_Mkdir path w
  = match fs w !! path with
    | Some _ =>
        (Done (Some ("mkdir " +:+ path +:+ ": file exists")),
         mkWorld (fs w) (trace w ++ [EvMkdir path]))
    | None =>
        match parent_status (fs w) path with
        | Some e =>
            (Done (Some ("mkdir " +:+ path +:+ ": " +:+ e)),
             mkWorld (fs w) (trace w ++ [EvMkdir path]))
        | None =>
            (Done None,
             mkWorld (<[path:=Dir]> (fs w)) (trace w ++ [EvMkdir path]))
        end
    end.
Proof.
  unfold os_Mkdir. run_unfold. destruct (fs w !! path); [done|].
  by destruct (parent_status _ _).
Qed.

Lemma run_Open path (w : World) :
  os_Open path w
  = (Done (if fs w !! path is Some _ then (path, None)
           else ("", Some ("open " +:+ path +:+ ": no such file or directory"))),
     mkWorld (fs w) (trace w ++ [EvOpen path])).
Proof. unfold os_Open. run_unfold. by destruct (fs w !! path). Qed.

Lemma run_Create path (w : World) :
  os_Create path w
  = match parent_status (fs w) path with
    | Some e =>
        (Done ("", Some ("open " +:+ path +:+ ": " +:+ e)),
         mkWorld (fs w) (trace w ++ [EvCreate path]))
    | None =>
        match fs w !! path with
        | Some Dir =>
            (Done ("", Some ("open " +:+ path +:+ ": is a directory")),
             mkWorld (fs w) (trace w ++ [EvCreate path]))
        | _ =>
            (Done (path, None),
             mkWorld (<[path:=File ""]> (fs w)) (trace w ++ [EvCreate path]))
        end
    end.
Proof.
  unfold os_Create. run_unfold. destruct (parent_status _ _); [done|].
  by destruct (fs w !! path) as [[]|].
Qed.

Lemma run_ReadAll f (w : World) :
  io_ReadAll f w
  = (Done match fs w !! f with
          | Some (File c) => (c, None)
          | Some Dir => ("", Some ("read " +:+ f +:+ ": is a directory"))
          | None => ("", Some ("read " +:+ f +:+ ": file already closed"))
          end, w).
Proof.
  unfold io_ReadAll. run_unfold. destruct w as [m t]. simpl.
  by destruct (m !! f) as [[]|].
Qed.

Lemma run_Write f data (w : World) :
  file_Write f data w
  = match fs w !! f with
    | Some (File c) =>
        (Done None,
         mkWorld (<[f:=File (c +:+ data)]> (fs w)) (trace w ++ [EvWrite f]))
    | _ =>
        (Done (Some ("write " +:+ f +:+ ": bad file descriptor")),
         mkWorld (fs w) (trace w ++ [EvWrite f]))
    end.
Proof. unfold file_Write. run_unfold. by destruct (fs w !! f) as [[]|]. Qed.

Lemma run_Copy dst src (w : World) :
  io_Copy dst src w
  = match fs w !! src with
    | Some (File c) => file_Write dst c w
    | Some Dir => (Done (Some ("read " +:+ src +:+ ": is a directory")), w)
    | None => (Done (Some ("read " +:+ src +:+ ": file already closed")), w)
    end.
Proof.
  unfold io_Copy. erewrite step_Done by apply run_ReadAll.
  by destruct (fs w !! src) as [[]|].
Qed.

(** *** The output directory is recreated *)

Lemma clear_public_lookup (m : gmap string node) k :
  clear_public m !! k = if under "public" k then None else m !! k.
Proof.
  unfold clear_public. destruct (under "public" k) eqn:Hu.
  - apply map_lookup_filter_None_2. right. intros x _. simpl. by rewrite Hu.
  - destruct (m !! k) as [x|] eqn:Hk.
    + by apply map_lookup_filter_Some_2.
    + apply map_lookup_filter_None_2. by left.
Qed.

Lemma setup_fs_lookup (m : gmap string node) k :
  setup_fs m !! k =
    if decide (k = "public/posts") then Some Dir
    else if decide (k = "public") then Some Dir
    else if under "public" k then None else m !! k.
Proof.
  unfold setup_fs. rewrite !lookup_insert, clear_public_lookup.
  repeat case_decide; simplify_eq; done.
Qed.

Lemma setup_fs_outside (m : gmap string node) k :
  under "public" k = false → setup_fs m !! k = m !! k.
Proof.
  intros Hu. rewrite setup_fs_lookup, Hu.
  repeat case_decide; simplify_eq; done.
Qed.

Lemma run_RemoveAll_public (w : World) :
  os_RemoveAll "public" w
  = (Done None, mkWorld (clear_public (fs w))
                  (trace w ++ [EvRemoveAll "public"])).
Proof. reflexivity. Qed.

Lemma run_MkdirAll_public (w : World) :
  fs w !! "public" = None →
  os_MkdirAll "public" w
  = (Done None, mkWorld (<["public":=Dir]> (fs w))
                  (trace w ++ [EvMkdirAll "public"])).
Proof.
  intros Hp. rewrite run_MkdirAll.
  change (ancestors_of (components "public") "") with ["public"].
  simpl. by rewrite Hp.
Qed.

Lemma run_Mkdir_posts (w : World) :
  fs w !! "public/posts" = None → fs w !! "public" = Some Dir →
  os_Mkdir "public/posts" w
  = (Done None, mkWorld (<["public/posts":=Dir]> (fs w))
                  (trace w ++ [EvMkdir "public/posts"])).
Proof.
  intros Hposts Hp. rewrite run_Mkdir, Hposts. unfold parent_status.
  change (dirname "public/posts") with "public". simpl. by rewrite Hp.
Qed.

(** *** Discovering the posts *)

Lemma run_Glob (w : World) :
  filepath_Glob_posts w
  = (Done (glob_posts (fs w), None),
     mkWorld (fs w) (trace w ++ [EvGlob "posts/*.md"])).
Proof.
  unfold glob_posts, filepath_Glob_posts. run_unfold.
  by destruct (fs w !! "posts") as [[]|].
Qed.

Lemma elem_of_glob_posts (m : gmap string node) f :
  f ∈ glob_posts m ↔ discovered m f.
Proof.
  unfold glob_posts, filepath_Glob_posts, discovered. run_unfold.
  destruct (m !! "posts") as [[]|]; cbn [fst];
    [rewrite elem_of_nil; split; [done|by intros [[=] _]]|
    |rewrite elem_of_nil; split; [done|by intros [[=] _]]].
  rewrite merge_sort_Permutation, list_elem_of_filter, list_elem_of_fmap.
  split.
  - intros (Hm & [k n] & -> & Hin). apply elem_of_map_to_list in Hin.
    split_and!; [done|done|by eexists].
  - intros (_ & Hm & [n Hn]). split; [done|]. exists (f, n).
    split; [done|]. by apply elem_of_map_to_list.
Qed.

Lemma discovered_filename (m : gmap string node) f :
  discovered m f → f = post_source f.
Proof. intros (_ & Hm & _). by apply glob_match_filename. Qed.

Lemma run_Read slug (w : World) :
  Read slug w
  = (Done match fs w !! ("posts/" +:+ slug +:+ ".md") with
          | Some (File c) => (c, None)
          | Some Dir =>
              ("", Some ("read " +:+ ("posts/" +:+ slug +:+ ".md")
                         +:+ ": is a directory"))
          | None =>
              ("", Some ("open " +:+ ("posts/" +:+ slug +:+ ".md")
                         +:+ ": no such file or directory"))
          end,
     mkWorld (fs w) (trace w ++ [EvOpen ("posts/" +:+ slug +:+ ".md")])).
Proof.
  unfold Read. erewrite step_Done by apply run_Open.
  destruct (fs w !! ("posts/" +:+ slug +:+ ".md")) as [n|] eqn:Hf; [|done].
  erewrite step_Done by apply run_ReadAll. cbn [fs]. rewrite Hf.
  by destruct n.
Qed.

Lemma under_public_posts x : under "public" ("posts/" +:+ x) = false.
Proof. reflexivity. Qed.

Lemma public_contents_after_copy (m : gmap string node) k (o : option node) :
  under "public" k = true →
  is_Some ((match o with Some n => <["public/style.css":=n]> (setup_fs m)
            | None => setup_fs m end) !! k) →
  k = "public" ∨ k = "public/posts" ∨ k = "public/style.css".
Proof.
  intros Hu. destruct o; [rewrite lookup_insert|];
    rewrite setup_fs_lookup, Hu; repeat case_decide; simplify_eq;
    rewrite ?is_Some_alt; tauto.
Qed.

Lemma run_ReadFile name (w : World) :
  os_ReadFile name w
  = (Done match fs w !! name with
          | Some (File c) => (c, None)
          | Some Dir => ("", Some ("read " +:+ name +:+ ": is a directory"))
          | None =>
              ("", Some ("open " +:+ name +:+ ": no such file or directory"))
          end,
     mkWorld (fs w) (trace w ++ [EvOpen name])).
Proof.
  unfold os_ReadFile. erewrite step_Done by apply run_Open.
  destruct (fs w !! name) as [n|] eqn:Hf; [|done].
  cbv beta iota. rewrite run_ReadAll. cbn [fs]. rewrite Hf. by destruct n.
Qed.

Section BuildProofs.
Variable frontmatter_Parse : string → (string * PostMetadata) + error.
Variable md_Convert : string → string + error.
Variable Template : Type.
Variable template_Parse : option Template → string → string → Template + error.
Variable template_Execute : Template → TemplateData → string * option error.
Variable xorshift_Next : N → N.

Abbreviation main_ :=
  (main frontmatter_Parse md_Convert Template template_Parse template_Execute
     xorshift_Next).
Abbreviation main_copy_ :=
  (main_copy frontmatter_Parse md_Convert Template template_Parse
     template_Execute xorshift_Next).
Abbreviation main_load_ :=
  (main_load frontmatter_Parse md_Convert Template template_Parse
     template_Execute xorshift_Next).
Abbreviation main_render_ :=
  (main_render Template template_Parse template_Execute).

Lemma main_setup (w : World) :
  main_ w = main_copy_ (mkWorld (setup_fs (fs w)) (trace w ++ setup_events)).
Proof.
  unfold main.
  erewrite step_Done by apply run_RemoveAll_public.
  erewrite step_Done by apply run_fatal_on_None.
  erewrite step_Done.
  2:{ apply run_MkdirAll_public. cbn [fs].
      by rewrite (clear_public_lookup (fs w) "public"). }
  erewrite step_Done by apply run_fatal_on_None.
  erewrite step_Done.
  2:{ apply run_Mkdir_posts; cbn [fs].
      - rewrite lookup_insert_ne by done.
        by rewrite (clear_public_lookup (fs w) "public/posts").
      - by rewrite lookup_insert_eq. }
  erewrite step_Done by apply run_fatal_on_None.
  simpl. unfold setup_events. by rewrite <-!app_assoc.
Qed.

(** The copy of the stylesheet, in the world the first steps leave. *)
Lemma run_copyFile_setup (m : gmap string node) (t : list event) :
  copyFile "static/style.css" "public/style.css" (mkWorld (setup_fs m) t)
  = match m !! "static/style.css" with
    | None =>
        (Done (Some "open static/style.css: no such file or directory"),
         mkWorld (setup_fs m) (t ++ [EvOpen "static/style.css"]))
    | Some Dir =>
        (Done (Some "read static/style.css: is a directory"),
         mkWorld (<["public/style.css":=File ""]> (setup_fs m))
           (t ++ [EvOpen "static/style.css"; EvCreate "public/style.css"]))
    | Some (File c) =>
        (Done None,
         mkWorld (<["public/style.css":=File c]> (setup_fs m))
           (t ++ [EvOpen "static/style.css"; EvCreate "public/style.css";
                  EvWrite "public/style.css"]))
    end.
Proof.
  unfold copyFile.
  erewrite step_Done by apply run_Open. cbn [fs trace].
  rewrite (setup_fs_outside m "static/style.css") by done.
  destruct (m !! "static/style.css") as [n|] eqn:Hsrc; [|done].
  erewrite step_Done.
  2:{ rewrite run_Create. unfold parent_status.
      change (dirname "public/style.css") with "public". cbn [fs trace].
      rewrite (setup_fs_lookup m "public"), (setup_fs_lookup m "public/style.css").
      simpl. reflexivity. }
  cbn [fs trace].
  destruct n as [c|].
  - erewrite step_Done.
    2:{ rewrite run_Copy. cbn [fs trace]. rewrite lookup_insert_ne by done.
        rewrite (setup_fs_outside m "static/style.css") by done. rewrite Hsrc.
        rewrite run_Write. cbn [fs trace]. rewrite lookup_insert_eq.
        reflexivity. }
    cbv beta iota. rewrite run_ret. change ("" +:+ c) with c.
    by rewrite insert_insert_eq, <-!app_assoc.
  - erewrite step_Done.
    2:{ rewrite run_Copy. cbn [fs trace]. rewrite lookup_insert_ne by done.
        rewrite (setup_fs_outside m "static/style.css") by done. rewrite Hsrc.
        reflexivity. }
    cbv beta iota. rewrite run_ret. by rewrite <-!app_assoc.
Qed.

(** C7, as the code has it. If the copy of the stylesheet fails, [main]
    exits with status 1 having neither read a post nor rendered a page;
    the output directory and its [posts] subdirectory are there, and the
    output directory holds nothing else, except that a stylesheet source
    that exists but cannot be read (a directory) leaves the destination
    [public/style.css] behind, created and empty. *)
Theorem C7_failed_copy_leaves_no_pages (w : World) e w1 :
  copyFile "static/style.css" "public/style.css"
    (mkWorld (setup_fs (fs w)) (trace w ++ setup_events))
  = (Done (Some e), w1) →
  ∃ w', main_ w = (Exit 1, w')
    ∧ (∃ evs, trace w' = trace w ++ evs
         ∧ Forall (λ ev, ¬ reads_or_renders ev) evs)
    ∧ fs w' !! "public" = Some Dir
    ∧ fs w' !! "public/posts" = Some Dir
    ∧ ∀ k, under "public" k = true → k ≠ "public" → k ≠ "public/posts" →
        fs w' !! k =
          if decide (k = "public/style.css"
                     ∧ is_Some (fs w !! "static/style.css"))
          then Some (File "") else None.
Proof.
  intros Hcopy. rewrite main_setup. unfold main_copy.
  rewrite run_copyFile_setup in Hcopy.
  destruct (fs w !! "static/style.css") as [[c|]|] eqn:Hsrc;
    [done| |]; injection Hcopy as <- <-.
  - erewrite step_Done by (rewrite run_copyFile_setup, Hsrc; reflexivity).
    erewrite step_Exit by apply run_fatal_on_Some.
    eexists. split; [done|]. cbn [fs trace]. split_and!.
    + eexists. rewrite <-!app_assoc. split; [done|].
      repeat constructor; simpl; try tauto. by intros [=].
    + rewrite lookup_insert_ne by done. by rewrite setup_fs_lookup.
    + rewrite lookup_insert_ne by done. by rewrite setup_fs_lookup.
    + intros k Hu Hk1 Hk2. rewrite lookup_insert, setup_fs_lookup, Hu.
      repeat case_decide; simplify_eq; try done; destruct_and?;
        simplify_eq; try done.
      exfalso. eauto.
  - erewrite step_Done by (rewrite run_copyFile_setup, Hsrc; reflexivity).
    erewrite step_Exit by apply run_fatal_on_Some.
    eexists. split; [done|]. cbn [fs trace]. split_and!.
    + eexists. rewrite <-!app_assoc. split; [done|].
      repeat constructor; simpl; try tauto. by intros [=].
    + by rewrite setup_fs_lookup.
    + by rewrite setup_fs_lookup.
    + intros k Hu Hk1 Hk2. rewrite setup_fs_lookup, Hu.
      repeat case_decide; simplify_eq; try done.
      destruct_and?. by destruct (is_Some_None (A:=node)).
Qed.

(** *** Discovering and loading the posts *)

(** One round of the loop of [getAllpostData]. *)
Lemma getAllpostData_loop_cons f filenames posts (w : World) :
  let w1 := mkWorld (fs w) (trace w ++ [EvOpen (post_source f)]) in
  getAllpostData_loop frontmatter_Parse md_Convert (f :: filenames) posts w
  = match fs w !! post_source f with
    | Some (File c) =>
        match frontmatter_Parse c with
        | inl (rest, meta) =>
            match md_Convert rest with
            | inl buf =>
                getAllpostData_loop frontmatter_Parse md_Convert filenames
                  (posts ++ [set_Slug (set_Content (mkPostData meta "" "") buf)
                               (slug_of f)]) w1
            | inr e =>
                (Done (posts,
                       Some ("Markdown to html convert error: " +:+ e)), w1)
            end
        | inr e => (Done (posts, Some ("post parse error: " +:+ e)), w1)
        end
    | Some Dir =>
        (Done (posts, Some ("post Read error: "
                            +:+ ("read " +:+ post_source f
                                 +:+ ": is a directory"))), w1)
    | None =>
        (Done (posts, Some ("post Read error: "
                            +:+ ("open " +:+ post_source f
                                 +:+ ": no such file or directory"))), w1)
    end.
Proof.
  intros w1. cbn [getAllpostData_loop]. cbv zeta.
  erewrite step_Done by apply run_Read. fold (slug_of f). fold (post_source f).
  fold w1.
  destruct (fs w !! post_source f) as [[c|]|]; [|done..].
  cbv beta iota. unfold getpostData.
  destruct (frontmatter_Parse c) as [[rest meta]|e]; [|done].
  cbv beta iota. by destruct (md_Convert rest).
Qed.

Lemma getAllpostData_loop_slugs filenames : ∀ posts0 (w w' : World) posts,
  getAllpostData_loop frontmatter_Parse md_Convert filenames posts0 w
  = (Done (posts, None), w') →
  ∃ loaded, posts = posts0 ++ loaded
    ∧ Slug ∘ Metadata <$> loaded = slug_of <$> filenames.
Proof.
  induction filenames as [|f filenames IH]; intros posts0 w w' posts Hrun.
  - injection Hrun as <- <-. exists []. by rewrite app_nil_r.
  - rewrite getAllpostData_loop_cons in Hrun.
    destruct (fs w !! post_source f) as [[c|]|]; [|done..].
    destruct (frontmatter_Parse c) as [[rest meta]|e]; [|done].
    destruct (md_Convert rest) as [buf|e]; [|done].
    apply IH in Hrun as (loaded & -> & Hslugs).
    eexists (_ :: loaded). split; [by rewrite <-app_assoc|].
    by rewrite fmap_cons, Hslugs.
Qed.

Lemma getAllpostData_loop_fails filenames : ∀ posts (w : World) f,
  f ∈ filenames → post_fails frontmatter_Parse md_Convert (fs w) f →
  ∃ posts' e evs,
    getAllpostData_loop frontmatter_Parse md_Convert filenames posts w
    = (Done (posts', Some e), mkWorld (fs w) (trace w ++ evs))
    ∧ Forall (λ ev, ∃ path, ev = EvOpen path) evs.
Proof.
  induction filenames as [|f0 filenames IH]; intros posts w f Hin Hfail.
  { by apply elem_of_nil in Hin. }
  rewrite getAllpostData_loop_cons.
  assert (Hopen : Forall (λ ev, ∃ path, ev = EvOpen path)
                    [EvOpen (post_source f0)]) by (repeat constructor; eauto).
  destruct (fs w !! post_source f0) as [[c|]|] eqn:Hsrc; [|by eauto 10..].
  destruct (frontmatter_Parse c) as [[rest meta]|e] eqn:Hfm; [|by eauto 10].
  destruct (md_Convert rest) as [buf|e] eqn:Hmd; [|by eauto 10].
  apply elem_of_cons in Hin as [->|Hin].
  { unfold post_fails in Hfail. by rewrite Hsrc, Hfm, Hmd in Hfail. }
  edestruct (IH (posts ++ [set_Slug (set_Content (mkPostData meta "" "") buf)
                             (slug_of f0)])
               (mkWorld (fs w) (trace w ++ [EvOpen (post_source f0)])) f)
    as (posts' & e & evs & -> & Hevs); [done..|].
  cbn [fs trace]. eexists posts', e, (_ :: evs).
  split; [by rewrite <-app_assoc|]. by constructor; eauto.
Qed.

Lemma run_getAllpostData (w : World) :
  getAllpostData frontmatter_Parse md_Convert w
  = getAllpostData_loop frontmatter_Parse md_Convert (glob_posts (fs w)) []
      (mkWorld (fs w) (trace w ++ [EvGlob "posts/*.md"])).
Proof.
  unfold getAllpostData. erewrite step_Done by apply run_Glob.
  cbv beta iota. by erewrite step_Done by apply run_ret.
Qed.

Lemma getAllpostData_slugs (w w' : World) (posts : list PostData) :
  getAllpostData frontmatter_Parse md_Convert w = (Done (posts, None), w') →
  Slug ∘ Metadata <$> posts = slug_of <$> glob_posts (fs w).
Proof.
  rewrite run_getAllpostData. intros Hrun.
  apply getAllpostData_loop_slugs in Hrun as (loaded & -> & Hslugs).
  by rewrite app_nil_l.
Qed.

(** C3. Whatever the front-matter block says, and so whatever slug it
    carries, the records [getAllpostData] returns have the slugs derived
    from the names of the discovered files, in the order of discovery. *)
Theorem C3_slug_from_filename (w w' : World) (posts : list PostData) :
  getAllpostData frontmatter_Parse md_Convert w = (Done (posts, None), w') →
  Slug ∘ Metadata <$> posts = slug_of <$> glob_posts (fs w)
  ∧ Forall2 (λ f p, f = "posts/" +:+ Slug (Metadata p) +:+ ".md")
      (glob_posts (fs w)) posts.
Proof.
  intros Hrun. apply getAllpostData_slugs in Hrun as Hslugs.
  split; [done|].
  assert (Forall (discovered (fs w)) (glob_posts (fs w))) as Hdisc.
  { apply Forall_forall. intros f. apply elem_of_glob_posts. }
  clear Hrun. revert posts Hslugs. induction Hdisc as [|f fs' Hf _ IH];
    intros [|p posts] Hslugs; simplify_eq/=; constructor; [|by apply IH].
  apply discovered_filename in Hf. unfold post_source in Hf. congruence.
Qed.

(** C6. If one of the discovered posts fails at a load step (it cannot be
    read, its front matter does not parse, or its body does not convert),
    [main] exits with status 1 without having rendered any page: nothing
    is created or executed but the stylesheet copy, and the output
    directory holds at most its [posts] subdirectory and the stylesheet. *)
Theorem C6_failing_post_aborts_build (w : World) (f : string) :
  discovered (fs w) f →
  post_fails frontmatter_Parse md_Convert (fs w) f →
  ∃ w', main_ w = (Exit 1, w')
    ∧ (∃ evs, trace w' = trace w ++ evs ∧ Forall (λ ev, ¬ renders ev) evs)
    ∧ ∀ k, under "public" k = true → is_Some (fs w' !! k) →
        k = "public" ∨ k = "public/posts" ∨ k = "public/style.css".
Proof.
  intros Hdisc Hfail. rewrite main_setup. unfold main_copy.
  assert (Hsetup : Forall (λ ev, ¬ renders ev) setup_events).
  { repeat constructor; simpl; tauto. }
  destruct (fs w !! "static/style.css") as [[c|]|] eqn:Hsrc;
    (erewrite step_Done by (rewrite run_copyFile_setup, Hsrc; reflexivity)).
  - erewrite step_Done by apply run_fatal_on_None.
    unfold main_load. rewrite bind_run, run_getAllpostData. cbn [fs trace].
    edestruct (getAllpostData_loop_fails (glob_posts
                 (<["public/style.css":=File c]> (setup_fs (fs w)))) []
               (mkWorld (<["public/style.css":=File c]> (setup_fs (fs w)))
                  (((trace w ++ setup_events)
                    ++ [EvOpen "static/style.css"; EvCreate "public/style.css";
                        EvWrite "public/style.css"])
                   ++ [EvGlob "posts/*.md"])) f)
      as (posts' & e & evs & -> & Hevs).
    { apply elem_of_glob_posts. destruct Hdisc as (Hdir & Hm & Hfile).
      pose proof (glob_match_filename f Hm) as Hname.
      split_and!; [|done|].
      - rewrite lookup_insert_ne by done. by rewrite setup_fs_outside.
      - rewrite lookup_insert_ne by (rewrite Hname; done).
        rewrite setup_fs_outside; [done|]. rewrite Hname.
        apply under_public_posts. }
    { unfold post_fails in *. cbn [fs].
      rewrite lookup_insert_ne by done.
      by rewrite setup_fs_outside by apply under_public_posts. }
    cbv beta iota. erewrite step_Exit by apply run_fatal_on_Some.
    eexists. split; [done|]. cbn [fs trace]. split.
    + eexists. rewrite <-!app_assoc. split; [done|].
      rewrite !Forall_app. split_and!; [done| | | |].
      * repeat constructor; simpl; tauto.
      * repeat constructor; simpl; tauto.
      * eapply Forall_impl; [done|]. intros ev [path ->]. simpl. tauto.
      * repeat constructor; simpl; tauto.
    + intros k. apply (public_contents_after_copy (fs w) k (Some (File c))).
  - erewrite step_Exit by apply run_fatal_on_Some.
    eexists. split; [done|]. cbn [fs trace]. split.
    + eexists. rewrite <-!app_assoc. split; [done|].
      rewrite !Forall_app. split_and!; [done|..];
        repeat constructor; simpl; tauto.
    + intros k. apply (public_contents_after_copy (fs w) k (Some (File ""))).
  - erewrite step_Exit by apply run_fatal_on_Some.
    eexists. split; [done|]. cbn [fs trace]. split.
    + eexists. rewrite <-!app_assoc. split; [done|].
      rewrite !Forall_app. split_and!; [done|..];
        repeat constructor; simpl; tauto.
    + intros k. apply (public_contents_after_copy (fs w) k None).
Qed.

(** *** Loading the templates *)

Lemma template_parseFiles_cons t f files (w : World) :
  let w1 := mkWorld (fs w) (trace w ++ [EvOpen f]) in
  template_parseFiles Template template_Parse t (f :: files) w
  = match fs w !! f with
    | Some (File c) =>
        match template_Parse t (Base f) c with
        | inl t' => template_parseFiles Template template_Parse (Some t') files w1
        | inr e => (Done (None, Some e), w1)
        end
    | Some Dir =>
        (Done (None, Some ("read " +:+ f +:+ ": is a directory")), w1)
    | None =>
        (Done (None, Some ("open " +:+ f +:+ ": no such file or directory")),
         w1)
    end.
Proof.
  intros w1. cbn [template_parseFiles].
  erewrite step_Done by apply run_ReadFile. fold w1.
  destruct (fs w !! f) as [[c|]|]; [|done..].
  cbv beta iota. by destruct (template_Parse t (Base f) c).
Qed.

Lemma template_parseFiles_broken files : ∀ t (w : World),
  template_broken Template template_Parse (fs w) t files →
  ∃ e evs,
    template_parseFiles Template template_Parse t files w
    = (Done (None, Some e), mkWorld (fs w) (trace w ++ evs))
    ∧ Forall (λ ev, ∃ path, ev = EvOpen path) evs.
Proof.
  intros t w Hbroken. remember (fs w) as m eqn:Hm.
  revert w Hm. induction Hbroken as [t f files Hmiss|t f files c e Hf He
    |t f files c t' Hf Ht' _ IH]; intros w ->;
    rewrite template_parseFiles_cons.
  - destruct (fs w !! f) as [[c|]|] eqn:Hf.
    + destruct Hmiss. by exists c.
    + eexists _, [_]. split; [done|]. repeat constructor. eauto.
    + eexists _, [_]. split; [done|]. repeat constructor. eauto.
  - rewrite Hf, He. eexists _, [_]. split; [done|]. repeat constructor. eauto.
  - rewrite Hf, Ht'.
    destruct (IH (mkWorld (fs w) (trace w ++ [EvOpen f])) eq_refl)
      as (e & evs & -> & Hevs).
    cbn [fs trace]. eexists e, (_ :: evs).
    split; [by rewrite <-app_assoc|]. constructor; eauto.
Qed.

Lemma missing_template_broken (m : gmap string node) f files : ∀ t,
  f ∈ files → ¬ is_file m f →
  template_broken Template template_Parse m t files.
Proof.
  induction files as [|f0 files IH]; intros t Hin Hmiss.
  { by apply elem_of_nil in Hin. }
  destruct (m !! f0) as [[c|]|] eqn:Hf0.
  - destruct (template_Parse t (Base f0) c) as [t'|e] eqn:Hparse.
    + eapply broken_later; [done..|]. apply IH; [|done].
      apply elem_of_cons in Hin as [->|]; [|done].
      destruct Hmiss. by exists c.
    + by eapply broken_syntax.
  - apply broken_missing. intros [c Hc]. congruence.
  - apply broken_missing. intros [c Hc]. congruence.
Qed.

Lemma render_unfold l postsData :
  ∃ k, render Template template_Parse template_Execute l postsData
       = (r ← template_ParseFiles Template template_Parse (layout_files l);
          tpl ← template_Must Template r; k tpl).
Proof. destruct l; eexists; reflexivity. Qed.

End BuildProofs.

Lemma C7_witness :
  ∃ w', toy_main stylesheet_missing_world = (Exit 1, w')
    ∧ (∃ evs, trace w' = trace stylesheet_missing_world ++ evs
         ∧ Forall (λ ev, ¬ reads_or_renders ev) evs)
    ∧ fs w' !! "public" = Some Dir
    ∧ fs w' !! "public/posts" = Some Dir
    ∧ ∀ k, under "public" k = true → k ≠ "public" → k ≠ "public/posts" →
        fs w' !! k =
          if decide (k = "public/style.css"
                     ∧ is_Some (fs stylesheet_missing_world
                                  !! "static/style.css"))
          then Some (File "") else None.
Proof.
  eapply (C7_failed_copy_leaves_no_pages toy_frontmatter toy_markdown
            (list string) toy_parse toy_execute xorshift64
            stylesheet_missing_world).
  vm_compute. reflexivity.
Defined.

(** C7, as stated, fails: with a directory in the place of the stylesheet
    the copy fails and [main] exits, yet the output directory is not left
    empty but for [posts]: it holds the created, empty [public/style.css]. *)
Lemma C7_unreadable_stylesheet_leaves_file :
  (toy_main stylesheet_dir_world).1 = Exit 1
  ∧ last (trace (toy_main stylesheet_dir_world).2)
    = Some (EvLog "Error copying styles: read static/style.css: is a directory")
  ∧ fs (toy_main stylesheet_dir_world).2 !! "public/style.css"
    = Some (File "")
  ∧ fs (toy_main stylesheet_dir_world).2 !! "public/posts" = Some Dir.
Proof. vm_compute. done. Qed.

(** ** What a computation may change *)

Section Effects.
Variable F : World → World → Prop.
Hypothesis F_refl : ∀ w, F w w.
Hypothesis F_trans : ∀ w1 w2 w3, F w1 w2 → F w2 w3 → F w1 w3.

Lemma eff_ret {A} (Q : A → Prop) (a : A) : Q a → effects F Q (mret a : M A).
Proof. intros Ha w. split; [apply F_refl|]. by intros a' [= <-]. Qed.

Lemma eff_bind {A B} (Q : A → Prop) (R : B → Prop) (m : M A) (k : A → M B) :
  effects F Q m → (∀ a, Q a → effects F R (k a)) → effects F R (m ≫= k).
Proof.
  intros Hm Hk w. rewrite bind_run. destruct (Hm w) as [HF HQ].
  destruct (m w) as [[a|v|c] w1]; cbn [fst snd] in *; [|done..].
  destruct (Hk a (HQ a eq_refl) w1) as [HF' HR].
  split; [by eapply F_trans|done].
Qed.

Lemma eff_weaken {A} (Q Q' : A → Prop) (m : M A) :
  (∀ a, Q a → Q' a) → effects F Q m → effects F Q' m.
Proof. intros HQ Hm w. destruct (Hm w). naive_solver. Qed.

Lemma eff_panic {A} (Q : A → Prop) v : effects F Q (panic v : M A).
Proof. intros w. split; [apply F_refl|done]. Qed.

Lemma eff_same {A} (Q : A → Prop) (m : M A) :
  (∀ w, (m w).2 = w) → (∀ w a, (m w).1 = Done a → Q a) → effects F Q m.
Proof. intros Hw HQ w. rewrite Hw. split; [apply F_refl|apply HQ]. Qed.
End Effects.

Section Bounded.
Variable P : event → Prop.
(** [P] holds of every event that is not a template execution. *)
Hypothesis P_other : ∀ e, (∀ f d, e ≠ EvExecute f d) → P e.

Lemma bounded_refl (w : World) : bounded P w w.
Proof.
  split; [done|]. exists []. by rewrite app_nil_r.
Qed.

Lemma bounded_trans (w1 w2 w3 : World) :
  bounded P w1 w2 → bounded P w2 w3 → bounded P w1 w3.
Proof.
  intros [Hf1 (evs1 & Ht1 & HP1)] [Hf2 (evs2 & Ht2 & HP2)]. split.
  - intros k Hk. by rewrite Hf2, Hf1.
  - exists (evs1 ++ evs2). split; [|by apply Forall_app].
    by rewrite Ht2, Ht1, app_assoc.
Qed.

Lemma bounded_step (w : World) (m' : gmap string node) (e : event) :
  (∀ k, under "public" k = false → m' !! k = fs w !! k) → P e →
  bounded P w (mkWorld m' (trace w ++ [e])).
Proof.
  intros Hm He. split; [done|]. exists [e]. split; [done|]. by constructor.
Qed.

Lemma insert_public_frame (m : gmap string node) path n k :
  under "public" path = true → under "public" k = false →
  <[path:=n]> m !! k = m !! k.
Proof. intros Hp Hk. apply lookup_insert_ne. congruence. Qed.

Lemma effects_ret {A} (Q : A → Prop) (a : A) :
  Q a → effects (bounded P) Q (mret a : M A).
Proof. apply eff_ret, bounded_refl. Qed.

Lemma effects_bind {A B} (Q : A → Prop) (R : B → Prop) (m : M A)
    (k : A → M B) :
  effects (bounded P) Q m → (∀ a, Q a → effects (bounded P) R (k a)) →
  effects (bounded P) R (m ≫= k).
Proof. apply eff_bind, bounded_trans. Qed.

Lemma effects_weaken {A} (Q Q' : A → Prop) (m : M A) :
  (∀ a, Q a → Q' a) → effects (bounded P) Q m → effects (bounded P) Q' m.
Proof. apply eff_weaken. Qed.

Lemma effects_any {A} (Q : A → Prop) (m : M A) :
  effects (bounded P) Q m → effects (bounded P) (λ _, True) m.
Proof. by apply effects_weaken. Qed.

Lemma effects_panic {A} (Q : A → Prop) v :
  effects (bounded P) Q (panic v : M A).
Proof. intros w. split; [apply bounded_refl|done]. Qed.

Lemma effects_log_Fatal {A} (Q : A → Prop) msg :
  effects (bounded P) Q (log_Fatal msg : M A).
Proof.
  intros w. rewrite run_log_Fatal. split; [|done].
  apply bounded_step; [done|]. by apply P_other.
Qed.

Lemma effects_fatal_on prefix err :
  effects (bounded P) (λ _, True) (fatal_on prefix err).
Proof.
  destruct err; [apply effects_log_Fatal|by apply effects_ret].
Qed.

Lemma effects_RemoveAll :
  effects (bounded P) (λ _, True) (os_RemoveAll "public").
Proof.
  intros w. rewrite run_RemoveAll_public. split; [|done].
  apply bounded_step; [|by apply P_other].
  intros k Hk. by rewrite clear_public_lookup, Hk.
Qed.

Lemma effects_MkdirAll :
  effects (bounded P) (λ _, True) (os_MkdirAll "public").
Proof.
  intros w. rewrite run_MkdirAll.
  change (ancestors_of (components "public") "") with ["public"].
  cbn [mkdirAll]. split; [|done].
  destruct (fs w !! "public") as [[]|]; cbn [snd];
    (apply bounded_step; [|by apply P_other]); try done.
  intros k Hk. by apply insert_public_frame.
Qed.

Lemma effects_Mkdir path :
  under "public" path = true →
  effects (bounded P) (λ _, True) (os_Mkdir path).
Proof.
  intros Hp w. rewrite run_Mkdir. split; [|done].
  destruct (fs w !! path); [|destruct (parent_status _ _)]; cbn [snd];
    (apply bounded_step; [|by apply P_other]); try done.
  intros k Hk. by apply insert_public_frame.
Qed.

Lemma effects_Open path :
  effects (bounded P) (λ _, True) (os_Open path).
Proof.
  intros w. rewrite run_Open. split; [|done].
  apply bounded_step; [done|]. by apply P_other.
Qed.

Lemma effects_Create path :
  under "public" path = true →
  effects (bounded P) (λ r, r.2 = None → r.1 = path) (os_Create path).
Proof.
  intros Hp w. rewrite run_Create.
  destruct (parent_status _ _); [|destruct (fs w !! path) as [[]|]];
    cbn [fst snd]; (split; [|by intros a [= <-]]);
    (apply bounded_step; [|by apply P_other]); try done;
    intros k Hk; by apply insert_public_frame.
Qed.

Lemma effects_ReadAll f : effects (bounded P) (λ _, True) (io_ReadAll f).
Proof. intros w. rewrite run_ReadAll. split; [apply bounded_refl|done]. Qed.

Lemma effects_Write f data :
  under "public" f = true →
  effects (bounded P) (λ _, True) (file_Write f data).
Proof.
  intros Hp w. rewrite run_Write. split; [|done].
  destruct (fs w !! f) as [[]|]; cbn [snd];
    (apply bounded_step; [|by apply P_other]); try done.
  intros k Hk. by apply insert_public_frame.
Qed.

Lemma effects_Copy dst src :
  under "public" dst = true →
  effects (bounded P) (λ _, True) (io_Copy dst src).
Proof.
  intros Hp. unfold io_Copy.
  eapply effects_bind; [apply effects_ReadAll|].
  intros [data [e|]] _; [by apply effects_ret|by apply effects_Write].
Qed.

Lemma effects_Glob :
  effects (bounded P) (λ _, True) filepath_Glob_posts.
Proof.
  intros w. unfold filepath_Glob_posts. run_unfold.
  split; [|done]. destruct (fs w !! "posts") as [[]|]; cbn [snd];
    (apply bounded_step; [done|by apply P_other]).
Qed.

Lemma effects_ReadFile name :
  effects (bounded P) (λ _, True) (os_ReadFile name).
Proof.
  unfold os_ReadFile. eapply effects_bind; [apply effects_Open|].
  intros [f [e|]] _; [by apply effects_ret|apply effects_ReadAll].
Qed.

Section Libraries.
Variable frontmatter_Parse : string → (string * PostMetadata) + error.
Variable md_Convert : string → string + error.
Variable Template : Type.
Variable template_Parse : option Template → string → string → Template + error.
Variable template_Execute : Template → TemplateData → string * option error.
Variable xorshift_Next : N → N.

Lemma effects_parseFiles files : ∀ t,
  effects (bounded P) (λ _, True)
    (template_parseFiles Template template_Parse t files).
Proof.
  induction files as [|f files IH]; intros t; cbn [template_parseFiles];
    [by apply effects_ret|].
  eapply effects_bind; [apply effects_ReadFile|].
  intros [b [e|]] _; [by apply effects_ret|].
  destruct (template_Parse t (Base f) b); [apply IH|by apply effects_ret].
Qed.

Lemma effects_ParseFiles files :
  effects (bounded P) (λ _, True)
    (template_ParseFiles Template template_Parse files).
Proof.
  destruct files; [by apply effects_ret|apply effects_parseFiles].
Qed.

Lemma effects_Must r :
  effects (bounded P) (λ _, True) (template_Must Template r).
Proof.
  destruct r as [[t|] [e|]]; simpl;
    first [apply effects_panic|by apply effects_ret].
Qed.

Lemma effects_Execute tpl file data :
  under "public" file = true → P (EvExecute file data) →
  effects (bounded P) (λ _, True)
    (Execute Template template_Execute tpl file data).
Proof.
  intros Hp He. unfold Execute.
  eapply (effects_bind (λ _, True)).
  { intros w. split; [|done]. by apply bounded_step. }
  intros _ _. destruct (template_Execute tpl data) as [out err].
  eapply effects_bind; [by apply effects_Write|].
  intros werr _. by apply effects_ret.
Qed.

Lemma effects_Read slug : effects (bounded P) (λ _, True) (Read slug).
Proof.
  unfold Read. eapply effects_bind; [apply effects_Open|].
  intros [f [e|]] _; [by apply effects_ret|].
  eapply effects_bind; [apply effects_ReadAll|].
  intros [b [e|]] _; by apply effects_ret.
Qed.

Lemma effects_copyFile src dst :
  under "public" dst = true →
  effects (bounded P) (λ _, True) (copyFile src dst).
Proof.
  intros Hp. unfold copyFile. eapply effects_bind; [apply effects_Open|].
  intros [f [e|]] _; [by apply effects_ret|].
  eapply effects_bind; [by apply effects_Create|].
  intros [d [e|]] Hd; [by apply effects_ret|].
  simpl in Hd. rewrite (Hd eq_refl).
  eapply effects_bind; [by apply effects_Copy|].
  intros [e|] _; by apply effects_ret.
Qed.

Lemma effects_getAllpostData_loop filenames : ∀ posts,
  effects (bounded P) (λ _, True)
    (getAllpostData_loop frontmatter_Parse md_Convert filenames posts).
Proof.
  induction filenames as [|f filenames IH]; intros posts;
    cbn [getAllpostData_loop]; [by apply effects_ret|].
  cbv zeta. eapply effects_bind; [apply effects_Read|].
  intros [postMarkdown [e|]] _; [by apply effects_ret|].
  destruct (getpostData frontmatter_Parse postMarkdown)
    as [[rest postData] [e|]]; [by apply effects_ret|].
  destruct (md_Convert rest); [apply IH|by apply effects_ret].
Qed.

Lemma effects_getAllpostData :
  effects (bounded P) (λ _, True)
    (getAllpostData frontmatter_Parse md_Convert).
Proof.
  unfold getAllpostData. eapply effects_bind; [apply effects_Glob|].
  intros [filenames err] _.
  eapply effects_bind; [|intros; apply effects_getAllpostData_loop].
  destruct err; [apply (effects_log_Fatal (λ _, True))|by apply effects_ret].
Qed.

Lemma under_public_post_page slug : under "public" (post_page slug) = true.
Proof. reflexivity. Qed.

Lemma effects_ParsepostsMDToHTML_loop tpl postsData :
  (∀ post, P (EvExecute (post_page (Slug (Metadata post))) (DataPost post))) →
  effects (bounded P) (λ _, True)
    (ParsepostsMDToHTML_loop Template template_Execute tpl postsData).
Proof.
  intros HP.
  induction postsData as [|post rest IH]; cbn [ParsepostsMDToHTML_loop];
    [by apply effects_ret|].
  eapply effects_bind;
    [apply effects_Create, (under_public_post_page (Slug (Metadata post)))|].
  intros [file [e|]] Hfile; [by apply effects_ret|].
  simpl in Hfile. rewrite (Hfile eq_refl).
  eapply effects_bind;
    [apply effects_Execute;
       [apply (under_public_post_page (Slug (Metadata post)))|apply HP]|].
  intros [e|] _; [by apply effects_ret|apply IH].
Qed.

Lemma effects_render l postsData :
  (l = PostLayout → ∀ post,
     P (EvExecute (post_page (Slug (Metadata post))) (DataPost post))) →
  (l = IndexLayout → ∀ d, P (EvExecute "public/index.html" (DataIndex d))) →
  (l = AboutLayout →
     P (EvExecute "public/about.html" (DataAbout "about" "About me"))) →
  effects (bounded P) (λ _, True)
    (render Template template_Parse template_Execute l postsData).
Proof.
  intros HPpost HPindex HPabout.
  destruct l; cbn [render];
    [unfold ParsepostsMDToHTML|unfold ParseIndexTemplateToHTML
    |unfold ParseAboutPage];
    (eapply effects_bind; [apply effects_ParseFiles|]); intros r _;
    (eapply effects_bind; [apply effects_Must|]); intros tpl _.
  - apply effects_ParsepostsMDToHTML_loop. by apply HPpost.
  - eapply effects_bind; [by apply effects_Create|].
    intros [file [e|]] Hfile; [by apply effects_ret|].
    simpl in Hfile. rewrite (Hfile eq_refl). cbv zeta.
    eapply effects_bind; [apply effects_Execute; [done|by apply HPindex]|].
    intros [e|] _; by apply effects_ret.
  - eapply effects_bind; [by apply effects_Create|].
    intros [file [e|]] Hfile; [by apply effects_ret|].
    simpl in Hfile. rewrite (Hfile eq_refl). cbv zeta.
    apply effects_Execute; [done|by apply HPabout].
Qed.

Lemma effects_sort_posts postsData :
  effects (bounded P) (λ _, True) (sort_posts xorshift_Next postsData).
Proof.
  unfold sort_posts. destruct (GoSort.Slice _ _ _);
    [by apply effects_ret|apply effects_panic].
Qed.

Lemma effects_main :
  (∀ post, P (EvExecute (post_page (Slug (Metadata post))) (DataPost post))) →
  (∀ d, P (EvExecute "public/index.html" (DataIndex d))) →
  P (EvExecute "public/about.html" (DataAbout "about" "About me")) →
  effects (bounded P) (λ _, True)
    (main frontmatter_Parse md_Convert Template template_Parse
       template_Execute xorshift_Next).
Proof.
  intros HPpost HPindex HPabout. unfold main.
  eapply effects_bind; [apply effects_RemoveAll|]. intros err _.
  eapply effects_bind; [apply effects_fatal_on|]. intros _ _.
  eapply effects_bind; [apply effects_MkdirAll|]. intros err1 _.
  eapply effects_bind; [apply effects_fatal_on|]. intros _ _.
  eapply effects_bind; [by apply effects_Mkdir|]. intros err2 _.
  eapply effects_bind; [apply effects_fatal_on|]. intros _ _.
  eapply effects_bind; [by apply effects_copyFile|]. intros err3 _.
  eapply effects_bind; [apply effects_fatal_on|]. intros _ _.
  eapply effects_bind; [apply effects_getAllpostData|].
  intros [postsData err4] _.
  eapply effects_bind; [apply effects_fatal_on|]. intros _ _.
  eapply effects_bind; [apply effects_sort_posts|]. intros sorted _.
  eapply effects_bind; [apply (effects_render PostLayout sorted); done|]. intros err5 _.
  eapply effects_bind; [apply effects_fatal_on|]. intros _ _.
  eapply effects_bind; [apply (effects_render IndexLayout sorted); done|]. intros err6 _.
  eapply effects_bind; [apply effects_fatal_on|]. intros _ _.
  eapply effects_bind; [apply (effects_render AboutLayout sorted); done|]. intros err7 _.
  apply effects_fatal_on.
Qed.
End Libraries.
End Bounded.

(** ** Two runs, and the about page *)

Section Runs.
Variable frontmatter_Parse : string → (string * PostMetadata) + error.
Variable md_Convert : string → string + error.
Variable Template : Type.
Variable template_Parse : option Template → string → string → Template + error.
Variable template_Execute : Template → TemplateData → string * option error.
Variable xorshift_Next : N → N.

Abbreviation main_ :=
  (main frontmatter_Parse md_Convert Template template_Parse template_Execute
     xorshift_Next).

(** [main] writes nothing outside the output directory. *)
Lemma main_writes_public_only (w : World) : writes_public_only w (main_ w).2.
Proof.
  by destruct (effects_main (λ _, True) ltac:(done) frontmatter_Parse
                 md_Convert Template template_Parse template_Execute
                 xorshift_Next ltac:(done) ltac:(done) ltac:(done) w)
    as [[Hframe _] _].
Qed.

(** [main] does not see what the output directory held before. *)
Lemma main_clear_public (m m' : gmap string node) (t : list event) :
  clear_public m = clear_public m' →
  main_ (mkWorld m t) = main_ (mkWorld m' t).
Proof.
  intros Heq. rewrite !main_setup. cbn [fs trace]. unfold setup_fs.
  by rewrite Heq.
Qed.

(** C5. A second run of [main], started on the file system the first run
    left and with the inputs unchanged, ends as the first did and leaves
    the same files with the same bytes: every generated post page, the
    index page, the about page and the copied stylesheet. The first run
    itself changes nothing outside the output directory. *)
Theorem C5_second_run_identical (m : gmap string node) :
  let first := main_ (mkWorld m []) in
  let second := main_ (mkWorld (fs first.2) []) in
  second = first
  ∧ (∀ k, under "public" k = true → fs second.2 !! k = fs first.2 !! k)
  ∧ (∀ k, under "public" k = false → fs first.2 !! k = m !! k).
Proof.
  intros first second.
  assert (Hframe : ∀ k, under "public" k = false → fs first.2 !! k = m !! k).
  { apply (main_writes_public_only (mkWorld m [])). }
  assert (second = first) as Heq.
  { apply main_clear_public. apply map_eq. intros k.
    rewrite !clear_public_lookup.
    destruct (under "public" k) eqn:Hu; [done|by apply Hframe]. }
  split_and!; [done| |done]. intros k _. by rewrite Heq.
Qed.

Lemma about_data_constant_other e :
  (∀ f d, e ≠ EvExecute f d) → about_data_constant e.
Proof. intros He. destruct e; try done. by destruct (He file data). Qed.

End Runs.

(** ** The pages of the posts *)

Lemma keeps_refl (w : World) : keeps w w.
Proof. done. Qed.

Lemma keeps_trans (w1 w2 w3 : World) : keeps w1 w2 → keeps w2 w3 → keeps w1 w3.
Proof. intros [Ht1 Hf1] [Ht2 Hf2]. split; eauto. Qed.

Lemma keeps_step (w : World) (m' : gmap string node) (e : event) :
  (∀ p, is_file (fs w) p → is_file m' p) →
  keeps w (mkWorld m' (trace w ++ [e])).
Proof.
  intros Hm. split; [|done]. intros e' He'. cbn [trace].
  apply elem_of_app. by left.
Qed.

Lemma is_file_insert (m : gmap string node) path c p :
  is_file m p → is_file (<[path:=File c]> m) p.
Proof.
  intros [c' Hp]. unfold is_file. rewrite lookup_insert.
  case_decide; eauto.
Qed.

Lemma keeps_Open path : effects keeps (λ _, True) (os_Open path).
Proof. intros w. rewrite run_Open. split; [by apply keeps_step|done]. Qed.

Lemma keeps_ReadAll f : effects keeps (λ _, True) (io_ReadAll f).
Proof. intros w. rewrite run_ReadAll. split; [apply keeps_refl|done]. Qed.

Lemma keeps_ReadFile name : effects keeps (λ _, True) (os_ReadFile name).
Proof.
  unfold os_ReadFile.
  eapply (eff_bind keeps keeps_trans); [apply keeps_Open|].
  intros [f [e|]] _; [by apply (eff_ret keeps keeps_refl)|apply keeps_ReadAll].
Qed.

Lemma keeps_Create path :
  effects keeps (λ r, r.2 = None → r.1 = path) (os_Create path).
Proof.
  intros w. rewrite run_Create.
  destruct (parent_status _ _); [|destruct (fs w !! path) as [[]|]];
    cbn [fst snd]; (split; [|by intros a [= <-]]);
    apply keeps_step; try done; intros p; apply is_file_insert.
Qed.

Lemma keeps_Write f data : effects keeps (λ _, True) (file_Write f data).
Proof.
  intros w. rewrite run_Write. split; [|done].
  destruct (fs w !! f) as [[]|]; cbn [snd]; apply keeps_step; try done.
  intros p. apply is_file_insert.
Qed.

Section Pages.
Variable frontmatter_Parse : string → (string * PostMetadata) + error.
Variable md_Convert : string → string + error.
Variable Template : Type.
Variable template_Parse : option Template → string → string → Template + error.
Variable template_Execute : Template → TemplateData → string * option error.
Variable xorshift_Next : N → N.

Lemma keeps_parseFiles files : ∀ t,
  effects keeps (λ _, True)
    (template_parseFiles Template template_Parse t files).
Proof.
  induction files as [|f files IH]; intros t; cbn [template_parseFiles];
    [by apply (eff_ret keeps keeps_refl)|].
  eapply (eff_bind keeps keeps_trans); [apply keeps_ReadFile|].
  intros [b [e|]] _; [by apply (eff_ret keeps keeps_refl)|].
  destruct (template_Parse t (Base f) b);
    [apply IH|by apply (eff_ret keeps keeps_refl)].
Qed.

Lemma keeps_ParseFiles files :
  effects keeps (λ _, True)
    (template_ParseFiles Template template_Parse files).
Proof.
  destruct files; [by apply (eff_ret keeps keeps_refl)|apply keeps_parseFiles].
Qed.

Lemma keeps_Must r : effects keeps (λ _, True) (template_Must Template r).
Proof.
  destruct r as [[t|] [e|]]; simpl;
    first [apply (eff_panic keeps keeps_refl)
          |by apply (eff_ret keeps keeps_refl)].
Qed.

Lemma keeps_Execute tpl file data :
  effects keeps (λ _, True) (Execute Template template_Execute tpl file data).
Proof.
  unfold Execute. eapply (eff_bind keeps keeps_trans (λ _, True)).
  { intros w. split; [|done]. by apply keeps_step. }
  intros _ _. destruct (template_Execute tpl data) as [out err].
  eapply (eff_bind keeps keeps_trans); [apply keeps_Write|].
  intros werr _. by apply (eff_ret keeps keeps_refl).
Qed.

Lemma Execute_event tpl file data (w w' : World) r :
  Execute Template template_Execute tpl file data w = (r, w') →
  EvExecute file data ∈ trace w'.
Proof.
  unfold Execute. intros Hrun.
  rewrite (step_Done _ _ w (mkWorld (fs w) (trace w ++ [EvExecute file data]))
             tt) in Hrun by done.
  destruct (template_Execute tpl data) as [out err].
  rewrite bind_run, run_Write in Hrun. cbn [fs trace] in Hrun.
  destruct (fs w !! file) as [[]|]; injection Hrun as _ <-; cbn [trace];
    apply elem_of_app; left; apply elem_of_app; right;
    by apply list_elem_of_singleton.
Qed.

Lemma keeps_render_index_about l postsData :
  l ≠ PostLayout →
  effects keeps (λ _, True)
    (render Template template_Parse template_Execute l postsData).
Proof.
  intros Hl. destruct l; [done|..]; cbn [render];
    [unfold ParseIndexTemplateToHTML|unfold ParseAboutPage];
    (eapply (eff_bind keeps keeps_trans); [apply keeps_ParseFiles|]);
    intros r _;
    (eapply (eff_bind keeps keeps_trans); [apply keeps_Must|]);
    intros tpl _;
    (eapply (eff_bind keeps keeps_trans); [apply keeps_Create|]);
    intros [file [e|]] _; try (by apply (eff_ret keeps keeps_refl)); cbv zeta.
  - eapply (eff_bind keeps keeps_trans); [apply keeps_Execute|].
    intros [e|] _; by apply (eff_ret keeps keeps_refl).
  - apply keeps_Execute.
Qed.

(** When the loop of [ParsepostsMDToHTML] ends without an error, every
    post has its page: created, a regular file, and the one the template
    was executed into with the post as its data. *)
Lemma ParsepostsMDToHTML_loop_pages tpl postsData : ∀ (w w' : World),
  ParsepostsMDToHTML_loop Template template_Execute tpl postsData w
  = (Done None, w') →
  keeps w w'
  ∧ ∀ post, post ∈ postsData →
      EvCreate (post_page (Slug (Metadata post))) ∈ trace w'
      ∧ is_file (fs w') (post_page (Slug (Metadata post)))
      ∧ EvExecute (post_page (Slug (Metadata post))) (DataPost post)
        ∈ trace w'.
Proof.
  induction postsData as [|post rest IH]; intros w w' Hrun.
  { injection Hrun as <-. split; [apply keeps_refl|].
    intros post Hin. by apply elem_of_nil in Hin. }
  cbn [ParsepostsMDToHTML_loop] in Hrun. fold (post_page (Slug (Metadata post))) in Hrun.
  apply bind_Done_inv in Hrun as ([file err] & w1 & Hcreate & Hrun).
  destruct err as [e|]; [done|].
  apply bind_Done_inv in Hrun as (err & w2 & Hexec & Hrun).
  destruct err as [e|]; [done|].
  apply IH in Hrun as [Hkeep Hrest].
  assert (file = post_page (Slug (Metadata post))
          ∧ EvCreate (post_page (Slug (Metadata post))) ∈ trace w1
          ∧ is_file (fs w1) (post_page (Slug (Metadata post)))
          ∧ keeps w w1) as (-> & Hev & Hfile & Hkeep1).
  { rewrite run_Create in Hcreate.
    destruct (parent_status _ _); [by simplify_eq|].
    destruct (fs w !! post_page (Slug (Metadata post))) as [[]|];
      simplify_eq; cbn [fs trace]; (split_and!; [done| | |]);
      try (apply elem_of_app; right; apply list_elem_of_singleton; done);
      try (eexists; apply lookup_insert_eq);
      apply keeps_step; intros p; apply is_file_insert. }
  assert (keeps w1 w2) as Hkeep2.
  { destruct (keeps_Execute tpl (post_page (Slug (Metadata post)))
                (DataPost post) w1) as [Hk _]. by rewrite Hexec in Hk. }
  split; [eauto using keeps_trans|].
  intros post' Hin. apply elem_of_cons in Hin as [->|Hin]; [|by apply Hrest].
  apply Execute_event in Hexec.
  destruct Hkeep as [Ht Hf], Hkeep2 as [Ht2 Hf2]. split_and!; eauto.
Qed.
End Pages.

Lemma post_at_its_page_other e :
  (∀ f d, e ≠ EvExecute f d) → post_at_its_page e.
Proof. intros He. destruct e; try done. by destruct (He file data). Qed.

Section Paths.
Variable frontmatter_Parse : string → (string * PostMetadata) + error.
Variable md_Convert : string → string + error.
Variable Template : Type.
Variable template_Parse : option Template → string → string → Template + error.
Variable template_Execute : Template → TemplateData → string * option error.
Variable xorshift_Next : N → N.

Abbreviation main_ :=
  (main frontmatter_Parse md_Convert Template template_Parse template_Execute
     xorshift_Next).

Lemma keeps_render l postsData (w w' : World) r :
  l ≠ PostLayout →
  render Template template_Parse template_Execute l postsData w = (r, w') →
  keeps w w'.
Proof.
  intros Hl Hrun.
  destruct (keeps_render_index_about Template template_Parse template_Execute
              l postsData Hl w) as [Hk _].
  by rewrite Hrun in Hk.
Qed.

(** C2. In a run of [main] that succeeds, every discovered post source
    [posts/<slug>.md] has its page generated at [public/posts/<slug>.html]:
    the file is created at that path, the post template is executed into
    it with the post of that slug, and it is there at the end, where the
    slug is the file name without the [posts/] prefix and the [.md]
    extension. And no post is rendered anywhere else: every execution of
    a template with a post as data writes to [public/posts/<slug>.html]
    for the slug of that post. *)
Theorem C2_post_page_path (w w' : World) (f : string) :
  main_ w = (Done tt, w') → discovered (fs w) f →
  f = "posts/" +:+ slug_of f +:+ ".md"
  ∧ (∀ name, f = "posts/" +:+ name +:+ ".md" → slug_of f = name)
  ∧ (∃ evs, trace w' = trace w ++ evs ∧ Forall post_at_its_page evs)
  ∧ (∃ post, Slug (Metadata post) = slug_of f
       ∧ EvExecute ("public/posts/" +:+ slug_of f +:+ ".html") (DataPost post)
         ∈ trace w')
  ∧ EvCreate ("public/posts/" +:+ slug_of f +:+ ".html") ∈ trace w'
  ∧ is_file (fs w') ("public/posts/" +:+ slug_of f +:+ ".html").
Proof.
  intros Hmain Hdisc.
  pose proof (discovered_filename _ _ Hdisc) as Hname.
  split; [done|]. split; [intros name ->; apply slug_of_filename|].
  split.
  { destruct (effects_main post_at_its_page post_at_its_page_other
                frontmatter_Parse md_Convert Template template_Parse
                template_Execute xorshift_Next) with (w := w)
      as [[_ Hemits] _]; [done..|]. by rewrite Hmain in Hemits. }
  fold (post_page (slug_of f)).
  rewrite main_setup in Hmain. unfold main_copy in Hmain.
  apply bind_Done_inv in Hmain as (err & w2 & Hcopy & Hmain).
  rewrite run_copyFile_setup in Hcopy.
  destruct (fs w !! "static/style.css") as [[c|]|] eqn:Hsrc;
    injection Hcopy as <- <-; [|done..].
  apply bind_Done_inv in Hmain as (_ & w2' & [_ ->]%fatal_on_Done_inv & Hmain).
  unfold main_load in Hmain.
  apply bind_Done_inv in Hmain as ([posts err] & w3 & Hload & Hmain).
  apply bind_Done_inv in Hmain as (_ & w3' & [-> ->]%fatal_on_Done_inv & Hmain).
  apply bind_Done_inv in Hmain as (sorted & w3' & Hsort & Hmain).
  destruct (sort_posts_spec xorshift_Next posts w3)
    as (sorted' & Hsort' & Hperm & _).
  rewrite Hsort' in Hsort. injection Hsort as -> <-.
  unfold main_render in Hmain.
  apply bind_Done_inv in Hmain as (err5 & w4 & Hposts & Hmain).
  apply bind_Done_inv in Hmain as (_ & w4' & [-> ->]%fatal_on_Done_inv & Hmain).
  apply bind_Done_inv in Hmain as (err6 & w5 & Hindex & Hmain).
  apply bind_Done_inv in Hmain as (_ & w5' & [-> ->]%fatal_on_Done_inv & Hmain).
  apply bind_Done_inv in Hmain as (err7 & w6 & Habout & Hmain).
  apply fatal_on_Done_inv in Hmain as [-> ->].
  (* the post of [f] is among the sorted posts *)
  assert (∃ post, post ∈ sorted ∧ Slug (Metadata post) = slug_of f)
    as (post & Hin & Hslug).
  { pose proof (getAllpostData_slugs frontmatter_Parse md_Convert _ _ _ Hload)
      as Hslugs.
    assert (f ∈ glob_posts
              (<["public/style.css":=File c]> (setup_fs (fs w)))) as Hglob.
    { apply elem_of_glob_posts. destruct Hdisc as (Hdir & Hm & Hfile).
      split_and!; [|done|].
      - rewrite lookup_insert_ne by done. by rewrite setup_fs_outside.
      - rewrite lookup_insert_ne by (rewrite Hname; done).
        rewrite setup_fs_outside; [done|]. rewrite Hname.
        apply under_public_posts. }
    apply (list_elem_of_fmap_2 slug_of) in Hglob. cbn [fs] in Hslugs.
    rewrite <-Hslugs in Hglob.
    apply list_elem_of_fmap in Hglob as (post & Hslug & Hin).
    exists post. split; [by rewrite <-Hperm|done]. }
  (* its page is written by the loop over the posts *)
  unfold ParsepostsMDToHTML in Hposts.
  apply bind_Done_inv in Hposts as (r & w3a & _ & Hposts).
  apply bind_Done_inv in Hposts as (tpl & w3b & _ & Hposts).
  apply ParsepostsMDToHTML_loop_pages in Hposts as [_ Hpages].
  destruct (Hpages post Hin) as (Hev & Hfile & Hexec).
  rewrite Hslug in Hev, Hfile, Hexec.
  (* and the index and about pages leave it alone *)
  pose proof (keeps_render IndexLayout sorted w4 w5 (Done None)
                ltac:(done) Hindex) as [Ht5 Hf5].
  pose proof (keeps_render AboutLayout sorted w5 w6 (Done None)
                ltac:(done) Habout) as [Ht6 Hf6].
  split_and!; eauto.
Qed.

End Paths.

(** ** The theorems at the sample inputs *)

Lemma C2_witness :
  "posts/hello.md" = "posts/" +:+ slug_of "posts/hello.md" +:+ ".md"
  ∧ (∀ name, "posts/hello.md" = "posts/" +:+ name +:+ ".md" →
       slug_of "posts/hello.md" = name)
  ∧ (∃ evs, trace (toy_main sample_world).2 = trace sample_world ++ evs
       ∧ Forall post_at_its_page evs)
  ∧ (∃ post, Slug (Metadata post) = slug_of "posts/hello.md"
       ∧ EvExecute ("public/posts/" +:+ slug_of "posts/hello.md" +:+ ".html")
           (DataPost post) ∈ trace (toy_main sample_world).2)
  ∧ EvCreate ("public/posts/" +:+ slug_of "posts/hello.md" +:+ ".html")
    ∈ trace (toy_main sample_world).2
  ∧ is_file (fs (toy_main sample_world).2)
      ("public/posts/" +:+ slug_of "posts/hello.md" +:+ ".html").
Proof.
  apply (C2_post_page_path toy_frontmatter toy_markdown (list string)
           toy_parse toy_execute xorshift64 sample_world
           (toy_main sample_world).2 "posts/hello.md").
  - vm_compute. reflexivity.
  - split_and!; [vm_compute; reflexivity..|]. vm_compute. by eexists.
Defined.

Lemma C3_witness :
  ∃ posts,
    (Slug ∘ Metadata <$> posts = slug_of <$> glob_posts (fs sample_world)
     ∧ Forall2 (λ f p, f = "posts/" +:+ Slug (Metadata p) +:+ ".md")
         (glob_posts (fs sample_world)) posts)
    ∧ Slug ∘ Metadata <$> posts = ["hello"; "second"].
Proof.
  eexists. split.
  - eapply (C3_slug_from_filename toy_frontmatter toy_markdown sample_world).
    vm_compute. reflexivity.
  - vm_compute. reflexivity.
Defined.

Lemma C6_witness :
  ∃ w', toy_main bad_post_world = (Exit 1, w')
    ∧ (∃ evs, trace w' = trace bad_post_world ++ evs
         ∧ Forall (λ ev, ¬ renders ev) evs)
    ∧ ∀ k, under "public" k = true → is_Some (fs w' !! k) →
        k = "public" ∨ k = "public/posts" ∨ k = "public/style.css".
Proof.
  apply (C6_failing_post_aborts_build toy_frontmatter toy_markdown
           (list string) toy_parse toy_execute xorshift64 bad_post_world
           "posts/second.md").
  - split_and!; [vm_compute; reflexivity..|]. vm_compute. by eexists.
  - vm_compute. exact I.
Defined.



(** * Further properties of the build *)

(** ** Copying a file *)

Lemma run_Create_ok path (w : World) :
  parent_status (fs w) path = None → fs w !! path ≠ Some Dir →
  os_Create path w
  = (Done (path, None),
     mkWorld (<[path:=File ""]> (fs w)) (trace w ++ [EvCreate path])).
Proof.
  intros Hpar Hdst. rewrite run_Create, Hpar.
  by destruct (fs w !! path) as [[]|].
Qed.

(** X1. [copyFile] of a regular file to another path whose directory is
    there: no error, the destination holds the bytes of the source,
    whatever it held before, and nothing else changes. *)
Theorem copyFile_copies (src dst c : string) (w : World) :
  fs w !! src = Some (File c) → src ≠ dst →
  parent_status (fs w) dst = None → fs w !! dst ≠ Some Dir →
  copyFile src dst w
  = (Done None,
     mkWorld (<[dst:=File c]> (fs w))
       (trace w ++ [EvOpen src; EvCreate dst; EvWrite dst])).
Proof.
  intros Hsrc Hne Hpar Hdst. unfold copyFile.
  erewrite step_Done by (rewrite run_Open, Hsrc; reflexivity).
  cbv beta iota.
  erewrite step_Done by (by apply run_Create_ok).
  cbv beta iota.
  erewrite step_Done.
  2:{ rewrite run_Copy. cbn [fs trace]. rewrite lookup_insert_ne by done.
      rewrite Hsrc, run_Write. cbn [fs trace]. rewrite lookup_insert_eq.
      reflexivity. }
  cbv beta iota. rewrite run_ret. change ("" +:+ c) with c.
  by rewrite insert_insert_eq, <-!app_assoc.
Qed.

Lemma copyFile_copies_witness :
  copyFile "static/style.css" "public/copy.css" sample_world
  = (Done None,
     mkWorld (<["public/copy.css":=File "body{}"]> (fs sample_world))
       (trace sample_world
        ++ [EvOpen "static/style.css"; EvCreate "public/copy.css";
            EvWrite "public/copy.css"])).
Proof.
  apply (copyFile_copies "static/style.css" "public/copy.css" "body{}"
           sample_world); [vm_compute; reflexivity|done
                          |vm_compute; reflexivity|vm_compute; done].
Defined.

(** X2. When the source is missing, or the destination cannot be created
    (its directory is not there, or it is a directory itself), [copyFile]
    returns the error and leaves the file system as it was. *)
Theorem copyFile_fails_early (src dst : string) (w : World) :
  fs w !! src = None ∨ parent_status (fs w) dst ≠ None
  ∨ fs w !! dst = Some Dir →
  ∃ e w', copyFile src dst w = (Done (Some e), w') ∧ fs w' = fs w
    ∧ (fs w !! src = None →
       e = "open " +:+ src +:+ ": no such file or directory"
       ∧ trace w' = trace w ++ [EvOpen src]).
Proof.
  intros Hcase. unfold copyFile.
  erewrite step_Done by apply run_Open. cbn [fs trace].
  destruct (fs w !! src) as [n|] eqn:Hsrc.
  - destruct Hcase as [[=]|Hcase]. cbv beta iota.
    rewrite bind_run, run_Create. cbn [fs trace].
    destruct (parent_status (fs w) dst) as [e|] eqn:Hpar.
    { eexists _, _. by split_and!. }
    destruct Hcase as [Hcase|Hcase]; [done|]. rewrite Hcase.
    eexists _, _. by split_and!.
  - eexists _, _. by split_and!.
Qed.

Lemma copyFile_fails_early_witness :
  ∃ e w', copyFile "static/style.css" "public/style.css"
            stylesheet_missing_world = (Done (Some e), w')
    ∧ fs w' = fs stylesheet_missing_world
    ∧ (fs stylesheet_missing_world !! "static/style.css" = None →
       e = "open " +:+ "static/style.css" +:+ ": no such file or directory"
       ∧ trace w' = trace stylesheet_missing_world
                    ++ [EvOpen "static/style.css"]).
Proof.
  apply (copyFile_fails_early "static/style.css" "public/style.css"
           stylesheet_missing_world).
  left. vm_compute. reflexivity.
Defined.

(** X3. [copyFile] of a regular file onto itself does not fail and leaves
    the file empty: the destination is truncated before the source, the
    same file, is read. *)
Theorem copyFile_onto_itself (path c : string) (w : World) :
  fs w !! path = Some (File c) → parent_status (fs w) path = None →
  copyFile path path w
  = (Done None,
     mkWorld (<[path:=File ""]> (fs w))
       (trace w ++ [EvOpen path; EvCreate path; EvWrite path])).
Proof.
  intros Hsrc Hpar. unfold copyFile.
  erewrite step_Done by (rewrite run_Open, Hsrc; reflexivity).
  cbv beta iota.
  erewrite step_Done by (apply run_Create_ok; cbn [fs]; [done|by rewrite Hsrc]).
  cbv beta iota.
  erewrite step_Done.
  2:{ rewrite run_Copy. cbn [fs trace]. rewrite lookup_insert_eq.
      rewrite run_Write. cbn [fs trace]. rewrite lookup_insert_eq.
      reflexivity. }
  cbv beta iota. rewrite run_ret. change ("" +:+ "") with "".
  by rewrite insert_insert_eq, <-!app_assoc.
Qed.

Lemma copyFile_onto_itself_witness :
  copyFile "static/style.css" "static/style.css" sample_world
  = (Done None,
     mkWorld (<["static/style.css":=File ""]> (fs sample_world))
       (trace sample_world
        ++ [EvOpen "static/style.css"; EvCreate "static/style.css";
            EvWrite "static/style.css"])).
Proof.
  apply (copyFile_onto_itself "static/style.css" "body{}" sample_world);
    vm_compute; reflexivity.
Defined.

(** ** Loading the posts *)

Section Loading.
Variable frontmatter_Parse : string → (string * PostMetadata) + error.
Variable md_Convert : string → string + error.

Abbreviation load_post_ := (load_post frontmatter_Parse md_Convert).
Abbreviation loop_ := (getAllpostData_loop frontmatter_Parse md_Convert).

(** One round of the loop, by what it makes of the file. *)
Lemma getAllpostData_loop_step f filenames posts (w : World) :
  loop_ (f :: filenames) posts w
  = match load_post_ (fs w) f with
    | inl post =>
        loop_ filenames (posts ++ [post])
          (mkWorld (fs w) (trace w ++ [EvOpen (post_source f)]))
    | inr e =>
        (Done (posts, Some e),
         mkWorld (fs w) (trace w ++ [EvOpen (post_source f)]))
    end.
Proof.
  rewrite getAllpostData_loop_cons. unfold load_post.
  destruct (fs w !! post_source f) as [[c|]|]; [|done..].
  destruct (frontmatter_Parse c) as [[rest meta]|e]; [|done].
  by destruct (md_Convert rest).
Qed.

Lemma getAllpostData_loop_loads filenames : ∀ posts0 (w w' : World) posts,
  loop_ filenames posts0 w = (Done (posts, None), w') ↔
  ∃ loaded, posts = posts0 ++ loaded
    ∧ Forall2 (λ f post, load_post_ (fs w) f = inl post) filenames loaded
    ∧ w' = mkWorld (fs w) (trace w ++ (EvOpen ∘ post_source <$> filenames)).
Proof.
  induction filenames as [|f filenames IH]; intros posts0 w w' posts.
  - cbn [getAllpostData_loop]. rewrite run_ret. split.
    + intros [= <- <-]. exists []. rewrite !app_nil_r. destruct w.
      by split_and!.
    + intros (loaded & -> & ->%Forall2_nil_inv_l & ->).
      rewrite !app_nil_r. by destruct w.
  - rewrite getAllpostData_loop_step.
    destruct (load_post_ (fs w) f) as [post|e] eqn:Hload.
    + rewrite IH. cbn [fs trace]. split.
      * intros (loaded & -> & Hall & ->). exists (post :: loaded).
        rewrite <-!app_assoc. split_and!; [done| |done].
        by constructor.
      * intros (loaded & -> & Hall & ->).
        apply Forall2_cons_inv_l in Hall as (post' & loaded' & Hp & Hall & ->).
        rewrite Hload in Hp. injection Hp as <-. exists loaded'.
        rewrite <-!app_assoc. by split_and!.
    + split; [done|]. intros (loaded & _ & Hall & _).
      apply Forall2_cons_inv_l in Hall as (post' & loaded' & Hp & _).
      by rewrite Hload in Hp.
Qed.

Lemma getAllpostData_loop_stops filenames : ∀ posts0 (w w' : World) posts e,
  loop_ filenames posts0 w = (Done (posts, Some e), w') ↔
  ∃ before f behind loaded,
    filenames = before ++ f :: behind ∧ posts = posts0 ++ loaded
    ∧ Forall2 (λ f post, load_post_ (fs w) f = inl post) before loaded
    ∧ load_post_ (fs w) f = inr e
    ∧ w' = mkWorld (fs w)
             (trace w ++ (EvOpen ∘ post_source <$> before ++ [f])).
Proof.
  induction filenames as [|f filenames IH]; intros posts0 w w' posts e.
  - cbn [getAllpostData_loop]. rewrite run_ret. split; [done|].
    intros (before & f & behind & loaded & Hnil & _). by destruct before.
  - rewrite getAllpostData_loop_step.
    destruct (load_post_ (fs w) f) as [post|e0] eqn:Hload.
    + rewrite IH. cbn [fs trace]. split.
      * intros (before & f' & behind & loaded & -> & -> & Hall & Hf & ->).
        exists (f :: before), f', behind, (post :: loaded).
        rewrite <-!app_assoc. split_and!; [done|done| |done|done].
        by constructor.
      * intros (before & f' & behind & loaded & Hfiles & -> & Hall & Hf & ->).
        destruct before as [|f0 before]; simplify_eq/=;
          [by rewrite Hload in Hf|].
        apply Forall2_cons_inv_l in Hall as (post' & loaded' & Hp & Hall & ->).
        rewrite Hload in Hp. injection Hp as <-.
        exists before, f', behind, loaded'.
        rewrite <-!app_assoc. by split_and!.
    + split.
      * intros [= <- <- <-]. exists [], f, filenames, [].
        rewrite app_nil_r. by split_and!.
      * intros (before & f' & behind & loaded & Hfiles & -> & Hall & Hf & ->).
        destruct before as [|f0 before]; simplify_eq/=.
        -- apply Forall2_nil_inv_l in Hall as ->. rewrite app_nil_r.
           rewrite Hload in Hf. by injection Hf as ->.
        -- apply Forall2_cons_inv_l in Hall as (post' & loaded' & Hp & _).
           by rewrite Hload in Hp.
Qed.

(** X4. [getAllpostData] returns without an error exactly when every
    discovered file loads; the records are then those of the files, one
    per file in the order of discovery: the front matter's fields with
    the slug of the file name, the converted body, and an empty [Page].
    Every file has been opened once, in order, and no file has changed. *)
Theorem getAllpostData_loads_every_post (w w' : World) (posts : list PostData) :
  getAllpostData frontmatter_Parse md_Convert w = (Done (posts, None), w') ↔
  Forall2 (λ f post, load_post_ (fs w) f = inl post) (glob_posts (fs w)) posts
  ∧ w' = mkWorld (fs w)
           (trace w ++ EvGlob "posts/*.md"
                       :: (EvOpen ∘ post_source <$> glob_posts (fs w))).
Proof.
  rewrite run_getAllpostData, getAllpostData_loop_loads. cbn [fs trace].
  split.
  - intros (loaded & -> & Hall & ->). by rewrite <-app_assoc.
  - intros [Hall ->]. exists posts. by rewrite <-app_assoc.
Qed.

(** X5. [getAllpostData] returns an error exactly when a discovered file
    does not load, and then at the first such file: it returns the
    records of the files before it and the error of that file, and the
    files behind it have not been opened. *)
Theorem getAllpostData_stops_at_first_failure (w w' : World)
    (posts : list PostData) (e : error) :
  getAllpostData frontmatter_Parse md_Convert w = (Done (posts, Some e), w') ↔
  ∃ before f behind,
    glob_posts (fs w) = before ++ f :: behind
    ∧ Forall2 (λ f post, load_post_ (fs w) f = inl post) before posts
    ∧ load_post_ (fs w) f = inr e
    ∧ w' = mkWorld (fs w)
             (trace w ++ EvGlob "posts/*.md"
                         :: (EvOpen ∘ post_source <$> before ++ [f])).
Proof.
  rewrite run_getAllpostData, getAllpostData_loop_stops. cbn [fs trace].
  split.
  - intros (before & f & behind & loaded & Hfiles & -> & Hall & Hf & ->).
    exists before, f, behind. by rewrite <-app_assoc.
  - intros (before & f & behind & Hfiles & Hall & Hf & ->).
    exists before, f, behind, posts. by rewrite <-app_assoc.
Qed.

(** X6. Without a directory [posts] there is nothing to load and that is
    no error: [getAllpostData] returns no record and no error. *)
Theorem getAllpostData_without_posts_directory (w : World) :
  fs w !! "posts" ≠ Some Dir →
  getAllpostData frontmatter_Parse md_Convert w
  = (Done ([], None), mkWorld (fs w) (trace w ++ [EvGlob "posts/*.md"])).
Proof.
  intros Hdir. rewrite run_getAllpostData.
  assert (glob_posts (fs w) = []) as ->; [|done].
  destruct (glob_posts (fs w)) as [|f l] eqn:Hglob; [done|].
  assert (f ∈ glob_posts (fs w)) as Hin by (rewrite Hglob; left).
  apply elem_of_glob_posts in Hin as (Hd & _). done.
Qed.
End Loading.

Lemma getAllpostData_without_posts_directory_witness :
  getAllpostData toy_frontmatter toy_markdown no_posts_world
  = (Done ([], None),
     mkWorld (fs no_posts_world)
       (trace no_posts_world ++ [EvGlob "posts/*.md"])).
Proof.
  apply (getAllpostData_without_posts_directory toy_frontmatter toy_markdown
           no_posts_world).
  vm_compute. discriminate.
Defined.

(** ** Sorting posts of equal dates *)

(** X7. The sort step of [main] never fails, whatever the dates: it
    returns the posts it was given, each as often as before, with no
    post dated before a post behind it. *)
Theorem sort_posts_descending xorshift_Next (posts : list PostData)
    (w : World) :
  ∃ sorted, sort_posts xorshift_Next posts w = (Done sorted, w)
    ∧ posts ≡ₚ sorted ∧ descending sorted.
Proof.
  destruct (sort_posts_spec xorshift_Next posts w) as (sorted & Hrun & Hp & Hs).
  exists sorted. split_and!; [done..|].
  intros i j pi pj Hij Hi Hj.
  pose proof (Hs i j pi pj ltac:(lia) Hij
                ltac:(by eapply lookup_lt_Some) Hi Hj) as Hno.
  unfold post_less in Hno. by apply After_false in Hno.
Qed.

(** ** The order of discovery *)

Lemma string_leb_trans (s1 s2 s3 : string) :
  String.leb s1 s2 = true → String.leb s2 s3 = true → String.leb s1 s3 = true.
Proof.
  unfold String.leb. revert s2 s3.
  induction s1 as [|c1 s1 IH]; intros [|c2 s2] [|c3 s3]; simpl; try done.
  specialize (IH s2 s3). unfold Ascii.compare.
  destruct (N.compare_spec (N_of_ascii c1) (N_of_ascii c2)),
    (N.compare_spec (N_of_ascii c2) (N_of_ascii c3)),
    (N.compare_spec (N_of_ascii c1) (N_of_ascii c3));
    try done; try lia; auto.
Qed.

Lemma string_le_trans : Transitive string_le.
Proof. intros s1 s2 s3. apply string_leb_trans. Qed.

Lemma string_le_total : Total string_le.
Proof. intros s1 s2. apply String.leb_total. Qed.

Lemma string_le_antisymm : AntiSymm (=) string_le.
Proof. intros s1 s2. apply String.leb_antisym. Qed.

Lemma glob_posts_unfold (m : gmap string node) :
  glob_posts m
  = if m !! "posts" is Some Dir
    then merge_sort string_le
           (filter (λ p, glob_match p = true) (map_to_list m).*1)
    else [].
Proof.
  unfold glob_posts, filepath_Glob_posts. run_unfold.
  by destruct (m !! "posts") as [[]|].
Qed.

Lemma glob_posts_NoDup (m : gmap string node) : NoDup (glob_posts m).
Proof.
  rewrite glob_posts_unfold. destruct (m !! "posts") as [[]|];
    try apply NoDup_nil_2.
  rewrite merge_sort_Permutation. apply NoDup_filter, NoDup_fst_map_to_list.
Qed.

Lemma glob_posts_Sorted (m : gmap string node) :
  Sorted string_le (glob_posts m).
Proof.
  rewrite glob_posts_unfold. destruct (m !! "posts") as [[]|];
    try constructor.
  apply (@Sorted_merge_sort _ string_le _ string_le_total).
Qed.

Lemma discovered_agree (m m' : gmap string node) f :
  (∀ k, under "public" k = false → m !! k = m' !! k) →
  discovered m f → discovered m' f.
Proof.
  intros Hagree (Hdir & Hmatch & Hfile).
  pose proof (glob_match_filename f Hmatch) as Hname.
  split_and!; [by rewrite <-Hagree|done|].
  rewrite <-Hagree; [done|]. rewrite Hname. apply under_public_posts.
Qed.

(** What is found does not depend on the output directory. *)
Lemma glob_posts_agree (m m' : gmap string node) :
  (∀ k, under "public" k = false → m !! k = m' !! k) →
  glob_posts m = glob_posts m'.
Proof.
  intros Hagree.
  apply (@Sorted_unique _ string_le string_le_trans string_le_antisymm);
    try apply glob_posts_Sorted.
  apply NoDup_Permutation; try apply glob_posts_NoDup.
  intros f. rewrite !elem_of_glob_posts.
  split; apply discovered_agree; [done|]. intros k Hk. by rewrite Hagree.
Qed.

(** ** What a build writes *)

Lemma Create_Done_inv path file (w w1 : World) :
  os_Create path w = (Done (file, None), w1) →
  file = path
  ∧ w1 = mkWorld (<[path:=File ""]> (fs w)) (trace w ++ [EvCreate path]).
Proof.
  rewrite run_Create. destruct (parent_status _ _); [done|].
  destruct (fs w !! path) as [[]|]; by intros [= <- <-].
Qed.

Lemma post_page_inj s t : post_page s = post_page t → s = t.
Proof.
  unfold post_page. intros Heq.
  change (String.append "public/posts/" (String.append s ".html")
          = String.append "public/posts/" (String.append t ".html")) in Heq.
  cbn [String.append] in Heq. injection Heq as Heq.
  revert t Heq. induction s as [|c s IH]; intros [|d t] Heq.
  - done.
  - apply (f_equal String.length) in Heq.
    simpl in Heq. rewrite (string_length_app t ".html") in Heq.
    simpl in Heq. lia.
  - apply (f_equal String.length) in Heq.
    simpl in Heq. rewrite (string_length_app s ".html") in Heq.
    simpl in Heq. lia.
  - cbn [String.append] in Heq. injection Heq as -> Heq. f_equal. by apply IH.
Qed.

Lemma post_page_not_fixed slug :
  post_page slug ≠ "public" ∧ post_page slug ≠ "public/posts"
  ∧ post_page slug ≠ "public/style.css" ∧ post_page slug ≠ "public/index.html"
  ∧ post_page slug ≠ "public/about.html".
Proof.
  unfold post_page.
  change ("public/posts/" +:+ slug +:+ ".html")
    with (String.append "public/posts/" (String.append slug ".html")).
  cbn [String.append]. split_and!; try discriminate.
Qed.

Section Output.
Variable frontmatter_Parse : string → (string * PostMetadata) + error.
Variable md_Convert : string → string + error.
Variable Template : Type.
Variable template_Parse : option Template → string → string → Template + error.
Variable template_Execute : Template → TemplateData → string * option error.
Variable xorshift_Next : N → N.

Abbreviation main_ :=
  (main frontmatter_Parse md_Convert Template template_Parse template_Execute
     xorshift_Next).
Abbreviation load_post_ := (load_post frontmatter_Parse md_Convert).
Abbreviation loaded_templates_ := (loaded_templates Template template_Parse).
Abbreviation rendered_ := (rendered Template template_Execute).
Abbreviation with_post_pages_ := (with_post_pages Template template_Execute).

Lemma run_Execute_fresh tpl file data (w : World) :
  fs w !! file = Some (File "") →
  Execute Template template_Execute tpl file data w
  = (Done (template_Execute tpl data).2,
     mkWorld (<[file:=File (rendered_ tpl data)]> (fs w))
       (trace w ++ [EvExecute file data; EvWrite file])).
Proof.
  intros Hf. unfold Execute, rendered.
  rewrite (step_Done _ _ w (mkWorld (fs w) (trace w ++ [EvExecute file data]))
             tt) by done.
  destruct (template_Execute tpl data) as [out err].
  rewrite bind_run, run_Write. cbn [fs trace]. rewrite Hf, run_ret.
  change ("" +:+ out) with out. by rewrite <-app_assoc.
Qed.

(** A page is created and the template executed into it. *)
Lemma run_page tpl path data (w w1 w2 : World) file r :
  os_Create path w = (Done (file, None), w1) →
  Execute Template template_Execute tpl file data w1 = (Done r, w2) →
  r = (template_Execute tpl data).2
  ∧ w2 = mkWorld (<[path:=File (rendered_ tpl data)]> (fs w))
           (trace w ++ [EvCreate path; EvExecute path data; EvWrite path]).
Proof.
  intros [-> ->]%Create_Done_inv.
  rewrite run_Execute_fresh by (cbn [fs]; apply lookup_insert_eq).
  cbn [fs trace]. intros [= <- <-].
  by rewrite insert_insert_eq, <-app_assoc.
Qed.

Lemma ParsepostsMDToHTML_loop_writes tpl postsData : ∀ (w w' : World),
  ParsepostsMDToHTML_loop Template template_Execute tpl postsData w
  = (Done None, w') →
  fs w' = with_post_pages_ tpl postsData (fs w)
  ∧ Forall (λ post, (template_Execute tpl (DataPost post)).2 = None)
      postsData.
Proof.
  induction postsData as [|post rest IH]; intros w w' Hrun.
  { injection Hrun as <-. by split. }
  cbn [ParsepostsMDToHTML_loop] in Hrun.
  apply bind_Done_inv in Hrun as ([file err] & w1 & Hcreate & Hrun).
  destruct err as [e|]; [done|].
  apply bind_Done_inv in Hrun as (r & w2 & Hexec & Hrun).
  destruct (run_page _ _ _ _ _ _ _ _ Hcreate Hexec) as [-> ->].
  destruct (template_Execute tpl (DataPost post)).2 eqn:Herr; [done|].
  apply IH in Hrun as [-> Hall]. by split; [|constructor].
Qed.

(** *** The templates a run loads *)

Lemma template_parseFiles_fs files : ∀ t (w : World),
  fs (template_parseFiles Template template_Parse t files w).2 = fs w.
Proof.
  induction files as [|f files IH]; intros t w; [done|].
  rewrite template_parseFiles_cons.
  destruct (fs w !! f) as [[c|]|]; [|done..].
  destruct (template_Parse t (Base f) c); [by rewrite IH|done].
Qed.

Lemma template_parseFiles_agree files : ∀ t (w1 w2 : World),
  (∀ f, f ∈ files → fs w1 !! f = fs w2 !! f) →
  (template_parseFiles Template template_Parse t files w1).1
  = (template_parseFiles Template template_Parse t files w2).1.
Proof.
  induction files as [|f files IH]; intros t w1 w2 Hagree; [done|].
  rewrite !template_parseFiles_cons, (Hagree f) by left.
  destruct (fs w2 !! f) as [[c|]|]; [|done..].
  destruct (template_Parse t (Base f) c); [|done].
  apply IH. intros f' Hin. cbn [fs]. apply Hagree. by right.
Qed.

Lemma layout_files_outside l f :
  f ∈ layout_files l → under "public" f = false.
Proof.
  unfold layout_files. rewrite !elem_of_cons, elem_of_nil.
  destruct l; intros [->|[->|[->|[]]]]; reflexivity.
Qed.

(** What a render function goes on with after loading its templates. *)
Lemma render_templates l (m : gmap string node) (w w0 w1 : World) r tpl :
  (∀ k, under "public" k = false → fs w !! k = m !! k) →
  template_ParseFiles Template template_Parse (layout_files l) w
  = (Done r, w0) →
  template_Must Template r w0 = (Done tpl, w1) →
  loaded_templates_ m l = Done (Some tpl, None) ∧ fs w1 = fs w.
Proof.
  intros Hagree Hparse Hmust.
  assert (r = (Some tpl, None) ∧ w1 = w0) as [-> ->].
  { destruct r as [[t|] [e|]]; unfold template_Must, panic in Hmust;
      try done. rewrite run_ret in Hmust. by injection Hmust as -> ->. }
  change (template_ParseFiles Template template_Parse (layout_files l) w)
    with (template_parseFiles Template template_Parse None (layout_files l) w)
    in Hparse.
  split.
  - unfold loaded_templates.
    change (template_ParseFiles Template template_Parse (layout_files l)
              (mkWorld m []))
      with (template_parseFiles Template template_Parse None (layout_files l)
              (mkWorld m [])).
    rewrite <-(template_parseFiles_agree (layout_files l) None w);
      [by rewrite Hparse|].
    intros f Hin. cbn [fs]. apply Hagree. by eapply layout_files_outside.
  - rewrite <-(template_parseFiles_fs (layout_files l) None w).
    by rewrite Hparse.
Qed.

Lemma ParsepostsMDToHTML_writes (m : gmap string node) postsData
    (w w' : World) :
  (∀ k, under "public" k = false → fs w !! k = m !! k) →
  ParsepostsMDToHTML Template template_Parse template_Execute postsData w
  = (Done None, w') →
  ∃ tpl, loaded_templates_ m PostLayout = Done (Some tpl, None)
    ∧ Forall (λ post, (template_Execute tpl (DataPost post)).2 = None)
        postsData
    ∧ fs w' = with_post_pages_ tpl postsData (fs w).
Proof.
  intros Hagree Hrun. unfold ParsepostsMDToHTML in Hrun.
  apply bind_Done_inv in Hrun as (r & w0 & Hparse & Hrun).
  apply bind_Done_inv in Hrun as (tpl & w1 & Hmust & Hrun).
  destruct (render_templates PostLayout m w w0 w1 r tpl Hagree Hparse Hmust)
    as [Htpl Hfs].
  apply ParsepostsMDToHTML_loop_writes in Hrun as [-> Hall].
  exists tpl. by rewrite Hfs.
Qed.

Lemma ParseIndexTemplateToHTML_writes (m : gmap string node) postsData
    (w w' : World) :
  (∀ k, under "public" k = false → fs w !! k = m !! k) →
  ParseIndexTemplateToHTML Template template_Parse template_Execute postsData
    w = (Done None, w') →
  ∃ tpl, loaded_templates_ m IndexLayout = Done (Some tpl, None)
    ∧ (template_Execute tpl (DataIndex (mkIndexData postsData "index"))).2
      = None
    ∧ fs w' = <["public/index.html":=
                  File (rendered_ tpl
                          (DataIndex (mkIndexData postsData "index")))]>
                (fs w).
Proof.
  intros Hagree Hrun. unfold ParseIndexTemplateToHTML in Hrun.
  apply bind_Done_inv in Hrun as (r & w0 & Hparse & Hrun).
  apply bind_Done_inv in Hrun as (tpl & w1 & Hmust & Hrun).
  destruct (render_templates IndexLayout m w w0 w1 r tpl Hagree Hparse Hmust)
    as [Htpl Hfs].
  apply bind_Done_inv in Hrun as ([file err] & w2 & Hcreate & Hrun).
  destruct err as [e|]; [done|]. cbv zeta in Hrun.
  apply bind_Done_inv in Hrun as (res & w3 & Hexec & Hrun).
  destruct (run_page _ _ _ _ _ _ _ _ Hcreate Hexec) as [-> ->].
  destruct (template_Execute tpl _).2 eqn:Herr; [done|].
  injection Hrun as <-. exists tpl. cbn [fs]. by rewrite Hfs.
Qed.

Lemma ParseAboutPage_writes (m : gmap string node) (w w' : World) :
  (∀ k, under "public" k = false → fs w !! k = m !! k) →
  ParseAboutPage Template template_Parse template_Execute w
  = (Done None, w') →
  ∃ tpl, loaded_templates_ m AboutLayout = Done (Some tpl, None)
    ∧ (template_Execute tpl (DataAbout "about" "About me")).2 = None
    ∧ fs w' = <["public/about.html":=
                  File (rendered_ tpl (DataAbout "about" "About me"))]>
                (fs w).
Proof.
  intros Hagree Hrun. unfold ParseAboutPage in Hrun.
  apply bind_Done_inv in Hrun as (r & w0 & Hparse & Hrun).
  apply bind_Done_inv in Hrun as (tpl & w1 & Hmust & Hrun).
  destruct (render_templates AboutLayout m w w0 w1 r tpl Hagree Hparse Hmust)
    as [Htpl Hfs].
  apply bind_Done_inv in Hrun as ([file err] & w2 & Hcreate & Hrun).
  destruct err as [e|]; [done|]. cbv zeta in Hrun.
  destruct (run_page _ _ _ _ _ _ _ _ Hcreate Hrun) as [Herr ->].
  exists tpl. cbn [fs]. by rewrite Hfs.
Qed.

(** *** The pages of the posts in the file system *)

Lemma with_post_pages_other tpl postsData : ∀ (m : gmap string node) k,
  k ∉ (post_page ∘ Slug ∘ Metadata <$> postsData) →
  with_post_pages_ tpl postsData m !! k = m !! k.
Proof.
  induction postsData as [|post rest IH]; intros m k Hk; [done|].
  rewrite fmap_cons, not_elem_of_cons in Hk. destruct Hk as [Hne Hk].
  cbn [with_post_pages foldl].
  change (foldl _ ?m0 rest) with (with_post_pages_ tpl rest m0).
  rewrite IH by done. by rewrite lookup_insert_ne.
Qed.

Lemma with_post_pages_outside tpl postsData (m : gmap string node) k :
  under "public" k = false → with_post_pages_ tpl postsData m !! k = m !! k.
Proof.
  intros Hk. apply with_post_pages_other.
  intros (post & -> & _)%list_elem_of_fmap. done.
Qed.

Lemma with_post_pages_page tpl postsData : ∀ (m : gmap string node) post,
  NoDup (Slug ∘ Metadata <$> postsData) → post ∈ postsData →
  with_post_pages_ tpl postsData m !! post_page (Slug (Metadata post))
  = Some (File (rendered_ tpl (DataPost post))).
Proof.
  induction postsData as [|post0 rest IH]; intros m post Hnd Hin.
  { by apply elem_of_nil in Hin. }
  rewrite fmap_cons in Hnd. apply NoDup_cons in Hnd as [Hnotin Hnd].
  cbn [with_post_pages foldl].
  change (foldl _ ?m0 rest) with (with_post_pages_ tpl rest m0).
  apply elem_of_cons in Hin as [->|Hin]; [|by apply IH].
  rewrite with_post_pages_other; [by rewrite lookup_insert_eq|].
  intros (post & Heq & Hin)%list_elem_of_fmap.
  apply post_page_inj in Heq. apply Hnotin.
  apply list_elem_of_fmap. by exists post.
Qed.

Lemma with_post_pages_is_Some tpl postsData : ∀ (m : gmap string node) k,
  is_Some (with_post_pages_ tpl postsData m !! k)
  ↔ is_Some (m !! k) ∨ k ∈ (post_page ∘ Slug ∘ Metadata <$> postsData).
Proof.
  induction postsData as [|post rest IH]; intros m k.
  { rewrite fmap_nil, elem_of_nil. cbn. tauto. }
  cbn [with_post_pages foldl].
  change (foldl _ ?m0 rest) with (with_post_pages_ tpl rest m0).
  rewrite IH, fmap_cons, elem_of_cons, lookup_insert_is_Some.
  destruct (decide (post_page (Slug (Metadata post)) = k)) as [<-|Hne];
    cbn [compose]; [tauto|].
  split; [intros [[|[]]|]|intros [|[|]]]; try tauto; try congruence.
Qed.
(** *** A build that succeeds *)

Lemma load_post_agree (m m' : gmap string node) f :
  (∀ k, under "public" k = false → m !! k = m' !! k) →
  load_post_ m f = load_post_ m' f.
Proof.
  intros Hagree. unfold load_post.
  by rewrite (Hagree (post_source f)) by apply under_public_posts.
Qed.

Lemma copied_fs_outside (m : gmap string node) c k :
  under "public" k = false →
  <["public/style.css":=File c]> (setup_fs m) !! k = m !! k.
Proof.
  intros Hk. rewrite lookup_insert_ne by (by intros <-).
  by apply setup_fs_outside.
Qed.

(** What a run of [main] that returns has gone through, and the file
    system it leaves. *)
Lemma main_Done_inv_executions (w w' : World) :
  main_ w = (Done tt, w') →
  ∃ c posts sorted tplP tplI tplA,
    (fs w !! "static/style.css" = Some (File c)
     ∧ Forall2 (λ f post, load_post_ (fs w) f = inl post)
         (glob_posts (fs w)) posts
     ∧ GoSort.Slice post_less xorshift_Next posts = Some sorted
     ∧ loaded_templates_ (fs w) PostLayout = Done (Some tplP, None)
     ∧ loaded_templates_ (fs w) IndexLayout = Done (Some tplI, None)
     ∧ loaded_templates_ (fs w) AboutLayout = Done (Some tplA, None)
     ∧ fs w' = built_site Template template_Execute c tplP tplI tplA sorted
                 (fs w))
    ∧ Forall (λ post, (template_Execute tplP (DataPost post)).2 = None) sorted
    ∧ (template_Execute tplI (DataIndex (mkIndexData sorted "index"))).2
      = None
    ∧ (template_Execute tplA (DataAbout "about" "About me")).2 = None.
Proof.
  intros Hmain. rewrite main_setup in Hmain. unfold main_copy in Hmain.
  apply bind_Done_inv in Hmain as (err & w2 & Hcopy & Hmain).
  rewrite run_copyFile_setup in Hcopy.
  destruct (fs w !! "static/style.css") as [[c|]|] eqn:Hsrc;
    injection Hcopy as <- <-; [|done..].
  apply bind_Done_inv in Hmain as (_ & w2' & [_ ->]%fatal_on_Done_inv & Hmain).
  unfold main_load in Hmain.
  apply bind_Done_inv in Hmain as ([posts err] & w3 & Hload & Hmain).
  apply bind_Done_inv in Hmain as (_ & w3' & [-> ->]%fatal_on_Done_inv & Hmain).
  apply bind_Done_inv in Hmain as (sorted & w3' & Hsort & Hmain).
  unfold sort_posts in Hsort.
  destruct (GoSort.Slice post_less xorshift_Next posts) as [sorted'|] eqn:Hslice;
    [|done].
  injection Hsort as -> ->.
  unfold main_render in Hmain.
  apply bind_Done_inv in Hmain as (err5 & w4 & Hposts & Hmain).
  apply bind_Done_inv in Hmain as (_ & w4' & [-> ->]%fatal_on_Done_inv & Hmain).
  apply bind_Done_inv in Hmain as (err6 & w5 & Hindex & Hmain).
  apply bind_Done_inv in Hmain as (_ & w5' & [-> ->]%fatal_on_Done_inv & Hmain).
  apply bind_Done_inv in Hmain as (err7 & w6 & Habout & Hmain).
  apply fatal_on_Done_inv in Hmain as [-> ->].
  (* the posts *)
  rewrite run_getAllpostData in Hload.
  apply (getAllpostData_loop_loads frontmatter_Parse md_Convert) in Hload
    as (loaded & Hloaded & Hall & ->).
  rewrite app_nil_l in Hloaded. subst loaded. cbn [fs trace] in *.
  rewrite (glob_posts_agree _ (fs w)) in Hall by apply copied_fs_outside.
  assert (Forall2 (λ f post, load_post_ (fs w) f = inl post)
            (glob_posts (fs w)) posts) as Hall'.
  { eapply Forall2_impl; [exact Hall|]. intros f post <-.
    apply load_post_agree. intros k Hk. symmetry. by apply copied_fs_outside. }
  (* the pages *)
  apply (ParsepostsMDToHTML_writes (fs w)) in Hposts
    as (tplP & HtplP & HexP & Hfs4); [|apply copied_fs_outside].
  cbn [fs] in Hfs4.
  apply (ParseIndexTemplateToHTML_writes (fs w)) in Hindex
    as (tplI & HtplI & HexI & Hfs5).
  2:{ intros k Hk. rewrite Hfs4, with_post_pages_outside by done.
      by apply copied_fs_outside. }
  apply (ParseAboutPage_writes (fs w)) in Habout
    as (tplA & HtplA & HexA & Hfs6).
  2:{ intros k Hk. rewrite Hfs5, lookup_insert_ne by (by intros <-).
      rewrite Hfs4, with_post_pages_outside by done.
      by apply copied_fs_outside. }
  exists c, posts, sorted, tplP, tplI, tplA.
  split_and!; try done. unfold built_site. by rewrite Hfs6, Hfs5, Hfs4.
Qed.

Lemma main_Done_inv (w w' : World) :
  main_ w = (Done tt, w') →
  ∃ c posts sorted tplP tplI tplA,
    fs w !! "static/style.css" = Some (File c)
    ∧ Forall2 (λ f post, load_post_ (fs w) f = inl post)
        (glob_posts (fs w)) posts
    ∧ GoSort.Slice post_less xorshift_Next posts = Some sorted
    ∧ loaded_templates_ (fs w) PostLayout = Done (Some tplP, None)
    ∧ loaded_templates_ (fs w) IndexLayout = Done (Some tplI, None)
    ∧ loaded_templates_ (fs w) AboutLayout = Done (Some tplA, None)
    ∧ fs w' = built_site Template template_Execute c tplP tplI tplA sorted
                (fs w).
Proof.
  intros (c & posts & sorted & tplP & tplI & tplA & H & _)%
    main_Done_inv_executions.
  by exists c, posts, sorted, tplP, tplI, tplA.
Qed.
Lemma load_post_slug (m : gmap string node) f post :
  load_post_ m f = inl post → Slug (Metadata post) = slug_of f.
Proof.
  unfold load_post. destruct (m !! post_source f) as [[c|]|]; [|done..].
  destruct (frontmatter_Parse c) as [[rest meta]|e]; [|done].
  destruct (md_Convert rest); [|done]. by intros [= <-].
Qed.

Lemma loaded_slugs (m : gmap string node) filenames posts :
  Forall2 (λ f post, load_post_ m f = inl post) filenames posts →
  Slug ∘ Metadata <$> posts = slug_of <$> filenames.
Proof.
  induction 1 as [|f post filenames posts Hload _ IH]; [done|].
  rewrite !fmap_cons, IH. cbn [compose]. by rewrite (load_post_slug m f).
Qed.

Lemma Slice_posts_inv posts sorted :
  GoSort.Slice post_less xorshift_Next posts = Some sorted →
  posts ≡ₚ sorted ∧ descending sorted.
Proof.
  intros Hslice.
  destruct (Slice_spec post_less xorshift_Next post_less_strict_weak posts)
    as (sorted' & Hslice' & Hperm & Hsorted).
  rewrite Hslice in Hslice'. injection Hslice' as <-. split; [done|].
  intros i j pi pj Hij Hi Hj.
  pose proof (Hsorted i j pi pj ltac:(lia) Hij
                ltac:(by eapply lookup_lt_Some) Hi Hj) as Hno.
  unfold post_less in Hno. by apply After_false in Hno.
Qed.

Lemma slug_of_discovered_inj (m : gmap string node) f g :
  f ∈ glob_posts m → g ∈ glob_posts m → slug_of f = slug_of g → f = g.
Proof.
  intros Hf%elem_of_glob_posts%discovered_filename
         Hg%elem_of_glob_posts%discovered_filename Heq.
  rewrite Hf, Hg. unfold post_source. by rewrite Heq.
Qed.

Lemma glob_slugs_NoDup (m : gmap string node) :
  NoDup (slug_of <$> glob_posts m).
Proof.
  apply NoDup_fmap_2_strong; [|apply glob_posts_NoDup].
  intros f g. apply slug_of_discovered_inj.
Qed.

(** X8. No two discovered post sources get the same page: the paths
    [public/posts/<slug>.html] of the discovered files are pairwise
    different, so no page of a build overwrites another. *)
Theorem post_pages_distinct (m : gmap string node) :
  NoDup (post_page ∘ slug_of <$> glob_posts m)
  ∧ ∀ f g, discovered m f → discovered m g →
      post_page (slug_of f) = post_page (slug_of g) → f = g.
Proof.
  split.
  - rewrite list_fmap_compose. apply NoDup_fmap_2; [|apply glob_slugs_NoDup].
    intros s t. apply post_page_inj.
  - intros f g Hf%elem_of_glob_posts Hg%elem_of_glob_posts Heq%post_page_inj.
    by eapply slug_of_discovered_inj.
Qed.

Lemma sorted_pages (m : gmap string node) posts sorted :
  Forall2 (λ f post, load_post_ m f = inl post) (glob_posts m) posts →
  posts ≡ₚ sorted →
  post_page ∘ Slug ∘ Metadata <$> sorted
  ≡ₚ post_page ∘ slug_of <$> glob_posts m.
Proof.
  intros Hall Hperm. rewrite <-Hperm. clear Hperm.
  induction Hall as [|f post filenames posts Hload _ IH]; [done|].
  rewrite !fmap_cons, IH. cbn [compose]. by rewrite (load_post_slug m f).
Qed.

Lemma built_site_is_Some c tplP tplI tplA (m : gmap string node) posts sorted k :
  Forall2 (λ f post, load_post_ m f = inl post) (glob_posts m) posts →
  posts ≡ₚ sorted → under "public" k = true →
  is_Some (built_site Template template_Execute c tplP tplI tplA sorted m !! k)
  ↔ k ∈ output_entries (glob_posts m).
Proof.
  intros Hall Hperm Hu. unfold built_site, output_entries.
  rewrite !lookup_insert_is_Some, with_post_pages_is_Some,
    lookup_insert_is_Some.
  rewrite elem_of_app, !elem_of_cons, elem_of_nil.
  rewrite (sorted_pages m posts sorted Hall Hperm).
  rewrite setup_fs_lookup, Hu.
  generalize (k ∈ post_page ∘ slug_of <$> glob_posts m). intros Q.
  repeat case_decide; rewrite ?is_Some_alt;
    destruct (decide ("public/about.html" = k)),
      (decide ("public/index.html" = k)), (decide ("public/style.css" = k));
    intuition congruence.
Qed.

(** X9. After a build that succeeds the output directory holds exactly
    the directory itself, [posts] in it, the stylesheet, the index page,
    the about page and one page for every discovered post source;
    whatever it held before is gone. *)
Theorem main_output_entries (w w' : World) :
  main_ w = (Done tt, w') →
  fs w' !! "public" = Some Dir ∧ fs w' !! "public/posts" = Some Dir
  ∧ ∀ k, under "public" k = true →
      (is_Some (fs w' !! k) ↔ k ∈ output_entries (glob_posts (fs w))).
Proof.
  intros (c & posts & sorted & tplP & tplI & tplA & Hc & Hall
          & [Hperm _]%Slice_posts_inv & _ & _ & _ & ->)%main_Done_inv.
  split_and!.
  - unfold built_site. rewrite !lookup_insert_ne by done.
    rewrite with_post_pages_other.
    { rewrite lookup_insert_ne by done. by rewrite setup_fs_lookup. }
    intros (post & Heq & _)%list_elem_of_fmap. symmetry in Heq.
    by apply post_page_not_fixed in Heq.
  - unfold built_site. rewrite !lookup_insert_ne by done.
    rewrite with_post_pages_other.
    { rewrite lookup_insert_ne by done. by rewrite setup_fs_lookup. }
    intros (post & Heq & _)%list_elem_of_fmap. symmetry in Heq.
    by apply post_page_not_fixed in Heq.
  - intros k Hu. by eapply built_site_is_Some.
Qed.
Lemma built_site_post_pages c tplP tplI tplA (m : gmap string node) sorted k :
  k ≠ "public/about.html" → k ≠ "public/index.html" →
  built_site Template template_Execute c tplP tplI tplA sorted m !! k
  = with_post_pages_ tplP sorted (<["public/style.css":=File c]> (setup_fs m))
    !! k.
Proof.
  intros Ha Hi. unfold built_site. by rewrite !lookup_insert_ne.
Qed.

(** X10. After a build that succeeds [public/style.css] holds the bytes
    of [static/style.css], which is a regular file and is left as it
    was. *)
Theorem main_copies_stylesheet (w w' : World) :
  main_ w = (Done tt, w') →
  ∃ c, fs w !! "static/style.css" = Some (File c)
    ∧ fs w' !! "public/style.css" = Some (File c)
    ∧ fs w' !! "static/style.css" = Some (File c).
Proof.
  intros Hmain. pose proof (main_writes_public_only frontmatter_Parse
    md_Convert Template template_Parse template_Execute xorshift_Next w)
    as Hframe.
  rewrite Hmain in Hframe. cbn [snd] in Hframe.
  apply main_Done_inv in Hmain
    as (c & posts & sorted & tplP & tplI & tplA & Hc & _ & _ & _ & _ & _ & Hfs).
  exists c. split_and!; [done| |by rewrite Hframe].
  rewrite Hfs, built_site_post_pages by done.
  rewrite with_post_pages_other; [apply lookup_insert_eq|].
  intros (post & Heq & _)%list_elem_of_fmap. symmetry in Heq.
  by apply post_page_not_fixed in Heq.
Qed.

(** X11. After a build that succeeds the page of every discovered post
    source [posts/<slug>.md] holds exactly what the post template (the
    files [post.html], [header.html], [footer.html] of [template], loaded
    in this order) writes for the record of that post: the front matter
    of the file with the slug of its name and its converted body. *)
Theorem main_post_page_content (w w' : World) (f : string) :
  main_ w = (Done tt, w') → discovered (fs w) f →
  ∃ tpl post,
    loaded_templates_ (fs w) PostLayout = Done (Some tpl, None)
    ∧ load_post_ (fs w) f = inl post
    ∧ fs w' !! ("public/posts/" +:+ slug_of f +:+ ".html")
      = Some (File (rendered_ tpl (DataPost post))).
Proof.
  intros (c & posts & sorted & tplP & tplI & tplA & Hc & Hall
          & [Hperm _]%Slice_posts_inv & HtplP & _ & _ & ->)%main_Done_inv
         Hdisc%elem_of_glob_posts.
  apply list_elem_of_lookup in Hdisc as [i Hi].
  destruct (Forall2_lookup_l _ _ _ _ _ Hall Hi) as (post & Hpost & Hload).
  exists tplP, post. split_and!; [done..|].
  fold (post_page (slug_of f)). rewrite <-(load_post_slug _ _ _ Hload).
  rewrite built_site_post_pages
    by (intros Heq; by apply post_page_not_fixed in Heq).
  apply with_post_pages_page.
  - rewrite <-Hperm, (loaded_slugs _ _ _ Hall). apply glob_slugs_NoDup.
  - rewrite <-Hperm. by eapply list_elem_of_lookup_2.
Qed.

(** X12. After a build that succeeds [public/index.html] holds exactly
    what the index template writes for the page identifier [index] and
    the records of all the discovered posts, one for each source file,
    in the order [sort.Slice] leaves them in: no post before a newer
    one. *)
Theorem main_index_page_content (w w' : World) :
  main_ w = (Done tt, w') →
  ∃ tpl posts sorted,
    loaded_templates_ (fs w) IndexLayout = Done (Some tpl, None)
    ∧ Forall2 (λ f post, load_post_ (fs w) f = inl post)
        (glob_posts (fs w)) posts
    ∧ GoSort.Slice post_less xorshift_Next posts = Some sorted
    ∧ posts ≡ₚ sorted ∧ descending sorted
    ∧ fs w' !! "public/index.html"
      = Some (File (rendered_ tpl (DataIndex (mkIndexData sorted "index")))).
Proof.
  intros (c & posts & sorted & tplP & tplI & tplA & Hc & Hall
          & Hslice & _ & HtplI & _ & ->)%main_Done_inv.
  destruct (Slice_posts_inv _ _ Hslice) as [Hperm Hdesc].
  exists tplI, posts, sorted. split_and!; [done..|].
  unfold built_site. rewrite lookup_insert_ne by done.
  apply lookup_insert_eq.
Qed.

(** X13. After a build that succeeds [public/about.html] holds exactly
    what the about template writes for the page identifier [about] and
    the title [About me]: it depends on the three template files and on
    nothing else. *)
Theorem main_about_page_content (w w' : World) :
  main_ w = (Done tt, w') →
  ∃ tpl,
    loaded_templates_ (fs w) AboutLayout = Done (Some tpl, None)
    ∧ fs w' !! "public/about.html"
      = Some (File (rendered_ tpl (DataAbout "about" "About me"))).
Proof.
  intros (c & posts & sorted & tplP & tplI & tplA & Hc & Hall
          & Hslice & _ & _ & HtplA & ->)%main_Done_inv.
  exists tplA. split; [done|]. apply lookup_insert_eq.
Qed.
End Output.

Lemma main_output_entries_witness :
  fs (toy_main sample_world).2 !! "public" = Some Dir
  ∧ fs (toy_main sample_world).2 !! "public/posts" = Some Dir
  ∧ ∀ k, under "public" k = true →
      (is_Some (fs (toy_main sample_world).2 !! k)
       ↔ k ∈ output_entries (glob_posts (fs sample_world))).
Proof.
  apply (main_output_entries toy_frontmatter toy_markdown (list string)
           toy_parse toy_execute xorshift64 sample_world).
  vm_compute. reflexivity.
Defined.

Lemma main_copies_stylesheet_witness :
  ∃ c, fs sample_world !! "static/style.css" = Some (File c)
    ∧ fs (toy_main sample_world).2 !! "public/style.css" = Some (File c)
    ∧ fs (toy_main sample_world).2 !! "static/style.css" = Some (File c).
Proof.
  apply (main_copies_stylesheet toy_frontmatter toy_markdown (list string)
           toy_parse toy_execute xorshift64 sample_world).
  vm_compute. reflexivity.
Defined.

Lemma main_post_page_content_witness :
  ∃ tpl post,
    loaded_templates (list string) toy_parse (fs sample_world) PostLayout
    = Done (Some tpl, None)
    ∧ load_post toy_frontmatter toy_markdown (fs sample_world)
        "posts/second.md" = inl post
    ∧ fs (toy_main sample_world).2
        !! ("public/posts/" +:+ slug_of "posts/second.md" +:+ ".html")
      = Some (File (rendered (list string) toy_execute tpl (DataPost post))).
Proof.
  apply (main_post_page_content toy_frontmatter toy_markdown (list string)
           toy_parse toy_execute xorshift64 sample_world).
  - vm_compute. reflexivity.
  - split_and!; [vm_compute; reflexivity..|]. vm_compute. by eexists.
Defined.

Lemma main_index_page_content_witness :
  ∃ tpl posts sorted,
    loaded_templates (list string) toy_parse (fs sample_world) IndexLayout
    = Done (Some tpl, None)
    ∧ Forall2 (λ f post, load_post toy_frontmatter toy_markdown
                           (fs sample_world) f = inl post)
        (glob_posts (fs sample_world)) posts
    ∧ GoSort.Slice post_less xorshift64 posts = Some sorted
    ∧ posts ≡ₚ sorted ∧ descending sorted
    ∧ fs (toy_main sample_world).2 !! "public/index.html"
      = Some (File (rendered (list string) toy_execute tpl
                      (DataIndex (mkIndexData sorted "index")))).
Proof.
  apply (main_index_page_content toy_frontmatter toy_markdown (list string)
           toy_parse toy_execute xorshift64 sample_world).
  vm_compute. reflexivity.
Defined.

Lemma main_about_page_content_witness :
  ∃ tpl,
    loaded_templates (list string) toy_parse (fs sample_world) AboutLayout
    = Done (Some tpl, None)
    ∧ fs (toy_main sample_world).2 !! "public/about.html"
      = Some (File (rendered (list string) toy_execute tpl
                      (DataAbout "about" "About me"))).
Proof.
  apply (main_about_page_content toy_frontmatter toy_markdown (list string)
           toy_parse toy_execute xorshift64 sample_world).
  vm_compute. reflexivity.
Defined.

(** ** How a run ends *)

Lemma ends_properly_ret {A} (a : A) (w : World) :
  ends_properly (trace w) ((mret a : M A) w).
Proof. exists []. by rewrite app_nil_r. Qed.

Lemma ends_properly_one {A} (a : A) (m : gmap string node) (e : event)
    (w : World) :
  silent e → ends_properly (trace w) (Done a, mkWorld m (trace w ++ [e])).
Proof. intros He. exists [e]. split; [done|]. by constructor. Qed.

Lemma ends_properly_bind {A B} (m : M A) (k : A → M B) :
  (∀ w, ends_properly (trace w) (m w)) →
  (∀ a w, ends_properly (trace w) (k a w)) →
  ∀ w, ends_properly (trace w) ((m ≫= k) w).
Proof.
  intros Hm Hk w. rewrite bind_run. specialize (Hm w).
  destruct (m w) as [[a|v|c] w1]; [|done..].
  destruct Hm as (evs1 & Ht1 & Hs1). cbn [snd] in Ht1.
  specialize (Hk a w1). unfold ends_properly in *.
  destruct (k a w1) as [[b|v|c] w2]; cbn [fst snd] in *.
  - destruct Hk as (evs2 & Ht2 & Hs2). exists (evs1 ++ evs2).
    split; [|by apply Forall_app]. by rewrite Ht2, Ht1, app_assoc.
  - destruct Hk as (evs2 & Ht2 & Hs2). exists (evs1 ++ evs2).
    split; [|by apply Forall_app]. by rewrite Ht2, Ht1, app_assoc.
  - destruct Hk as (-> & evs2 & msg & Ht2 & Hs2). split; [done|].
    exists (evs1 ++ evs2), msg.
    split; [|by apply Forall_app]. by rewrite Ht2, Ht1, <-!app_assoc.
Qed.

Lemma ends_properly_after {A} (t pre : list event) (r : outcome A * World) :
  Forall silent pre → ends_properly (t ++ pre) r → ends_properly t r.
Proof.
  intros Hpre. unfold ends_properly.
  destruct r as [[a|v|c] w1]; cbn [fst snd].
  - intros (evs & -> & Hs). exists (pre ++ evs).
    split; [by rewrite <-app_assoc|]. by apply Forall_app.
  - intros (evs & -> & Hs). exists (pre ++ evs).
    split; [by rewrite <-app_assoc|]. by apply Forall_app.
  - intros (-> & evs & msg & -> & Hs). split; [done|].
    exists (pre ++ evs), msg.
    split; [by rewrite <-!app_assoc|]. by apply Forall_app.
Qed.

Lemma ends_properly_fatal_on prefix err (w : World) :
  ends_properly (trace w) (fatal_on prefix err w).
Proof.
  destruct err as [e|]; [|apply ends_properly_ret].
  rewrite run_fatal_on_Some. split; [done|].
  exists [], (prefix +:+ e). by split.
Qed.

Lemma ends_properly_Open path (w : World) :
  ends_properly (trace w) (os_Open path w).
Proof. rewrite run_Open. by apply ends_properly_one. Qed.

Lemma ends_properly_Create path (w : World) :
  ends_properly (trace w) (os_Create path w).
Proof.
  rewrite run_Create. destruct (parent_status _ _);
    [|destruct (fs w !! path) as [[]|]]; by apply ends_properly_one.
Qed.

Lemma ends_properly_ReadAll f (w : World) :
  ends_properly (trace w) (io_ReadAll f w).
Proof. rewrite run_ReadAll. exists []. by rewrite app_nil_r. Qed.

Lemma ends_properly_Write f data (w : World) :
  ends_properly (trace w) (file_Write f data w).
Proof.
  rewrite run_Write. destruct (fs w !! f) as [[]|];
    by apply ends_properly_one.
Qed.

Lemma ends_properly_Copy dst src (w : World) :
  ends_properly (trace w) (io_Copy dst src w).
Proof.
  rewrite run_Copy. destruct (fs w !! src) as [[]|];
    [apply ends_properly_Write|exists []; by rewrite app_nil_r..].
Qed.

Lemma ends_properly_ReadFile name (w : World) :
  ends_properly (trace w) (os_ReadFile name w).
Proof. rewrite run_ReadFile. by apply ends_properly_one. Qed.

Lemma ends_properly_copyFile src dst (w : World) :
  ends_properly (trace w) (copyFile src dst w).
Proof.
  revert w. unfold copyFile.
  apply ends_properly_bind; [apply ends_properly_Open|].
  intros [f [e|]]; [apply ends_properly_ret|].
  apply ends_properly_bind; [apply ends_properly_Create|].
  intros [d [e|]]; [apply ends_properly_ret|].
  apply ends_properly_bind; [apply ends_properly_Copy|].
  intros [e|]; apply ends_properly_ret.
Qed.

Section Ending.
Variable frontmatter_Parse : string → (string * PostMetadata) + error.
Variable md_Convert : string → string + error.
Variable Template : Type.
Variable template_Parse : option Template → string → string → Template + error.
Variable template_Execute : Template → TemplateData → string * option error.
Variable xorshift_Next : N → N.

Lemma ends_properly_getAllpostData (w : World) :
  ends_properly (trace w) (getAllpostData frontmatter_Parse md_Convert w).
Proof.
  rewrite run_getAllpostData.
  assert (∀ filenames posts (w0 : World),
            ends_properly (trace w0)
              (getAllpostData_loop frontmatter_Parse md_Convert filenames
                 posts w0)) as Hloop.
  { induction filenames as [|f filenames IH]; intros posts w0;
      [apply ends_properly_ret|].
    rewrite getAllpostData_loop_cons.
    assert (∀ r : list PostData * option error,
              ends_properly (trace w0)
                (Done r,
                 mkWorld (fs w0) (trace w0 ++ [EvOpen (post_source f)])))
      as Hone by (intros r; by apply ends_properly_one).
    destruct (fs w0 !! post_source f) as [[c|]|]; [|apply Hone..].
    destruct (frontmatter_Parse c) as [[rest meta]|e]; [|apply Hone].
    destruct (md_Convert rest) as [buf|e]; [|apply Hone].
    apply (ends_properly_after (trace w0) [EvOpen (post_source f)]);
      [by repeat constructor|].
    apply (IH _ (mkWorld (fs w0) (trace w0 ++ [EvOpen (post_source f)]))). }
  apply (ends_properly_after (trace w) [EvGlob "posts/*.md"]);
    [by repeat constructor|].
  apply (Hloop _ _ (mkWorld (fs w) (trace w ++ [EvGlob "posts/*.md"]))).
Qed.

Lemma ends_properly_parseFiles files : ∀ t (w : World),
  ends_properly (trace w)
    (template_parseFiles Template template_Parse t files w).
Proof.
  induction files as [|f files IH]; intros t; cbn [template_parseFiles];
    [apply ends_properly_ret|].
  apply ends_properly_bind; [apply ends_properly_ReadFile|].
  intros [b [e|]]; [apply ends_properly_ret|].
  destruct (template_Parse t (Base f) b); [apply IH|apply ends_properly_ret].
Qed.

Lemma ends_properly_ParseFiles files (w : World) :
  ends_properly (trace w)
    (template_ParseFiles Template template_Parse files w).
Proof.
  destruct files; [apply ends_properly_ret|apply ends_properly_parseFiles].
Qed.

Lemma ends_properly_Must r (w : World) :
  ends_properly (trace w) (template_Must Template r w).
Proof.
  destruct r as [[t|] [e|]]; unfold template_Must, panic;
    first [apply ends_properly_ret|exists []; by rewrite app_nil_r].
Qed.

Lemma ends_properly_Execute tpl file data (w : World) :
  ends_properly (trace w)
    (Execute Template template_Execute tpl file data w).
Proof.
  revert w. unfold Execute. apply ends_properly_bind.
  { intros w. by apply ends_properly_one. }
  intros _. destruct (template_Execute tpl data) as [out err].
  apply ends_properly_bind; [apply ends_properly_Write|].
  intros werr. apply ends_properly_ret.
Qed.

Lemma ends_properly_render l postsData (w : World) :
  ends_properly (trace w)
    (render Template template_Parse template_Execute l postsData w).
Proof.
  revert w.
  assert (∀ tpl posts (w : World),
            ends_properly (trace w)
              (ParsepostsMDToHTML_loop Template template_Execute tpl posts w))
    as Hloop.
  { intros tpl posts. induction posts as [|post rest IH];
      cbn [ParsepostsMDToHTML_loop]; [apply ends_properly_ret|].
    apply ends_properly_bind; [apply ends_properly_Create|].
    intros [file [e|]]; [apply ends_properly_ret|].
    apply ends_properly_bind; [apply ends_properly_Execute|].
    intros [e|]; [apply ends_properly_ret|apply IH]. }
  destruct l; cbn [render];
    [unfold ParsepostsMDToHTML|unfold ParseIndexTemplateToHTML
    |unfold ParseAboutPage];
    (apply ends_properly_bind; [apply ends_properly_ParseFiles|]); intros r;
    (apply ends_properly_bind; [apply ends_properly_Must|]); intros tpl.
  - apply Hloop.
  - apply ends_properly_bind; [apply ends_properly_Create|].
    intros [file [e|]]; [apply ends_properly_ret|]. cbv zeta.
    apply ends_properly_bind; [apply ends_properly_Execute|].
    intros [e|]; apply ends_properly_ret.
  - apply ends_properly_bind; [apply ends_properly_Create|].
    intros [file [e|]]; [apply ends_properly_ret|]. cbv zeta.
    apply ends_properly_Execute.
Qed.

(** X14. However a run of [main] ends, it has written to standard error
    only if it exits, and then once, as the last thing it does, and the
    exit status is 1; a run that returns, and a run that panics in
    [template.Must], has logged nothing. *)
Theorem main_ends_properly (w : World) :
  ends_properly (trace w)
    (main frontmatter_Parse md_Convert Template template_Parse
       template_Execute xorshift_Next w).
Proof.
  rewrite main_setup. unfold main_copy, main_load, main_render.
  assert (∀ w0 : World,
    ends_properly (trace w0)
      ((err ← copyFile "static/style.css" "public/style.css";
        fatal_on "Error copying styles: " err;;
        '(postsData, err) ← getAllpostData frontmatter_Parse md_Convert;
        fatal_on "" err;;
        postsData ← sort_posts xorshift_Next postsData;
        err ← ParsepostsMDToHTML Template template_Parse template_Execute
                postsData;
        fatal_on "" err;;
        err ← ParseIndexTemplateToHTML Template template_Parse
                template_Execute postsData;
        fatal_on "" err;;
        err ← ParseAboutPage Template template_Parse template_Execute;
        fatal_on "" err) w0)) as Hrest.
  { apply ends_properly_bind; [apply ends_properly_copyFile|]. intros err3.
    apply ends_properly_bind; [apply ends_properly_fatal_on|]. intros _.
    apply ends_properly_bind; [apply ends_properly_getAllpostData|].
    intros [postsData err4].
    apply ends_properly_bind; [apply ends_properly_fatal_on|]. intros _.
    apply ends_properly_bind.
    { intros w0. destruct (sort_posts_spec xorshift_Next postsData w0)
        as (sorted & -> & _). exists []. by rewrite app_nil_r. }
    intros sorted.
    apply ends_properly_bind;
      [apply (ends_properly_render PostLayout sorted)|]. intros err5.
    apply ends_properly_bind; [apply ends_properly_fatal_on|]. intros _.
    apply ends_properly_bind;
      [apply (ends_properly_render IndexLayout sorted)|]. intros err6.
    apply ends_properly_bind; [apply ends_properly_fatal_on|]. intros _.
    apply ends_properly_bind;
      [apply (ends_properly_render AboutLayout sorted)|]. intros err7.
    apply ends_properly_fatal_on. }
  apply (ends_properly_after (trace w) setup_events);
    [by repeat constructor|].
  apply (Hrest (mkWorld (setup_fs (fs w)) (trace w ++ setup_events))).
Qed.
End Ending.

(** ** Failures while loading and rendering *)

Section Failures.
Variable frontmatter_Parse : string → (string * PostMetadata) + error.
Variable md_Convert : string → string + error.
Variable Template : Type.
Variable template_Parse : option Template → string → string → Template + error.
Variable template_Execute : Template → TemplateData → string * option error.
Variable xorshift_Next : N → N.

Abbreviation main_ :=
  (main frontmatter_Parse md_Convert Template template_Parse template_Execute
     xorshift_Next).
Abbreviation load_post_ := (load_post frontmatter_Parse md_Convert).
Abbreviation loaded_templates_ := (loaded_templates Template template_Parse).
Abbreviation rendered_ := (rendered Template template_Execute).
Abbreviation with_post_pages_ := (with_post_pages Template template_Execute).

Lemma Forall_exists_Forall2 {X Y} (P : X → Y → Prop) (l : list X) :
  Forall (λ x, ∃ y, P x y) l → ∃ k, Forall2 P l k.
Proof.
  induction 1 as [|x l [y Hy] _ [k IH]]; [by exists []|].
  exists (y :: k). by constructor.
Qed.

(** X15. When the stylesheet is copied and a discovered post does not
    load, [main] exits with status 1 and the line it logs is the error of
    the first such post in the order of discovery, which names the step
    that failed; the output directory then holds the stylesheet and the
    empty [posts]. *)
Theorem main_reports_first_failing_post (w : World) c before f behind e :
  fs w !! "static/style.css" = Some (File c) →
  glob_posts (fs w) = before ++ f :: behind →
  Forall (λ g, ∃ post, load_post_ (fs w) g = inl post) before →
  load_post_ (fs w) f = inr e →
  ∃ w', main_ w = (Exit 1, w')
    ∧ last (trace w') = Some (EvLog e)
    ∧ fs w' = <["public/style.css":=File c]> (setup_fs (fs w)).
Proof.
  intros Hsrc Hglob [loaded Hall]%Forall_exists_Forall2 Hf.
  rewrite main_setup. unfold main_copy.
  erewrite step_Done by (rewrite run_copyFile_setup, Hsrc; reflexivity).
  erewrite step_Done by apply run_fatal_on_None.
  unfold main_load.
  erewrite step_Done.
  2:{ rewrite run_getAllpostData. cbn [fs trace].
      apply (getAllpostData_loop_stops frontmatter_Parse md_Convert).
      exists before, f, behind, loaded. cbn [fs trace].
      rewrite (glob_posts_agree _ (fs w)) by apply copied_fs_outside.
      split_and!; [done|done| | |done].
      - eapply Forall2_impl; [exact Hall|]. intros g post <-.
        apply load_post_agree, copied_fs_outside.
      - rewrite <-Hf. apply load_post_agree, copied_fs_outside. }
  cbv beta iota.
  erewrite step_Exit by apply run_fatal_on_Some.
  eexists. split; [done|]. cbn [fs trace]. split; [|done].
  by rewrite last_snoc.
Qed.

Lemma Create_error_inv path file e (w w1 : World) :
  os_Create path w = (Done (file, Some e), w1) →
  w1 = mkWorld (fs w) (trace w ++ [EvCreate path]).
Proof.
  rewrite run_Create. destruct (parent_status _ _); [by intros [= _ _ <-]|].
  destruct (fs w !! path) as [[]|]; by intros [= _ _ <-].
Qed.

Lemma template_parseFiles_trace files : ∀ t tpl (w w1 : World),
  template_parseFiles Template template_Parse t files w
  = (Done (Some tpl, None), w1) →
  trace w1 = trace w ++ (EvOpen <$> files).
Proof.
  induction files as [|f files IH]; intros t tpl w w1.
  { intros [= _ <-]. by rewrite app_nil_r. }
  rewrite template_parseFiles_cons.
  destruct (fs w !! f) as [[c|]|]; [|done..].
  destruct (template_Parse t (Base f) c); [|done].
  intros ->%IH. cbn [trace]. by rewrite <-app_assoc.
Qed.

Lemma ParsepostsMDToHTML_loop_stops tpl postsData : ∀ (w w' : World) e,
  ParsepostsMDToHTML_loop Template template_Execute tpl postsData w
  = (Done (Some e), w') →
  ∃ before post behind,
    postsData = before ++ post :: behind
    ∧ Forall (λ p, (template_Execute tpl (DataPost p)).2 = None) before
    ∧ ((∃ e0, e = "HTML File creation error: " +:+ e0
          ∧ w' = mkWorld (with_post_pages_ tpl before (fs w))
                   (trace w ++ page_events before
                    ++ [EvCreate (post_page (Slug (Metadata post)))]))
       ∨ (∃ e0, e = "Tempalate Execute error: " +:+ e0
            ∧ (template_Execute tpl (DataPost post)).2 = Some e0
            ∧ w' = mkWorld (with_post_pages_ tpl (before ++ [post]) (fs w))
                     (trace w ++ page_events (before ++ [post])))).
Proof.
  induction postsData as [|post rest IH]; intros w w' e Hrun; [done|].
  cbn [ParsepostsMDToHTML_loop] in Hrun.
  apply bind_Done_inv in Hrun as ([file err] & w1 & Hcreate & Hrun).
  destruct err as [e1|].
  { apply Create_error_inv in Hcreate as ->. injection Hrun as <- <-.
    exists [], post, rest. split_and!; [done|done|]. left. by exists e1. }
  apply bind_Done_inv in Hrun as (r & w2 & Hexec & Hrun).
  destruct (run_page _ _ _ _ _ _ _ _ _ _ Hcreate Hexec) as [-> ->].
  destruct (template_Execute tpl (DataPost post)).2 as [e0|] eqn:Herr.
  { injection Hrun as <- <-. exists [], post, rest.
    split_and!; [done|done|]. right. exists e0. split_and!; [done..|].
    reflexivity. }
  apply IH in Hrun as (before & post' & behind & -> & Hall & Hcase).
  exists (post :: before), post', behind. cbn [fs trace] in Hcase.
  split_and!; [done|by constructor|].
  destruct Hcase as [(e0 & -> & ->)|(e0 & -> & Hpost' & ->)]; [left|right];
    exists e0; split_and!; try done; f_equal; unfold page_events;
    rewrite <-?app_comm_cons, bind_cons, <-!app_assoc; done.
Qed.

(** X16. When [ParsepostsMDToHTML] returns an error it has stopped at the
    first post whose page could not be created or whose execution of the
    template failed: the posts before it have their pages, a page whose
    execution failed is left with what was written, the posts behind it
    have not been touched, and the error says which of the two it was. *)
Theorem ParsepostsMDToHTML_stops_at_first_failure postsData (w w' : World) e :
  ParsepostsMDToHTML Template template_Parse template_Execute postsData w
  = (Done (Some e), w') →
  ∃ tpl before post behind,
    loaded_templates_ (fs w) PostLayout = Done (Some tpl, None)
    ∧ postsData = before ++ post :: behind
    ∧ Forall (λ p, (template_Execute tpl (DataPost p)).2 = None) before
    ∧ ((∃ e0, e = "HTML File creation error: " +:+ e0
          ∧ fs w' = with_post_pages_ tpl before (fs w)
          ∧ trace w' = trace w ++ (EvOpen <$> layout_files PostLayout)
                       ++ page_events before
                       ++ [EvCreate (post_page (Slug (Metadata post)))])
       ∨ (∃ e0, e = "Tempalate Execute error: " +:+ e0
            ∧ (template_Execute tpl (DataPost post)).2 = Some e0
            ∧ fs w' = with_post_pages_ tpl (before ++ [post]) (fs w)
            ∧ trace w' = trace w ++ (EvOpen <$> layout_files PostLayout)
                         ++ page_events (before ++ [post]))).
Proof.
  intros Hrun. unfold ParsepostsMDToHTML in Hrun.
  apply bind_Done_inv in Hrun as (r & w0 & Hparse & Hrun).
  apply bind_Done_inv in Hrun as (tpl & w1 & Hmust & Hrun).
  destruct (render_templates Template template_Parse PostLayout (fs w)
              w w0 w1 r tpl ltac:(done) Hparse Hmust) as [Htpl Hfs].
  assert (trace w1 = trace w ++ (EvOpen <$> layout_files PostLayout)) as Ht.
  { destruct r as [[t|] [e1|]]; unfold template_Must, panic in Hmust;
      try done. rewrite run_ret in Hmust. injection Hmust as -> ->.
    by apply template_parseFiles_trace in Hparse. }
  apply ParsepostsMDToHTML_loop_stops in Hrun
    as (before & post & behind & -> & Hall & Hcase).
  exists tpl, before, post, behind. split_and!; [done..|].
  destruct Hcase as [(e0 & -> & ->)|(e0 & -> & Hpost & ->)]; [left|right];
    exists e0; cbn [fs trace]; rewrite Hfs, Ht, <-?app_assoc; by split_and!.
Qed.
End Failures.

Lemma main_reports_first_failing_post_witness :
  ∃ w', toy_main unreadable_post_world = (Exit 1, w')
    ∧ last (trace w')
      = Some (EvLog ("post Read error: "
                     +:+ ("read " +:+ post_source "posts/second.md"
                          +:+ ": is a directory")))
    ∧ fs w' = <["public/style.css":=File "body{}"]>
                (setup_fs (fs unreadable_post_world)).
Proof.
  apply (main_reports_first_failing_post toy_frontmatter toy_markdown
           (list string) toy_parse toy_execute xorshift64
           unreadable_post_world "body{}" ["posts/hello.md"]
           "posts/second.md" []).
  - vm_compute. reflexivity.
  - vm_compute. reflexivity.
  - repeat constructor. eexists. vm_compute. reflexivity.
  - vm_compute. reflexivity.
Defined.

Lemma ParsepostsMDToHTML_stops_at_first_failure_witness :
  ∃ tpl before post behind,
    loaded_templates (list string) toy_parse (fs recreated_world) PostLayout
    = Done (Some tpl, None)
    ∧ posts_bad_slug = before ++ post :: behind
    ∧ Forall (λ p, (toy_execute tpl (DataPost p)).2 = None) before
    ∧ ((∃ e0,
          "HTML File creation error: open public/posts/x/y.html: no such file or directory"
          = "HTML File creation error: " +:+ e0
          ∧ fs (ParsepostsMDToHTML (list string) toy_parse toy_execute
                  posts_bad_slug recreated_world).2
            = with_post_pages (list string) toy_execute tpl before
                (fs recreated_world)
          ∧ trace (ParsepostsMDToHTML (list string) toy_parse toy_execute
                     posts_bad_slug recreated_world).2
            = trace recreated_world ++ (EvOpen <$> layout_files PostLayout)
              ++ page_events before
              ++ [EvCreate (post_page (Slug (Metadata post)))])
       ∨ (∃ e0,
            "HTML File creation error: open public/posts/x/y.html: no such file or directory"
            = "Tempalate Execute error: " +:+ e0
            ∧ (toy_execute tpl (DataPost post)).2 = Some e0
            ∧ fs (ParsepostsMDToHTML (list string) toy_parse toy_execute
                    posts_bad_slug recreated_world).2
              = with_post_pages (list string) toy_execute tpl
                  (before ++ [post]) (fs recreated_world)
            ∧ trace (ParsepostsMDToHTML (list string) toy_parse toy_execute
                       posts_bad_slug recreated_world).2
              = trace recreated_world ++ (EvOpen <$> layout_files PostLayout)
                ++ page_events (before ++ [post]))).
Proof.
  apply (ParsepostsMDToHTML_stops_at_first_failure (list string) toy_parse
           toy_execute posts_bad_slug recreated_world).
  vm_compute. reflexivity.
Defined.

(** ** When a build succeeds *)

Lemma no_separator_app (a b : string) :
  no_separator (a +:+ b) = no_separator a && no_separator b.
Proof.
  induction a as [|c a IH]; [done|].
  change (String c a +:+ b) with (String c (a +:+ b)).
  cbn [no_separator]. by rewrite IH, andb_assoc.
Qed.

Lemma components_no_separator (s : string) :
  no_separator s = true → components s = [s].
Proof.
  induction s as [|c s IH]; [done|].
  cbn [no_separator components]. intros [Hc Hs]%andb_prop.
  destruct (Ascii.eqb c "/"); [done|]. by rewrite IH.
Qed.

Lemma dirname_post_page (slug : string) :
  no_separator slug = true → dirname (post_page slug) = "public/posts".
Proof.
  intros Hslug. unfold dirname, post_page.
  assert (components (slug +:+ ".html") = [slug +:+ ".html"]) as Hc.
  { apply components_no_separator. by rewrite no_separator_app, Hslug. }
  assert (∀ c s t, String c s +:+ t = String c (s +:+ t)) as Happ by done.
  rewrite !Happ. change ("" +:+ slug +:+ ".html") with (slug +:+ ".html").
  cbn [components Ascii.eqb Bool.eqb]. by rewrite Hc.
Qed.

Lemma discovered_no_separator (m : gmap string node) f :
  discovered m f → no_separator (slug_of f) = true.
Proof.
  intros (_ & Hmatch & _). pose proof (glob_match_filename f Hmatch) as Hname.
  unfold glob_match in Hmatch.
  apply andb_prop in Hmatch as [[_ Hsep]%andb_prop _].
  rewrite Hname, (TrimPrefix_app "posts/"), no_separator_app in Hsep.
  by apply andb_prop in Hsep as [? _].
Qed.

Lemma parent_status_post_page (m : gmap string node) slug :
  m !! "public/posts" = Some Dir → no_separator slug = true →
  parent_status m (post_page slug) = None.
Proof.
  intros Hdir Hslug. unfold parent_status.
  by rewrite dirname_post_page, Hdir.
Qed.

Section Success.
Variable frontmatter_Parse : string → (string * PostMetadata) + error.
Variable md_Convert : string → string + error.
Variable Template : Type.
Variable template_Parse : option Template → string → string → Template + error.
Variable template_Execute : Template → TemplateData → string * option error.
Variable xorshift_Next : N → N.

Abbreviation main_ :=
  (main frontmatter_Parse md_Convert Template template_Parse template_Execute
     xorshift_Next).
Abbreviation load_post_ := (load_post frontmatter_Parse md_Convert).
Abbreviation loaded_templates_ := (loaded_templates Template template_Parse).
Abbreviation rendered_ := (rendered Template template_Execute).
Abbreviation with_post_pages_ := (with_post_pages Template template_Execute).

Lemma ParsepostsMDToHTML_loop_run tpl postsData : ∀ (w : World),
  fs w !! "public/posts" = Some Dir →
  (∀ slug, fs w !! post_page slug ≠ Some Dir) →
  Forall (λ post, no_separator (Slug (Metadata post)) = true
                  ∧ (template_Execute tpl (DataPost post)).2 = None)
    postsData →
  ParsepostsMDToHTML_loop Template template_Execute tpl postsData w
  = (Done None,
     mkWorld (with_post_pages_ tpl postsData (fs w))
       (trace w ++ page_events postsData)).
Proof.
  induction postsData as [|post rest IH]; intros w Hdir Hpages Hall.
  { rewrite app_nil_r. by destruct w. }
  apply Forall_cons in Hall as [[Hslug Hexec] Hall].
  cbn [ParsepostsMDToHTML_loop].
  fold (post_page (Slug (Metadata post))).
  erewrite step_Done.
  2:{ apply run_Create_ok; [by apply parent_status_post_page|apply Hpages]. }
  cbv beta iota.
  erewrite step_Done.
  2:{ apply run_Execute_fresh. cbn [fs]. apply lookup_insert_eq. }
  rewrite Hexec. cbn [fs trace]. rewrite insert_insert_eq, IH; cbn [fs trace].
  - f_equal. f_equal. unfold page_events.
    by rewrite bind_cons, <-!app_assoc.
  - rewrite lookup_insert_ne; [done|]. apply post_page_not_fixed.
  - intros slug. rewrite lookup_insert. case_decide; [done|apply Hpages].
  - done.
Qed.

Lemma template_ParseFiles_run l (m : gmap string node) (w : World) tpl :
  (∀ k, under "public" k = false → fs w !! k = m !! k) →
  loaded_templates_ m l = Done (Some tpl, None) →
  template_ParseFiles Template template_Parse (layout_files l) w
  = (Done (Some tpl, None),
     mkWorld (fs w) (trace w ++ (EvOpen <$> layout_files l))).
Proof.
  intros Hagree Hloaded. unfold loaded_templates in Hloaded.
  change (template_ParseFiles Template template_Parse (layout_files l))
    with (template_parseFiles Template template_Parse None (layout_files l))
    in *.
  rewrite (template_parseFiles_agree _ _ _ _ _ w) in Hloaded.
  2:{ intros f Hin. cbn [fs]. symmetry. apply Hagree.
      by eapply layout_files_outside. }
  pose proof (template_parseFiles_fs Template template_Parse
                (layout_files l) None w) as Hfs.
  destruct (template_parseFiles Template template_Parse None
              (layout_files l) w) as [r w1] eqn:Hrun.
  cbn [fst snd] in *. subst r.
  apply template_parseFiles_trace in Hrun as Ht.
  destruct w1 as [m1 t1]. cbn [fs trace] in *. by subst.
Qed.
Lemma ParsepostsMDToHTML_run (m : gmap string node) tpl postsData (w : World) :
  (∀ k, under "public" k = false → fs w !! k = m !! k) →
  loaded_templates_ m PostLayout = Done (Some tpl, None) →
  fs w !! "public/posts" = Some Dir →
  (∀ slug, fs w !! post_page slug ≠ Some Dir) →
  Forall (λ post, no_separator (Slug (Metadata post)) = true
                  ∧ (template_Execute tpl (DataPost post)).2 = None)
    postsData →
  ∃ t, ParsepostsMDToHTML Template template_Parse template_Execute postsData w
       = (Done None, mkWorld (with_post_pages_ tpl postsData (fs w)) t).
Proof.
  intros Hagree Htpl Hdir Hpages Hall. unfold ParsepostsMDToHTML.
  erewrite step_Done
    by (by apply (template_ParseFiles_run PostLayout m)).
  erewrite step_Done by apply run_ret.
  rewrite ParsepostsMDToHTML_loop_run by done. by eexists.
Qed.

Lemma ParseIndexTemplateToHTML_run (m : gmap string node) tpl postsData
    (w : World) :
  (∀ k, under "public" k = false → fs w !! k = m !! k) →
  loaded_templates_ m IndexLayout = Done (Some tpl, None) →
  fs w !! "public" = Some Dir → fs w !! "public/index.html" ≠ Some Dir →
  (template_Execute tpl (DataIndex (mkIndexData postsData "index"))).2 = None →
  ∃ t, ParseIndexTemplateToHTML Template template_Parse template_Execute
         postsData w
       = (Done None,
          mkWorld (<["public/index.html":=
                       File (rendered_ tpl
                               (DataIndex (mkIndexData postsData "index")))]>
                     (fs w)) t).
Proof.
  intros Hagree Htpl Hdir Hpage Hexec. unfold ParseIndexTemplateToHTML.
  erewrite step_Done
    by (by apply (template_ParseFiles_run IndexLayout m)).
  erewrite step_Done by apply run_ret.
  erewrite step_Done.
  2:{ apply run_Create_ok; [|done]. unfold parent_status.
      change (dirname "public/index.html") with "public". cbn [fs].
      by rewrite Hdir. }
  cbv beta iota zeta.
  erewrite step_Done.
  2:{ apply run_Execute_fresh. cbn [fs]. apply lookup_insert_eq. }
  rewrite Hexec, run_ret. cbn [fs trace]. rewrite insert_insert_eq.
  by eexists.
Qed.

Lemma ParseAboutPage_run (m : gmap string node) tpl (w : World) :
  (∀ k, under "public" k = false → fs w !! k = m !! k) →
  loaded_templates_ m AboutLayout = Done (Some tpl, None) →
  fs w !! "public" = Some Dir → fs w !! "public/about.html" ≠ Some Dir →
  (template_Execute tpl (DataAbout "about" "About me")).2 = None →
  ∃ t, ParseAboutPage Template template_Parse template_Execute w
       = (Done None,
          mkWorld (<["public/about.html":=
                       File (rendered_ tpl (DataAbout "about" "About me"))]>
                     (fs w)) t).
Proof.
  intros Hagree Htpl Hdir Hpage Hexec. unfold ParseAboutPage.
  erewrite step_Done
    by (by apply (template_ParseFiles_run AboutLayout m)).
  erewrite step_Done by apply run_ret.
  erewrite step_Done.
  2:{ apply run_Create_ok; [|done]. unfold parent_status.
      change (dirname "public/about.html") with "public". cbn [fs].
      by rewrite Hdir. }
  cbv beta iota zeta.
  rewrite run_Execute_fresh by (cbn [fs]; apply lookup_insert_eq).
  rewrite Hexec. cbn [fs trace]. rewrite insert_insert_eq. by eexists.
Qed.

Lemma copied_fs_public (m : gmap string node) c :
  <["public/style.css":=File c]> (setup_fs m) !! "public" = Some Dir
  ∧ <["public/style.css":=File c]> (setup_fs m) !! "public/posts" = Some Dir
  ∧ ∀ k, under "public" k = true → k ≠ "public" → k ≠ "public/posts" →
      <["public/style.css":=File c]> (setup_fs m) !! k ≠ Some Dir.
Proof.
  split_and!.
  - rewrite lookup_insert_ne by done. by rewrite setup_fs_lookup.
  - rewrite lookup_insert_ne by done. by rewrite setup_fs_lookup.
  - intros k Hu H1 H2. rewrite lookup_insert, setup_fs_lookup, Hu.
    repeat case_decide; done.
Qed.

Lemma not_post_page (k : string) (posts : list PostData) :
  (∀ slug, k ≠ post_page slug) →
  k ∉ (post_page ∘ Slug ∘ Metadata <$> posts).
Proof. intros Hk (post & -> & _)%list_elem_of_fmap. by eapply Hk. Qed.

(** A run of [main] on which every step succeeds. *)
Lemma main_run (w : World) c posts sorted tplP tplI tplA :
  fs w !! "static/style.css" = Some (File c) →
  Forall2 (λ f post, load_post_ (fs w) f = inl post)
    (glob_posts (fs w)) posts →
  GoSort.Slice post_less xorshift_Next posts = Some sorted →
  loaded_templates_ (fs w) PostLayout = Done (Some tplP, None) →
  loaded_templates_ (fs w) IndexLayout = Done (Some tplI, None) →
  loaded_templates_ (fs w) AboutLayout = Done (Some tplA, None) →
  Forall (λ post, (template_Execute tplP (DataPost post)).2 = None) sorted →
  (template_Execute tplI (DataIndex (mkIndexData sorted "index"))).2 = None →
  (template_Execute tplA (DataAbout "about" "About me")).2 = None →
  ∃ w', main_ w = (Done tt, w')
    ∧ fs w' = built_site Template template_Execute c tplP tplI tplA sorted
                (fs w).
Proof.
  intros Hsrc Hall Hslice HtplP HtplI HtplA HexP HexI HexA.
  destruct (Slice_posts_inv xorshift_Next _ _ Hslice) as [Hperm _].
  destruct (copied_fs_public (fs w) c) as (Hpub & Hposts & Hnodir).
  rewrite main_setup. unfold main_copy.
  erewrite step_Done by (rewrite run_copyFile_setup, Hsrc; reflexivity).
  erewrite step_Done by apply run_fatal_on_None.
  unfold main_load.
  erewrite step_Done.
  2:{ rewrite run_getAllpostData. cbn [fs trace].
      apply (getAllpostData_loop_loads frontmatter_Parse md_Convert).
      exists posts. cbn [fs trace].
      rewrite (glob_posts_agree _ (fs w)) by apply copied_fs_outside.
      split_and!; [done| |done].
      eapply Forall2_impl; [exact Hall|]. intros g post <-.
      apply load_post_agree, copied_fs_outside. }
  cbv beta iota.
  erewrite step_Done by apply run_fatal_on_None.
  rewrite app_nil_l.
  erewrite step_Done by (unfold sort_posts; rewrite Hslice; apply run_ret).
  unfold main_render.
  edestruct (ParsepostsMDToHTML_run (fs w) tplP sorted) as [t4 Hrun4];
    [| exact HtplP | | | | erewrite step_Done by exact Hrun4].
  { cbn [fs]. apply copied_fs_outside. }
  { done. }
  { intros slug. cbn [fs]. apply Hnodir; [done|apply post_page_not_fixed..]. }
  { apply Forall_forall. intros post Hin. split.
    - rewrite <-Hperm in Hin. apply list_elem_of_lookup in Hin as [i Hi].
      destruct (Forall2_lookup_r _ _ _ _ _ Hall Hi) as (f & Hf & Hload).
      rewrite (load_post_slug frontmatter_Parse md_Convert _ _ _ Hload).
      apply (discovered_no_separator (fs w)), elem_of_glob_posts.
      by eapply list_elem_of_lookup_2.
    - by eapply Forall_forall in HexP. }
  erewrite step_Done by apply run_fatal_on_None.
  cbn [fs] in *.
  edestruct (ParseIndexTemplateToHTML_run (fs w) tplI sorted) as [t5 Hrun5];
    [| exact HtplI | | | exact HexI | erewrite step_Done by exact Hrun5].
  { intros k Hk. cbn [fs]. rewrite with_post_pages_outside by done.
    by apply copied_fs_outside. }
  { cbn [fs]. rewrite with_post_pages_other; [done|].
    apply not_post_page. intros slug Heq. symmetry in Heq.
    by apply post_page_not_fixed in Heq. }
  { cbn [fs]. rewrite with_post_pages_other; [by apply Hnodir|].
    apply not_post_page. intros slug Heq. symmetry in Heq.
    by apply post_page_not_fixed in Heq. }
  erewrite step_Done by apply run_fatal_on_None.
  cbn [fs] in *.
  edestruct (ParseAboutPage_run (fs w) tplA) as [t6 Hrun6];
    [| exact HtplA | | | exact HexA | erewrite step_Done by exact Hrun6].
  { intros k Hk. cbn [fs]. rewrite lookup_insert_ne by (by intros <-).
    rewrite with_post_pages_outside by done. by apply copied_fs_outside. }
  { cbn [fs]. rewrite lookup_insert_ne by done.
    rewrite with_post_pages_other; [done|].
    apply not_post_page. intros slug Heq. symmetry in Heq.
    by apply post_page_not_fixed in Heq. }
  { cbn [fs]. rewrite lookup_insert_ne by done.
    rewrite with_post_pages_other; [by apply Hnodir|].
    apply not_post_page. intros slug Heq. symmetry in Heq.
    by apply post_page_not_fixed in Heq. }
  rewrite run_fatal_on_None. by eexists.
Qed.

(** X17. [main] returns exactly when the stylesheet is a regular file,
    every discovered post loads, each of the three sets of templates
    loads, and every execution of a template ends without an error; and
    the files it leaves are the ones of these results. *)
Theorem main_succeeds_exactly_when (w : World) (m' : gmap string node) :
  (∃ w', main_ w = (Done tt, w') ∧ fs w' = m') ↔
  ∃ c posts sorted tplP tplI tplA,
    (fs w !! "static/style.css" = Some (File c)
     ∧ Forall2 (λ f post, load_post_ (fs w) f = inl post)
         (glob_posts (fs w)) posts
     ∧ GoSort.Slice post_less xorshift_Next posts = Some sorted
     ∧ loaded_templates_ (fs w) PostLayout = Done (Some tplP, None)
     ∧ loaded_templates_ (fs w) IndexLayout = Done (Some tplI, None)
     ∧ loaded_templates_ (fs w) AboutLayout = Done (Some tplA, None)
     ∧ m' = built_site Template template_Execute c tplP tplI tplA sorted
              (fs w))
    ∧ Forall (λ post, (template_Execute tplP (DataPost post)).2 = None) sorted
    ∧ (template_Execute tplI (DataIndex (mkIndexData sorted "index"))).2
      = None
    ∧ (template_Execute tplA (DataAbout "about" "About me")).2 = None.
Proof.
  split.
  - intros (w' & Hmain & <-).
    by apply (main_Done_inv_executions frontmatter_Parse md_Convert Template
                template_Parse template_Execute xorshift_Next).
  - intros (c & posts & sorted & tplP & tplI & tplA
            & (Hsrc & Hall & Hslice & HtplP & HtplI & HtplA & ->)
            & HexP & HexI & HexA).
    destruct (main_run w c posts sorted tplP tplI tplA) as (w' & Hmain & Hfs);
      try done.
    by exists w'.
Qed.
End Success.

(** ** Reading only, and the old output *)

Section Inputs.
Variable frontmatter_Parse : string → (string * PostMetadata) + error.
Variable md_Convert : string → string + error.
Variable Template : Type.
Variable template_Parse : option Template → string → string → Template + error.
Variable template_Execute : Template → TemplateData → string * option error.
Variable xorshift_Next : N → N.

Lemma getAllpostData_loop_returns filenames : ∀ posts0 (w0 : World),
  ∃ posts err w',
    getAllpostData_loop frontmatter_Parse md_Convert filenames posts0 w0
    = (Done (posts, err), w') ∧ fs w' = fs w0.
Proof.
  induction filenames as [|f filenames IH]; intros posts0 w0.
  { by exists posts0, None, w0. }
  rewrite (getAllpostData_loop_step frontmatter_Parse md_Convert).
  destruct (load_post frontmatter_Parse md_Convert (fs w0) f) as [post|e].
  - destruct (IH (posts0 ++ [post])
                (mkWorld (fs w0) (trace w0 ++ [EvOpen (post_source f)])))
      as (posts & err & w' & -> & Hfs).
    by exists posts, err, w'.
  - by eexists posts0, (Some e), _.
Qed.

(** X18. [getAllpostData] always returns to its caller: whatever the
    files are, it neither panics nor ends the process (its [log.Fatal] is
    for a malformed pattern, and the pattern is a constant), a failure is
    an error it returns; and it changes no file. *)
Theorem getAllpostData_returns (w : World) :
  ∃ posts err w',
    getAllpostData frontmatter_Parse md_Convert w = (Done (posts, err), w')
    ∧ fs w' = fs w.
Proof.
  rewrite run_getAllpostData.
  destruct (getAllpostData_loop_returns (glob_posts (fs w)) []
              (mkWorld (fs w) (trace w ++ [EvGlob "posts/*.md"])))
    as (posts & err & w' & -> & Hfs).
  by exists posts, err, w'.
Qed.

(** X19. What the output directory holds before a build has no influence
    on it: two runs of [main] on file systems that differ only below
    [public] end the same way and leave the same files. *)
Theorem main_ignores_old_output (m m' : gmap string node) (t : list event) :
  (∀ k, under "public" k = false → m !! k = m' !! k) →
  main frontmatter_Parse md_Convert Template template_Parse template_Execute
    xorshift_Next (mkWorld m t)
  = main frontmatter_Parse md_Convert Template template_Parse template_Execute
      xorshift_Next (mkWorld m' t).
Proof.
  intros Hagree. apply main_clear_public. apply map_eq. intros k.
  rewrite !clear_public_lookup.
  destruct (under "public" k) eqn:Hu; [done|by apply Hagree].
Qed.

End Inputs.

Lemma main_ignores_old_output_witness :
  toy_main (mkWorld sample_fs [])
  = toy_main (mkWorld (<["public/draft.html":=File "x"]> sample_fs) []).
Proof.
  apply (main_ignores_old_output toy_frontmatter toy_markdown (list string)
           toy_parse toy_execute xorshift64).
  intros k Hk. rewrite lookup_insert_ne; [done|]. by intros <-.
Defined.

(** ** Where a run can panic *)

Lemma bind_Panic_inv {A B} (m : M A) (k : A → M B) (w w' : World) v :
  (m ≫= k) w = (Panic v, w') →
  m w = (Panic v, w') ∨ ∃ a w1, m w = (Done a, w1) ∧ k a w1 = (Panic v, w').
Proof.
  rewrite bind_run.
  destruct (m w) as [[a|v0|c] w1];
    [intros; right; eauto|intros [= -> ->]; by left|intros [=]].
Qed.

Lemma fatal_on_no_Panic prefix err (w w' : World) v :
  fatal_on prefix err w ≠ (Panic v, w').
Proof. by destruct err. Qed.

Section Panics.
Variable frontmatter_Parse : string → (string * PostMetadata) + error.
Variable md_Convert : string → string + error.
Variable Template : Type.
Variable template_Parse : option Template → string → string → Template + error.
Variable template_Execute : Template → TemplateData → string * option error.
Variable xorshift_Next : N → N.

Lemma Execute_returns tpl file data (w : World) :
  ∃ r w', Execute Template template_Execute tpl file data w = (Done r, w').
Proof.
  unfold Execute.
  rewrite (step_Done _ _ w (mkWorld (fs w) (trace w ++ [EvExecute file data]))
             tt) by done.
  destruct (template_Execute tpl data) as [out err].
  rewrite bind_run, run_Write. cbn [fs trace].
  destruct (fs w !! file) as [[]|]; by eexists _, _.
Qed.

Lemma Create_returns path (w : World) :
  ∃ r w', os_Create path w = (Done r, w').
Proof.
  rewrite run_Create. destruct (parent_status _ _);
    [|destruct (fs w !! path) as [[]|]]; by eexists _, _.
Qed.

Lemma ParsepostsMDToHTML_loop_returns tpl postsData : ∀ (w : World),
  ∃ r w', ParsepostsMDToHTML_loop Template template_Execute tpl postsData w
          = (Done r, w').
Proof.
  induction postsData as [|post rest IH]; intros w; [by eexists _, _|].
  cbn [ParsepostsMDToHTML_loop].
  destruct (Create_returns ("public/posts/" +:+ Slug (Metadata post)
                            +:+ ".html") w) as ([file [e|]] & w1 & Hc);
    erewrite step_Done by exact Hc; [by eexists _, _|].
  destruct (Execute_returns tpl file (DataPost post) w1)
    as ([e|] & w2 & Hx); erewrite step_Done by exact Hx;
    [by eexists _, _|apply IH].
Qed.

Lemma template_parseFiles_result files : ∀ t (w : World),
  files ≠ [] →
  ∃ r w', template_parseFiles Template template_Parse t files w = (Done r, w')
    ∧ ((∃ tpl, r = (Some tpl, None)) ∨ (∃ e, r = (None, Some e))).
Proof.
  induction files as [|f files IH]; intros t w Hne; [done|].
  rewrite template_parseFiles_cons.
  destruct (fs w !! f) as [[c|]|]; [|by eexists _, _; eauto..].
  destruct (template_Parse t (Base f) c) as [t'|e];
    [|by eexists _, _; eauto].
  destruct files as [|f' files]; [|by apply IH].
  eexists _, _. split; [reflexivity|]. by left; eexists.
Qed.

Lemma render_frame l postsData (w : World) :
  writes_public_only w
    (render Template template_Parse template_Execute l postsData w).2.
Proof.
  by destruct (effects_render (λ _, True) ltac:(done) Template template_Parse
                 template_Execute l postsData ltac:(done) ltac:(done)
                 ltac:(done) w) as [[Hframe _] _].
Qed.

(** A render function panics only in [template.Must], with the error of
    loading the templates. *)
Lemma render_Panic_inv l (m : gmap string node) postsData (w w' : World) v :
  (∀ k, under "public" k = false → fs w !! k = m !! k) →
  render Template template_Parse template_Execute l postsData w
  = (Panic v, w') →
  loaded_templates Template template_Parse m l = Done (None, Some v).
Proof.
  intros Hagree Hrun.
  assert (∃ k, render Template template_Parse template_Execute l postsData
               = (r ← template_ParseFiles Template template_Parse
                        (layout_files l);
                  tpl ← template_Must Template r; k tpl)
               ∧ ∀ tpl w1, ∃ r w2, k tpl w1 = (Done r, w2))
    as (k & Hk & Hreturns).
  { destruct l; eexists; (split; [reflexivity|]); intros tpl w1; cbv beta.
    - apply ParsepostsMDToHTML_loop_returns.
    - destruct (Create_returns "public/index.html" w1)
        as ([file [e|]] & w2 & Hc);
        erewrite step_Done by exact Hc; [by eexists _, _|].
      cbv zeta.
      destruct (Execute_returns tpl file
                  (DataIndex (mkIndexData postsData "index")) w2)
        as ([e|] & w3 & Hx); erewrite step_Done by exact Hx;
        by eexists _, _.
    - destruct (Create_returns "public/about.html" w1)
        as ([file [e|]] & w2 & Hc);
        erewrite step_Done by exact Hc; [by eexists _, _|].
      cbv zeta. apply Execute_returns. }
  rewrite Hk in Hrun. clear Hk.
  change (template_ParseFiles Template template_Parse (layout_files l))
    with (template_parseFiles Template template_Parse None (layout_files l))
    in Hrun.
  destruct (template_parseFiles_result (layout_files l) None w ltac:(done))
    as (r & w0 & Hparse & Hr).
  erewrite step_Done in Hrun by exact Hparse.
  assert ((template_parseFiles Template template_Parse None (layout_files l)
             (mkWorld m [])).1 = Done r) as Hloaded.
  { rewrite <-(template_parseFiles_agree Template template_Parse
                 (layout_files l) None w); [by rewrite Hparse|].
    intros f Hin. cbn [fs]. apply Hagree. by eapply layout_files_outside. }
  destruct Hr as [[tpl ->]|[e ->]].
  - erewrite step_Done in Hrun by apply run_ret.
    destruct (Hreturns tpl w0) as (r & w2 & Hdone). by rewrite Hdone in Hrun.
  - unfold template_Must, panic in Hrun. rewrite bind_run in Hrun.
    by injection Hrun as <- _.
Qed.

(** X21. [main] panics only in [template.Must]: when it panics, one of
    the three sets of templates does not load, and the value of the panic
    is the error of loading it. Nothing else in a build panics: not the
    sort, and no file operation. *)
Theorem main_panics_only_for_templates (w w' : World) (v : string) :
  main frontmatter_Parse md_Convert Template template_Parse template_Execute
    xorshift_Next w = (Panic v, w') →
  ∃ l, loaded_templates Template template_Parse (fs w) l
       = Done (None, Some v).
Proof.
  intros Hmain. rewrite main_setup in Hmain. unfold main_copy in Hmain.
  apply bind_Panic_inv in Hmain as [Hcopy|(err & w2 & Hcopy & Hmain)];
    rewrite run_copyFile_setup in Hcopy;
    destruct (fs w !! "static/style.css") as [[c|]|] eqn:Hsrc; try done;
    injection Hcopy as <- <-.
  2,3: by rewrite (step_Exit _ _ _ _ _ (run_fatal_on_Some _ _ _)) in Hmain.
  erewrite step_Done in Hmain by apply run_fatal_on_None.
  unfold main_load in Hmain.
  rewrite bind_run, run_getAllpostData in Hmain. cbn [fs trace] in Hmain.
  destruct (getAllpostData_loop_returns frontmatter_Parse md_Convert
              (glob_posts (<["public/style.css":=File c]> (setup_fs (fs w))))
              [] (mkWorld (<["public/style.css":=File c]> (setup_fs (fs w)))
                    (((trace w ++ setup_events)
                      ++ [EvOpen "static/style.css";
                          EvCreate "public/style.css";
                          EvWrite "public/style.css"])
                     ++ [EvGlob "posts/*.md"])))
    as (posts & err & w3 & Hload & Hfs3).
  cbn [fs] in Hfs3. rewrite Hload in Hmain.
  destruct err as [e|];
    [by rewrite (step_Exit _ _ _ _ _ (run_fatal_on_Some _ _ _)) in Hmain|].
  erewrite step_Done in Hmain by apply run_fatal_on_None.
  destruct (sort_posts_spec xorshift_Next posts w3) as (sorted & Hsort & _).
  erewrite step_Done in Hmain by exact Hsort.
  assert (∀ k, under "public" k = false → fs w3 !! k = fs w !! k) as Hagree3.
  { intros k Hk. rewrite Hfs3. by apply copied_fs_outside. }
  unfold main_render in Hmain.
  apply bind_Panic_inv in Hmain as [Hposts|(err5 & w4 & Hposts & Hmain)].
  { exists PostLayout. by eapply (render_Panic_inv PostLayout). }
  pose proof (render_frame PostLayout sorted w3) as Hframe4.
  cbn [render] in Hframe4. rewrite Hposts in Hframe4.
  destruct err5 as [e|];
    [by rewrite (step_Exit _ _ _ _ _ (run_fatal_on_Some _ _ _)) in Hmain|].
  erewrite step_Done in Hmain by apply run_fatal_on_None.
  apply bind_Panic_inv in Hmain as [Hindex|(err6 & w5 & Hindex & Hmain)].
  { exists IndexLayout. eapply (render_Panic_inv IndexLayout); [|exact Hindex].
    intros k Hk. rewrite Hframe4 by done. by apply Hagree3. }
  pose proof (render_frame IndexLayout sorted w4) as Hframe5.
  cbn [render] in Hframe5. rewrite Hindex in Hframe5.
  destruct err6 as [e|];
    [by rewrite (step_Exit _ _ _ _ _ (run_fatal_on_Some _ _ _)) in Hmain|].
  erewrite step_Done in Hmain by apply run_fatal_on_None.
  apply bind_Panic_inv in Hmain as [Habout|(err7 & w6 & Habout & Hmain)].
  { exists AboutLayout.
    eapply (render_Panic_inv AboutLayout _ sorted); [|exact Habout].
    intros k Hk. rewrite Hframe5, Hframe4 by done. by apply Hagree3. }
  by apply fatal_on_no_Panic in Hmain.
Qed.
End Panics.

Lemma main_panics_only_for_templates_witness :
  ∃ l, loaded_templates (list string) toy_parse (fs no_footer_world) l
       = Done (None,
               Some "open template/footer.html: no such file or directory").
Proof.
  apply (main_panics_only_for_templates toy_frontmatter toy_markdown
           (list string) toy_parse toy_execute xorshift64 no_footer_world
           (toy_main no_footer_world).2).
  vm_compute. reflexivity.
Defined.

(** ** What any run leaves in the output directory *)

Section Adds.
Variable A : string → Prop.

Lemma adds_refl (w : World) : adds A w w.
Proof. intros k Hk. by left. Qed.

Lemma adds_trans (w1 w2 w3 : World) :
  adds A w1 w2 → adds A w2 w3 → adds A w1 w3.
Proof.
  intros H12 H23 k Hk. destruct (H23 k Hk) as [Hk2|]; [by apply H12|by right].
Qed.

Lemma adds_ret {X} (a : X) : effects (adds A) (λ _, True) (mret a : M X).
Proof. by apply (eff_ret (adds A) adds_refl). Qed.

Lemma adds_bind {X Y} (m : M X) (k : X → M Y) :
  effects (adds A) (λ _, True) m →
  (∀ a, effects (adds A) (λ _, True) (k a)) →
  effects (adds A) (λ _, True) (m ≫= k).
Proof.
  intros Hm Hk. eapply (eff_bind (adds A) adds_trans); [exact Hm|].
  intros a _. apply Hk.
Qed.

(** A step that leaves the files alone. *)
Lemma adds_reading {X} (m : M X) :
  (∀ w, fs (m w).2 = fs w) → effects (adds A) (λ _, True) m.
Proof. intros Hfs w. split; [|done]. intros k. rewrite Hfs. by left. Qed.

Lemma adds_fatal_on prefix err :
  effects (adds A) (λ _, True) (fatal_on prefix err).
Proof. apply adds_reading. intros w. by destruct err. Qed.

Lemma adds_Open path : effects (adds A) (λ _, True) (os_Open path).
Proof. apply adds_reading. intros w. by rewrite run_Open. Qed.

Lemma adds_ReadFile name : effects (adds A) (λ _, True) (os_ReadFile name).
Proof. apply adds_reading. intros w. by rewrite run_ReadFile. Qed.

Lemma adds_Create path :
  A path → effects (adds A) (λ _, True) (os_Create path).
Proof.
  intros Hpath w. rewrite run_Create. split; [|done].
  destruct (parent_status _ _); [|destruct (fs w !! path) as [[]|] eqn:Hp];
    unfold adds; cbn [snd fs]; intros k; try (by left);
    (intros [<-|[_ Hk]]%lookup_insert_is_Some; [by right|by left]).
Qed.

Lemma adds_Write f data : effects (adds A) (λ _, True) (file_Write f data).
Proof.
  intros w. rewrite run_Write. split; [|done].
  destruct (fs w !! f) as [[c|]|] eqn:Hf; unfold adds; cbn [snd fs];
    intros k; try (by left).
  intros [<-|[_ Hk]]%lookup_insert_is_Some; left; [by rewrite Hf|done].
Qed.

Section Libraries.
Variable Template : Type.
Variable template_Parse : option Template → string → string → Template + error.
Variable template_Execute : Template → TemplateData → string * option error.

Lemma adds_Execute tpl file data :
  effects (adds A) (λ _, True)
    (Execute Template template_Execute tpl file data).
Proof.
  unfold Execute. apply adds_bind; [by apply adds_reading|].
  intros _. destruct (template_Execute tpl data) as [out err].
  apply adds_bind; [apply adds_Write|]. intros werr. apply adds_ret.
Qed.

Lemma adds_ParseFiles files :
  effects (adds A) (λ _, True)
    (template_ParseFiles Template template_Parse files).
Proof.
  apply adds_reading. intros w.
  assert (∀ fl t (w0 : World),
            fs (template_parseFiles Template template_Parse t fl w0).2
            = fs w0) as Hparse.
  { induction fl as [|f fl IH]; intros t w0; [done|].
    rewrite template_parseFiles_cons.
    destruct (fs w0 !! f) as [[c|]|]; [|done..].
    destruct (template_Parse t (Base f) c); [|done]. by rewrite IH. }
  destruct files as [|f fl]; [done|]. apply Hparse.
Qed.

Lemma adds_Must r : effects (adds A) (λ _, True) (template_Must Template r).
Proof. apply adds_reading. intros w. by destruct r as [[t|] [e|]]. Qed.

Lemma adds_render l postsData :
  (∀ post, post ∈ postsData → A (post_page (Slug (Metadata post)))) →
  A "public/index.html" → A "public/about.html" →
  effects (adds A) (λ _, True)
    (render Template template_Parse template_Execute l postsData).
Proof.
  intros Hposts Hindex Habout.
  assert (∀ tpl posts,
            (∀ post, post ∈ posts → A (post_page (Slug (Metadata post)))) →
            effects (adds A) (λ _, True)
              (ParsepostsMDToHTML_loop Template template_Execute tpl posts))
    as Hloop.
  { intros tpl posts. induction posts as [|post rest IH]; intros HA;
      cbn [ParsepostsMDToHTML_loop]; [apply adds_ret|].
    apply adds_bind; [apply adds_Create, HA; left|].
    intros [file [e|]]; [apply adds_ret|].
    apply adds_bind; [apply adds_Execute|].
    intros [e|]; [apply adds_ret|]. apply IH. intros p Hp. apply HA. by right. }
  destruct l; cbn [render];
    [unfold ParsepostsMDToHTML|unfold ParseIndexTemplateToHTML
    |unfold ParseAboutPage];
    (apply adds_bind; [apply adds_ParseFiles|]); intros r;
    (apply adds_bind; [apply adds_Must|]); intros tpl.
  - by apply Hloop.
  - apply adds_bind; [by apply adds_Create|].
    intros [file [e|]]; [apply adds_ret|]. cbv zeta.
    apply adds_bind; [apply adds_Execute|]. intros [e|]; apply adds_ret.
  - apply adds_bind; [by apply adds_Create|].
    intros [file [e|]]; [apply adds_ret|]. cbv zeta. apply adds_Execute.
Qed.

Lemma adds_main_render postsData :
  (∀ post, post ∈ postsData → A (post_page (Slug (Metadata post)))) →
  A "public/index.html" → A "public/about.html" →
  effects (adds A) (λ _, True)
    (main_render Template template_Parse template_Execute postsData).
Proof.
  intros Hposts Hindex Habout. unfold main_render.
  apply adds_bind; [by apply (adds_render PostLayout)|]. intros err5.
  apply adds_bind; [apply adds_fatal_on|]. intros _.
  apply adds_bind; [by apply (adds_render IndexLayout)|]. intros err6.
  apply adds_bind; [apply adds_fatal_on|]. intros _.
  apply adds_bind; [by apply (adds_render AboutLayout postsData)|].
  intros err7. apply adds_fatal_on.
Qed.
End Libraries.
End Adds.

Section Leaves.
Variable frontmatter_Parse : string → (string * PostMetadata) + error.
Variable md_Convert : string → string + error.
Variable Template : Type.
Variable template_Parse : option Template → string → string → Template + error.
Variable template_Execute : Template → TemplateData → string * option error.
Variable xorshift_Next : N → N.

Lemma fixed_output_entries filenames k :
  k = "public" ∨ k = "public/posts" ∨ k = "public/style.css" →
  k ∈ output_entries filenames.
Proof.
  intros Hk. unfold output_entries. apply elem_of_app. left.
  rewrite !elem_of_cons. tauto.
Qed.

(** X22. However a run of [main] ends, returning, exiting or panicking,
    the output directory then holds nothing but entries of this build:
    the directory, [posts] in it, the stylesheet, the index page, the
    about page and pages of discovered posts. What a build before it
    left there is gone, also when the build fails. *)
Theorem main_leaves_only_its_output (w : World) (k : string) :
  under "public" k = true →
  is_Some (fs (main frontmatter_Parse md_Convert Template template_Parse
                 template_Execute xorshift_Next w).2 !! k) →
  k ∈ output_entries (glob_posts (fs w)).
Proof.
  intros Hu. rewrite main_setup. unfold main_copy.
  rewrite bind_run, run_copyFile_setup.
  destruct (fs w !! "static/style.css") as [[c|]|] eqn:Hsrc.
  2:{ cbn [snd fs]. intros Hk. apply fixed_output_entries.
      by apply (public_contents_after_copy (fs w) k (Some (File ""))). }
  2:{ cbn [snd fs]. intros Hk. apply fixed_output_entries.
      by apply (public_contents_after_copy (fs w) k None). }
  rewrite bind_run, run_fatal_on_None. unfold main_load.
  rewrite bind_run, run_getAllpostData. cbn [fs trace].
  destruct (getAllpostData_loop_returns frontmatter_Parse md_Convert
              (glob_posts (<["public/style.css":=File c]> (setup_fs (fs w))))
              [] (mkWorld (<["public/style.css":=File c]> (setup_fs (fs w)))
                    (((trace w ++ setup_events)
                      ++ [EvOpen "static/style.css";
                          EvCreate "public/style.css";
                          EvWrite "public/style.css"])
                     ++ [EvGlob "posts/*.md"])))
    as (posts & err & w3 & Hload & Hfs3).
  cbn [fs] in Hfs3. rewrite Hload.
  destruct err as [e|].
  { rewrite bind_run, run_fatal_on_Some. cbn [snd fs]. rewrite Hfs3.
    intros Hk. apply fixed_output_entries.
    by apply (public_contents_after_copy (fs w) k (Some (File c))). }
  rewrite bind_run, run_fatal_on_None.
  apply (getAllpostData_loop_loads frontmatter_Parse md_Convert) in Hload
    as (loaded & Hloaded & Hall & _).
  rewrite app_nil_l in Hloaded. subst loaded. cbn [fs] in Hall.
  rewrite (glob_posts_agree _ (fs w)) in Hall by apply copied_fs_outside.
  assert (Forall2 (λ f post, load_post frontmatter_Parse md_Convert (fs w) f
                             = inl post) (glob_posts (fs w)) posts) as Hall'.
  { eapply Forall2_impl; [exact Hall|]. intros f post <-.
    apply load_post_agree. intros k' Hk'. symmetry.
    by apply copied_fs_outside. }
  destruct (sort_posts_spec xorshift_Next posts w3)
    as (sorted & Hsort & Hperm & _).
  rewrite bind_run, Hsort.
  destruct (adds_main_render (λ k, k ∈ output_entries (glob_posts (fs w)))
              Template template_Parse template_Execute sorted) with (w := w3)
    as [Hadds _].
  - intros post Hin. unfold output_entries. apply elem_of_app. right.
    rewrite <-(sorted_pages frontmatter_Parse md_Convert (fs w) posts sorted
                 Hall' Hperm).
    apply list_elem_of_fmap. by exists post.
  - unfold output_entries. apply elem_of_app. left. rewrite !elem_of_cons.
    tauto.
  - unfold output_entries. apply elem_of_app. left. rewrite !elem_of_cons.
    tauto.
  - intros Hk. destruct (Hadds k Hk) as [Hk3|]; [|done].
    rewrite Hfs3 in Hk3. apply fixed_output_entries.
    by apply (public_contents_after_copy (fs w) k (Some (File c))).
Qed.
End Leaves.

Lemma main_leaves_only_its_output_witness :
  "public/style.css" ∈ output_entries (glob_posts (fs bad_post_world)).
Proof.
  apply (main_leaves_only_its_output toy_frontmatter toy_markdown
           (list string) toy_parse toy_execute xorshift64 bad_post_world).
  - vm_compute. reflexivity.
  - vm_compute. by eexists.
Defined.


(** ** The about page *)

Section About.
Variable frontmatter_Parse : string → (string * PostMetadata) + error.
Variable md_Convert : string → string + error.
Variable Template : Type.
Variable template_Parse : option Template → string → string → Template + error.
Variable template_Execute : Template → TemplateData → string * option error.
Variable xorshift_Next : N → N.

Abbreviation main_ :=
  (main frontmatter_Parse md_Convert Template template_Parse template_Execute
     xorshift_Next).
Abbreviation ParseAboutPage_ :=
  (ParseAboutPage Template template_Parse template_Execute).
Abbreviation loaded_templates_ := (loaded_templates Template template_Parse).
Abbreviation rendered_ := (rendered Template template_Execute).

(** What [ParseAboutPage] has done when it returns: either the page could
    not be created, or the about template was executed once, into the
    page, on the constant record. *)
Lemma ParseAboutPage_Done_inv (m : gmap string node) (w w' : World) r :
  (∀ k, under "public" k = false → fs w !! k = m !! k) →
  ParseAboutPage_ w = (Done r, w') →
  ∃ tpl, loaded_templates_ m AboutLayout = Done (Some tpl, None)
    ∧ ((∃ e, r = Some e
          ∧ w' = mkWorld (fs w)
                   (trace w ++ (EvOpen <$> layout_files AboutLayout)
                    ++ [EvCreate "public/about.html"]))
       ∨ (r = (template_Execute tpl (DataAbout "about" "About me")).2
          ∧ w' = mkWorld
                   (<["public/about.html":=
                        File (rendered_ tpl (DataAbout "about" "About me"))]>
                      (fs w))
                   (trace w ++ (EvOpen <$> layout_files AboutLayout)
                    ++ [EvCreate "public/about.html";
                        EvExecute "public/about.html"
                          (DataAbout "about" "About me");
                        EvWrite "public/about.html"]))).
Proof.
  intros Hagree Hrun. unfold ParseAboutPage in Hrun.
  apply bind_Done_inv in Hrun as (r0 & w0 & Hparse & Hrun).
  apply bind_Done_inv in Hrun as (tpl & w1 & Hmust & Hrun).
  destruct (render_templates Template template_Parse AboutLayout m w w0 w1 r0
              tpl Hagree Hparse Hmust) as [Htpl Hfs].
  assert (trace w1 = trace w ++ (EvOpen <$> layout_files AboutLayout)) as Ht.
  { destruct r0 as [[t|] [e1|]]; unfold template_Must, panic in Hmust;
      try done. rewrite run_ret in Hmust. injection Hmust as -> ->.
    by apply template_parseFiles_trace in Hparse. }
  exists tpl. split; [done|].
  apply bind_Done_inv in Hrun as ([file err] & w2 & Hcreate & Hrun).
  destruct err as [e|].
  - left. exists e. apply Create_error_inv in Hcreate as ->.
    injection Hrun as <- <-. split; [done|].
    by rewrite Hfs, Ht, <-app_assoc.
  - right. cbv zeta in Hrun.
    destruct (run_page Template template_Execute _ _ _ _ _ _ _ _
                Hcreate Hrun) as [-> ->].
    split; [done|]. by rewrite Hfs, Ht, <-app_assoc.
Qed.

Lemma render_emits l postsData (w : World) :
  ∃ evs, trace (render Template template_Parse template_Execute l postsData
                  w).2 = trace w ++ evs.
Proof.
  destruct (effects_render (λ _, True) ltac:(done) Template template_Parse
              template_Execute l postsData ltac:(done) ltac:(done)
              ltac:(done) w) as [[_ (evs & Ht & _)] _].
  by exists evs.
Qed.

(** The last step of a run of [main] that returns. *)
Lemma main_Done_about (w w' : World) :
  main_ w = (Done tt, w') →
  ∃ w5 evs, ParseAboutPage_ w5 = (Done None, w')
    ∧ trace w5 = trace w ++ evs
    ∧ ∀ k, under "public" k = false → fs w5 !! k = fs w !! k.
Proof.
  intros Hmain. rewrite main_setup in Hmain. unfold main_copy in Hmain.
  apply bind_Done_inv in Hmain as (err & w2 & Hcopy & Hmain).
  rewrite run_copyFile_setup in Hcopy.
  destruct (fs w !! "static/style.css") as [[c|]|] eqn:Hsrc;
    injection Hcopy as <- <-; [|done..].
  apply bind_Done_inv in Hmain as (_ & w2' & [_ ->]%fatal_on_Done_inv & Hmain).
  unfold main_load in Hmain.
  apply bind_Done_inv in Hmain as ([posts err] & w3 & Hload & Hmain).
  apply bind_Done_inv in Hmain as (_ & w3' & [-> ->]%fatal_on_Done_inv & Hmain).
  apply bind_Done_inv in Hmain as (sorted & w3' & Hsort & Hmain).
  unfold sort_posts in Hsort.
  destruct (GoSort.Slice post_less xorshift_Next posts) as [sorted'|];
    [|done].
  injection Hsort as -> <-.
  unfold main_render in Hmain.
  apply bind_Done_inv in Hmain as (err5 & w4 & Hposts & Hmain).
  apply bind_Done_inv in Hmain as (_ & w4' & [-> ->]%fatal_on_Done_inv & Hmain).
  apply bind_Done_inv in Hmain as (err6 & w5 & Hindex & Hmain).
  apply bind_Done_inv in Hmain as (_ & w5' & [-> ->]%fatal_on_Done_inv & Hmain).
  apply bind_Done_inv in Hmain as (err7 & w6 & Habout & Hmain).
  apply fatal_on_Done_inv in Hmain as [-> ->].
  rewrite run_getAllpostData in Hload.
  apply (getAllpostData_loop_loads frontmatter_Parse md_Convert) in Hload
    as (loaded & _ & _ & Hw3).
  cbn [fs trace] in Hw3.
  assert (fs w3 = <["public/style.css":=File c]> (setup_fs (fs w))) as Hfs3
    by (by rewrite Hw3).
  assert (∃ evs3, trace w3 = trace w ++ evs3) as [evs3 Ht3].
  { rewrite Hw3. cbn [trace]. rewrite <-!app_assoc. by eexists. }
  clear Hw3.
  pose proof (render_frame Template template_Parse template_Execute
                PostLayout sorted w3) as Hframe4.
  destruct (render_emits PostLayout sorted w3) as (evs4 & Ht4).
  cbn [render] in Hframe4, Ht4. rewrite Hposts in Hframe4, Ht4.
  cbn [snd] in Hframe4, Ht4.
  pose proof (render_frame Template template_Parse template_Execute
                IndexLayout sorted w4) as Hframe5.
  destruct (render_emits IndexLayout sorted w4) as (evs5 & Ht5).
  cbn [render] in Hframe5, Ht5. rewrite Hindex in Hframe5, Ht5.
  cbn [snd] in Hframe5, Ht5.
  exists w5. eexists. split_and!; [done| |].
  - rewrite Ht5, Ht4, Ht3, <-!app_assoc. reflexivity.
  - intros k Hk. rewrite Hframe5, Hframe4, Hfs3 by done.
    by apply copied_fs_outside.
Qed.

(** C10. The about page is rendered from the constant record with page
    identifier [about] and title [About me], whatever the posts are.
    In every run of [main] a template executed into the about page is
    given that record, and [ParseAboutPage] executes a template on no
    other data. Whenever [ParseAboutPage] returns it has either failed to
    create the page or executed the about template into it, once, on that
    record. A run of [main] that returns has executed the about template
    on that record, and the page holds what the template wrote for it;
    so two builds with the same three about template files leave the same
    about page, whatever else differs between them. *)
Theorem C10_about_data_is_constant (w : World) :
  (∃ evs, trace (main_ w).2 = trace w ++ evs
     ∧ Forall about_data_constant evs)
  ∧ (∃ evs,
       trace (ParseAboutPage_ w).2 = trace w ++ evs
       ∧ ∀ f d, EvExecute f d ∈ evs →
           f = "public/about.html" ∧ d = DataAbout "about" "About me")
  ∧ (∀ r w', ParseAboutPage_ w = (Done r, w') →
       ∃ tpl, loaded_templates_ (fs w) AboutLayout = Done (Some tpl, None)
         ∧ ((∃ e, r = Some e
               ∧ w' = mkWorld (fs w)
                        (trace w ++ (EvOpen <$> layout_files AboutLayout)
                         ++ [EvCreate "public/about.html"]))
            ∨ (r = (template_Execute tpl (DataAbout "about" "About me")).2
               ∧ w' = mkWorld
                        (<["public/about.html":=
                             File (rendered_ tpl
                                     (DataAbout "about" "About me"))]>
                           (fs w))
                        (trace w ++ (EvOpen <$> layout_files AboutLayout)
                         ++ [EvCreate "public/about.html";
                             EvExecute "public/about.html"
                               (DataAbout "about" "About me");
                             EvWrite "public/about.html"]))))
  ∧ (∀ w', main_ w = (Done tt, w') →
       ∃ tpl evs,
         loaded_templates_ (fs w) AboutLayout = Done (Some tpl, None)
         ∧ trace w' = trace w ++ evs
         ∧ EvExecute "public/about.html" (DataAbout "about" "About me") ∈ evs
         ∧ fs w' !! "public/about.html"
           = Some (File (rendered_ tpl (DataAbout "about" "About me"))))
  ∧ (∀ w' v v', main_ w = (Done tt, w') → main_ v = (Done tt, v') →
       (∀ f, f ∈ layout_files AboutLayout → fs w !! f = fs v !! f) →
       fs w' !! "public/about.html" = fs v' !! "public/about.html").
Proof.
  assert (∀ u u', main_ u = (Done tt, u') →
            ∃ tpl evs,
              loaded_templates_ (fs u) AboutLayout = Done (Some tpl, None)
              ∧ trace u' = trace u ++ evs
              ∧ EvExecute "public/about.html" (DataAbout "about" "About me")
                ∈ evs
              ∧ fs u' !! "public/about.html"
                = Some (File (rendered_ tpl (DataAbout "about" "About me"))))
    as Hdone.
  { intros u u' (u5 & evs5 & Habout & Ht5 & Hagree)%main_Done_about.
    apply (ParseAboutPage_Done_inv (fs u)) in Habout
      as (tpl & Htpl & [(e & [=] & _)|[_ ->]]); [|done].
    exists tpl. eexists. split_and!; [done| | |].
    - cbn [trace]. rewrite Ht5, <-!app_assoc. reflexivity.
    - rewrite !elem_of_app, !elem_of_cons. tauto.
    - cbn [fs]. apply lookup_insert_eq. }
  split_and!.
  - destruct (effects_main about_data_constant about_data_constant_other
                frontmatter_Parse md_Convert Template template_Parse
                template_Execute xorshift_Next) with (w := w)
      as [[_ Hemits] _]; [| | |done].
    + intros post. simpl. intros [=].
    + intros d. simpl. intros [=].
    + done.
  - set (P' := λ e, match e with
                    | EvExecute f d =>
                        f = "public/about.html"
                        ∧ d = DataAbout "about" "About me"
                    | _ => True
                    end).
    destruct (effects_render P') with
      (Template := Template) (template_Parse := template_Parse)
      (template_Execute := template_Execute) (l := AboutLayout)
      (postsData := @nil PostData) (w := w)
      as [[_ (evs & Htrace & Hevs)] _]; [|done|done|by intros _|].
    { intros e He. destruct e; try done. by destruct (He file data). }
    exists evs. split; [done|]. intros f d Hin.
    by apply (proj1 (Forall_forall _ _) Hevs _ Hin).
  - intros r w' Hrun. by apply (ParseAboutPage_Done_inv (fs w)) in Hrun.
  - apply Hdone.
  - intros w' v v' (tpl & _ & Htpl & _ & _ & ->)%Hdone
                   (tpl' & _ & Htpl' & _ & _ & ->)%Hdone Hsame.
    assert (loaded_templates_ (fs w) AboutLayout
            = loaded_templates_ (fs v) AboutLayout) as Heq.
    { unfold loaded_templates.
      change (template_ParseFiles Template template_Parse
                (layout_files AboutLayout))
        with (template_parseFiles Template template_Parse None
                (layout_files AboutLayout)).
      apply template_parseFiles_agree. intros f Hin. cbn [fs].
      by apply Hsame. }
    rewrite Htpl, Htpl' in Heq. by injection Heq as ->.
Qed.
End About.

(** C10 at the sample site: the build returns, and the about page holds
    what the about template wrote for the constant record. *)
Lemma C10_witness :
  ∃ tpl evs,
    loaded_templates (list string) toy_parse (fs sample_world) AboutLayout
    = Done (Some tpl, None)
    ∧ trace (toy_main sample_world).2 = trace sample_world ++ evs
    ∧ EvExecute "public/about.html" (DataAbout "about" "About me") ∈ evs
    ∧ fs (toy_main sample_world).2 !! "public/about.html"
      = Some (File (rendered (list string) toy_execute tpl
                      (DataAbout "about" "About me"))).
Proof.
  destruct (C10_about_data_is_constant toy_frontmatter toy_markdown
              (list string) toy_parse toy_execute xorshift64 sample_world)
    as (_ & _ & _ & Hdone & _).
  apply Hdone. vm_compute. reflexivity.
Defined.

(** ** The front matter *)

Lemma string_app_cons c (s t : string) : String c s +:+ t = String c (s +:+ t).
Proof. done. Qed.

Lemma string_app_nil_l (s : string) : "" +:+ s = s.
Proof. done. Qed.

Lemma string_app_nil_r (s : string) : s +:+ "" = s.
Proof. induction s as [|c s IH]; [done|]. by rewrite string_app_cons, IH. Qed.

Lemma string_app_assoc (s t u : string) : (s +:+ t) +:+ u = s +:+ t +:+ u.
Proof.
  induction s as [|c s IH]; [done|]. by rewrite !string_app_cons, IH.
Qed.

Lemma substring_middle (a b c : string) :
  String.substring (String.length a) (String.length b) (a +:+ b +:+ c) = b.
Proof.
  induction a as [|x a IH]; [|done].
  change ("" +:+ b +:+ c) with (b +:+ c). apply substring_app_l.
Qed.

(** *** Lines *)

Lemma ReadBytes_lines (s : string) :
  s ≠ "" →
  ∃ l rest,
    frontmatter.ReadBytes s = (l, rest, negb (terminated l))
    ∧ lines s = l :: lines rest
    ∧ s = l +:+ rest
    ∧ l ≠ ""
    ∧ (terminated l = false → rest = "").
Proof.
  induction s as [|c s IH]; [done|]. intros _.
  cbn [frontmatter.ReadBytes lines].
  destruct (Ascii.eqb c frontmatter.newline) eqn:Hc.
  - exists (String c ""), s. cbn [terminated]. rewrite Hc.
    split_and!; try done.
  - destruct s as [|d s].
    + exists (String c ""), "". cbn [frontmatter.ReadBytes lines terminated].
      rewrite Hc. by split_and!.
    + destruct IH as (l & rest & Hread & Hlines & Hs & Hl & Hrest); [done|].
      rewrite Hread, Hlines. exists (String c l), rest.
      assert (terminated (String c l) = terminated l) as Ht
        by (by destruct l).
      rewrite Ht. split_and!; try done.
      by rewrite string_app_cons, <-Hs.
Qed.

Lemma lines_cons (s l : string) (ls : list string) :
  lines s = l :: ls →
  ∃ rest, s = l +:+ rest ∧ ls = lines rest ∧ l ≠ ""
          ∧ (terminated l = false → rest = "").
Proof.
  intros Hs. destruct (ReadBytes_lines s) as (l' & rest & _ & Hl & ? & ? & ?).
  { by intros ->. }
  rewrite Hs in Hl. injection Hl as -> ->. by exists rest.
Qed.

Lemma unlines_lines (s : string) : unlines (lines s) = s.
Proof.
  induction s as [|c s IH]; [done|]. cbn [lines].
  destruct (Ascii.eqb c frontmatter.newline).
  - unfold unlines in *. cbn [foldr]. by rewrite IH.
  - unfold unlines in *. destruct (lines s) as [|l ls]; cbn [foldr] in *.
    + by rewrite <-IH.
    + by rewrite string_app_cons, IH.
Qed.

Section FrontMatterProofs.
Variable TrimSpace : string → string.
Variable decode : frontmatter.syntax → string → PostMetadata + error.
Hypothesis TrimSpace_empty : TrimSpace "" = "".

Abbreviation readLine := (frontmatter.readLine TrimSpace).
Abbreviation detect := (frontmatter.detect TrimSpace).
Abbreviation extract := (frontmatter.extract TrimSpace decode).
Abbreviation opening_ := (opening TrimSpace).
Abbreviation closing_ := (closing TrimSpace).
Abbreviation extraction_ := (extraction TrimSpace decode).
Abbreviation leading_block_ := (leading_block TrimSpace).
Abbreviation Parse := (frontmatter.Parse TrimSpace decode).

Lemma readLine_end (out : string) (n s0 : nat) :
  readLine (frontmatter.mkParser "" out n s0)
  = ("", true, frontmatter.mkParser "" out n s0).
Proof.
  unfold frontmatter.readLine. cbn.
  by rewrite TrimSpace_empty, string_app_nil_r, Nat.add_0_r.
Qed.

Lemma readLine_line (s out : string) (s0 : nat) :
  s ≠ "" →
  ∃ l rest,
    readLine (frontmatter.mkParser s out (String.length out) s0)
    = (TrimSpace l, negb (terminated l),
       frontmatter.mkParser rest (out +:+ l) (String.length (out +:+ l)) s0)
    ∧ lines s = l :: lines rest
    ∧ s = l +:+ rest
    ∧ l ≠ ""
    ∧ (terminated l = false → rest = "").
Proof.
  intros Hs. destruct (ReadBytes_lines s Hs) as (l & rest & Hread & ?).
  exists l, rest. split; [|done].
  unfold frontmatter.readLine. cbn. rewrite Hread.
  by rewrite string_length_app.
Qed.

(** *** The opening *)

Lemma detect_opening (fuel : nat) (s out : string) (s0 : nat) :
  String.length s < fuel →
  ∃ r p,
    detect fuel frontmatter.defaultFormats
      (frontmatter.mkParser s out (String.length out) s0) = Some (r, p)
    ∧ match opening_ (lines s) with
      | None =>
          r = None
          ∧ frontmatter.output p +:+ frontmatter.reader p = out +:+ s
      | Some (f, blanks, o, ls) =>
          r = Some f
          ∧ ∃ rest,
              ls = lines rest ∧ s = blanks +:+ o +:+ rest
              ∧ p = frontmatter.mkParser rest (out +:+ blanks +:+ o)
                      (String.length (out +:+ blanks +:+ o))
                      (if frontmatter.UnmarshalDelims f
                       then String.length (out +:+ blanks)
                       else String.length (out +:+ blanks +:+ o))
      end.
Proof.
  clear decode. revert s out s0.
  induction fuel as [|fuel IH]; intros s out s0 Hfuel; [lia|].
  cbn [frontmatter.detect].
  destruct (decide (s = "")) as [->|Hs].
  { rewrite readLine_end. cbv beta iota. eexists _, _. split; [done|].
    cbn. by rewrite string_app_nil_r. }
  destruct (readLine_line s out s0 Hs) as (l & rest & -> & Hl & Hsl & ? & Hend).
  cbv beta iota. rewrite Hl. cbn [opening].
  destruct (terminated l) eqn:Ht; cbn [negb].
  2:{ eexists _, _. split; [done|]. split; [done|]. cbn.
      by rewrite Hsl, string_app_assoc. }
  destruct (String.eqb (TrimSpace l) "") eqn:Hblank.
  - destruct (IH rest (out +:+ l) s0) as (r & p & Hdet & Hspec).
    { rewrite Hsl, string_length_app in Hfuel.
      destruct l; [done|]. simpl in Hfuel. lia. }
    exists r, p. split; [done|].
    destruct (opening_ (lines rest))
      as [[[[f blanks] o] ls]|]; cbn.
    + destruct Hspec as (-> & rest' & -> & -> & ->).
      split; [done|]. exists rest'. split; [done|].
      rewrite !string_app_assoc. split; [done|]. done.
    + destruct Hspec as (-> & ->). split; [done|].
      by rewrite Hsl, string_app_assoc.
  - destruct (List.find _ frontmatter.defaultFormats) as [f|]; cbn.
    + eexists _, _. split; [done|]. split; [done|]. exists rest.
      split; [done|]. split; [done|].
      by rewrite string_app_nil_r.
    + eexists _, _. split; [done|]. split; [done|]. cbn.
      by rewrite Hsl, string_app_assoc.
Qed.

(** *** The closing *)

Lemma extraction_further (f : frontmatter.Format) (s0 : nat) (out l : string)
    (ls : list string) :
  closing_ f (l :: ls)
  = ('(body, c, rest) ← closing_ f ls; Some (l +:+ body, c, rest)) →
  extraction_ f s0 out (l :: ls) = extraction_ f s0 (out +:+ l) ls.
Proof.
  intros Hc. unfold extraction. rewrite Hc.
  destruct (closing_ f ls) as [[[body c] rest]|]; cbn.
  - by rewrite !string_app_assoc.
  - unfold unlines. cbn [foldr]. by rewrite !string_app_assoc.
Qed.

Lemma extract_closing (f : frontmatter.Format) (fuel : nat) :
  frontmatter.End f ≠ "" →
  (frontmatter.RequiresNewLine f = true →
   frontmatter.UnmarshalDelims f = true) →
  (∀ s out s0,
     2 * String.length s + 2 ≤ fuel →
     extract fuel f None (frontmatter.mkParser s out (String.length out) s0)
     = Some (extraction_ f s0 out (lines s)))
  ∧ (∀ l s out s0 read0,
       l ≠ "" → (terminated l = false → s = "") →
       read0 = String.length out ∨ frontmatter.UnmarshalDelims f = true →
       2 * String.length s + 3 ≤ fuel →
       extract fuel f (Some (read0, TrimSpace l, negb (terminated l)))
         (frontmatter.mkParser s (out +:+ l) (String.length (out +:+ l)) s0)
       = Some (extraction_ f s0 out (l :: lines s))).
Proof.
  intros Hend Hdelims. induction fuel as [|fuel [IHtop IHcheck]].
  { split; intros; lia. }
  split.
  - intros s out s0 Hfuel. cbn [frontmatter.extract].
    destruct (decide (s = "")) as [->|Hs].
    + rewrite readLine_end. cbv beta iota. cbn [frontmatter.read].
      destruct fuel as [|fuel]; [simpl in Hfuel; lia|].
      cbn [frontmatter.extract].
      destruct (String.eqb "" (frontmatter.End f)) eqn:Heq.
      { apply String.eqb_eq in Heq. by destruct Hend. }
      cbn. unfold extraction, unlines. cbn.
      by rewrite ?string_app_nil_r.
    + destruct (readLine_line s out s0 Hs)
        as (l & rest & -> & Hl & Hsl & Hne & Hlast).
      cbv beta iota. cbn [frontmatter.read]. rewrite Hl.
      apply IHcheck; [done|done|by left|].
      rewrite Hsl, string_length_app in Hfuel.
      destruct l; [done|]. simpl in Hfuel. lia.
  - intros l s out s0 read0 Hne Hlast Hread Hfuel.
    cbn [frontmatter.extract].
    destruct (String.eqb (TrimSpace l) (frontmatter.End f)) eqn:Hline;
      cbn [negb].
    + destruct (frontmatter.RequiresNewLine f) eqn:Hnewline.
      * specialize (Hdelims eq_refl).
        destruct (decide (s = "")) as [->|Hs].
        { rewrite readLine_end. cbv beta iota. cbn.
          unfold frontmatter.unmarshal, extraction. cbn.
          rewrite Hline, Hnewline, Hdelims. cbn.
          by rewrite ?string_app_nil_r. }
        destruct (readLine_line s (out +:+ l) s0 Hs)
          as (l2 & rest & -> & Hl & Hsl & Hne2 & Hlast2).
        cbv beta iota.
        destruct (String.eqb (TrimSpace l2) "") eqn:Hblank; cbn [negb].
        -- unfold frontmatter.unmarshal, extraction. cbn.
           rewrite Hline, Hnewline, Hdelims, Hl, Hblank. cbn.
           by rewrite ?unlines_lines, ?string_app_assoc.
        -- assert (terminated l = true) as Ht.
           { destruct (terminated l); [done|]. by destruct Hs; apply Hlast. }
           rewrite IHcheck; [|done|done|by right|].
           2:{ rewrite Hsl, string_length_app in Hfuel.
               destruct l2; [done|]. simpl in Hfuel. lia. }
           f_equal. rewrite Hl. symmetry. apply extraction_further.
           cbn [closing]. by rewrite Hline, Hnewline, Hblank, Ht.
      * unfold frontmatter.unmarshal, extraction. cbn.
        rewrite Hline, Hnewline. cbn.
        rewrite ?unlines_lines, ?string_app_nil_r.
        destruct (frontmatter.UnmarshalDelims f); [done|].
        by destruct Hread as [->|?].
    + destruct (terminated l) eqn:Ht; cbn [negb].
      * rewrite IHtop by lia. f_equal. symmetry. apply extraction_further.
        cbn [closing]. by rewrite Hline, Ht.
      * rewrite (Hlast eq_refl). unfold extraction. cbn.
        rewrite Hline, Ht. cbn. unfold unlines. cbn.
        by rewrite ?string_app_nil_r.
Qed.

(** *** The leading block *)

Lemma opening_split (ls : list string) f blanks o ls' :
  opening_ ls = Some (f, blanks, o, ls') →
  f ∈ frontmatter.defaultFormats
  ∧ TrimSpace o = frontmatter.Start f
  ∧ ∃ bl, blanks = unlines bl ∧ Forall (λ l, TrimSpace l = "") bl.
Proof.
  revert blanks. induction ls as [|l ls IH]; intros blanks; [done|].
  cbn [opening]. destruct (terminated l); [|done].
  destruct (String.eqb (TrimSpace l) "") eqn:Hblank.
  - destruct (opening_ ls) as [[[[f' blanks'] o'] ls'']|]; [|done].
    cbn. intros [= -> <- -> ->].
    destruct (IH blanks' eq_refl) as (? & ? & bl & -> & Hbl).
    split; [done|]. split; [done|]. exists (l :: bl). split; [done|].
    constructor; [|done]. by apply String.eqb_eq.
  - destruct (List.find _ _) as [f'|] eqn:Hfind; [|done].
    cbn. intros [= -> <- <- <-].
    apply find_some in Hfind as [Hin Heq]. apply String.eqb_eq in Heq.
    split; [by apply list_elem_of_In|]. split; [done|]. by exists [].
Qed.

Lemma closing_split (f : frontmatter.Format) (s body c : string)
    (ls : list string) :
  closing_ f (lines s) = Some (body, c, ls) →
  ∃ rest c1 c2,
    ls = lines rest ∧ s = body +:+ c +:+ rest
    ∧ c = c1 +:+ c2 ∧ TrimSpace c1 = frontmatter.End f ∧ TrimSpace c2 = "".
Proof.
  remember (lines s) as L eqn:HL. revert s body HL.
  induction L as [|l L IH]; intros s body HL; [done|].
  symmetry in HL. apply lines_cons in HL as (s1 & -> & -> & _ & _).
  assert (terminated l = true
          → ('(body, c, rest) ← closing_ f (lines s1);
             Some (l +:+ body, c, rest)) = Some (body, c, ls)
          → ∃ rest c1 c2,
              ls = lines rest ∧ l +:+ s1 = body +:+ c +:+ rest
              ∧ c = c1 +:+ c2 ∧ TrimSpace c1 = frontmatter.End f
              ∧ TrimSpace c2 = "") as Hfurther.
  { intros _ Hc.
    destruct (closing_ f (lines s1)) as [[[body' c'] rest']|] eqn:Hc';
      [|done].
    cbn in Hc. injection Hc as <- -> ->.
    destruct (IH s1 body' eq_refl eq_refl)
      as (rest & c1 & c2 & -> & -> & -> & ? & ?).
    exists rest, c1, c2. by rewrite !string_app_assoc. }
  cbn [closing].
  destruct (String.eqb (TrimSpace l) (frontmatter.End f)) eqn:Hline.
  - apply String.eqb_eq in Hline.
    destruct (frontmatter.RequiresNewLine f).
    + destruct (lines s1) as [|l2 L2] eqn:Hs1.
      * intros [= <- <- <-]. exists "", l, "".
        rewrite <-(unlines_lines s1), Hs1.
        by rewrite ?string_app_nil_r.
      * destruct (String.eqb (TrimSpace l2) "") eqn:Hblank.
        -- intros [= <- <- <-]. apply String.eqb_eq in Hblank.
           apply lines_cons in Hs1 as (s2 & -> & -> & _ & _).
           exists s2, l, l2. by rewrite ?string_app_assoc.
        -- destruct (terminated l); [|done]. by apply Hfurther.
    + intros [= <- <- <-]. exists s1, l, "".
      by rewrite ?string_app_nil_r.
  - destruct (terminated l); [|done]. by apply Hfurther.
Qed.

Lemma defaultFormats_shape (f : frontmatter.Format) :
  f ∈ frontmatter.defaultFormats →
  frontmatter.End f ≠ ""
  ∧ (frontmatter.RequiresNewLine f = true
     → frontmatter.UnmarshalDelims f = true).
Proof.
  unfold frontmatter.defaultFormats. rewrite !elem_of_cons, elem_of_nil.
  intros H. by repeat destruct H as [->|H].
Qed.

(** What [leading_block] finds in an input: after empty lines only, a
    line that is the start delimiter of one of the formats, later a line
    that is its end delimiter, with the empty line behind it where there
    is one to find; the block is the text between the two lines, or with
    them; the rest is all that follows. *)
Lemma leading_block_split (input : string) f block rest :
  leading_block_ input = Some (f, block, rest) →
  f ∈ frontmatter.defaultFormats
  ∧ ∃ blanks o body c1 c2,
      input = unlines blanks +:+ o +:+ body +:+ (c1 +:+ c2) +:+ rest
      ∧ Forall (λ l, TrimSpace l = "") blanks
      ∧ TrimSpace o = frontmatter.Start f
      ∧ TrimSpace c1 = frontmatter.End f
      ∧ TrimSpace c2 = ""
      ∧ block = if frontmatter.UnmarshalDelims f
                then o +:+ body +:+ c1 +:+ c2 else body.
Proof.
  clear decode. unfold leading_block.
  destruct (opening_ (lines input)) as [[[[f' blanks] o] ls]|] eqn:Hopen;
    [|done].
  cbn.
  destruct (detect_opening (S (String.length input)) input "" 0)
    as (r & p & _ & Hdet); [lia|].
  rewrite Hopen in Hdet. destruct Hdet as (_ & s1 & -> & Hinput & _).
  destruct (closing_ f' (lines s1)) as [[[body c] ls]|] eqn:Hclose; [|done].
  cbn. intros [= -> <- <-].
  apply opening_split in Hopen as (Hf & Ho & bl & -> & Hbl).
  apply closing_split in Hclose as (s2 & c1 & c2 & -> & -> & -> & Hc1 & Hc2).
  split; [done|]. exists bl, o, body, c1, c2.
  by rewrite unlines_lines.
Qed.

(** [frontmatter.Parse] splits the input at its leading block. *)
Lemma Parse_leading_block (input : string) :
  Parse input
  = match leading_block_ input with
    | None => inl (input, zero_PostMetadata)
    | Some (f, block, rest) =>
        match decode (frontmatter.Unmarshal f) block with
        | inl meta => inl (rest, meta)
        | inr err => inr err
        end
    end.
Proof.
  unfold frontmatter.Parse, leading_block.
  destruct (detect_opening (3 * String.length input + 4) input "" 0)
    as (r & p & Hdet & Hspec); [lia|].
  cbn [String.length] in Hdet. rewrite Hdet.
  destruct (opening_ (lines input)) as [[[[f blanks] o] ls]|] eqn:Hopen.
  2:{ destruct Hspec as [-> ->]. done. }
  destruct Hspec as (-> & s1 & -> & Hinput & ->).
  apply opening_split in Hopen as (Hf & _).
  destruct (defaultFormats_shape f Hf) as [Hend Hdelims].
  destruct (extract_closing f (3 * String.length input + 4) Hend Hdelims)
    as [Htop _].
  rewrite Htop.
  2:{ rewrite Hinput, !string_length_app. lia. }
  cbn [mbind option_bind]. unfold extraction.
  destruct (closing_ f (lines s1)) as [[[body c] ls]|] eqn:Hclose; cbn.
  2:{ by rewrite unlines_lines, string_app_nil_r, Hinput,
        ?string_app_assoc. }
  rewrite !string_app_nil_l.
  assert (String.substring
            (if frontmatter.UnmarshalDelims f then String.length blanks
             else String.length (blanks +:+ o))
            ((if frontmatter.UnmarshalDelims f
              then String.length ((blanks +:+ o) +:+ body +:+ c)
              else String.length ((blanks +:+ o) +:+ body))
             - (if frontmatter.UnmarshalDelims f then String.length blanks
                else String.length (blanks +:+ o)))
            ((blanks +:+ o) +:+ body +:+ c)
          = if frontmatter.UnmarshalDelims f then o +:+ body +:+ c
            else body) as ->.
  { destruct (frontmatter.UnmarshalDelims f).
    - rewrite string_app_assoc. set (t := o +:+ body +:+ c).
      rewrite string_length_app.
      replace (String.length blanks + String.length t - String.length blanks)
        with (String.length t) by lia.
      apply substring_app_r.
    - set (a := blanks +:+ o). rewrite (string_length_app a body).
      replace (String.length a + String.length body - String.length a)
        with (String.length body) by lia.
      apply substring_middle. }
  by destruct (decode _ _).
Qed.
End FrontMatterProofs.



